(** * Incremental demuxing: the ADTS elementary-stream parser and the
      WebM container walker

    A shallow embedding of
      - [media/formats/mp2t/es_parser_adts.cc] (module [Adts]) and
      - [packager/media/formats/webm/webm_media_parser.cc] (module [WebM]),
    followed by the properties established about them.

    Conventions.  C++ [int], [size_t] and [int64] values are integers of [Z];
    the buffers handled here are far below 2^31 bytes, so no wrap-around is
    modelled.  A [const uint8*] into a buffer is a pair of the buffer and an
    offset.  The two callbacks of a parser are modelled by the ordered list of
    the calls made on them.  [DCHECK]s are debug-only assertions and compile
    to nothing in a release build: they are recorded in comments. *)

From Stdlib Require Import String.
From Stdlib Require Import ZArith List Bool Lia Sorted.
From Stdlib.Strings Require Import Byte.
Import ListNotations.
Local Open Scope Z_scope.

(** ** Bytes and the byte queue *)

Definition uint8 := Byte.byte.

(** The value of a byte, in 0..255. *)
Definition u8 (b : uint8) : Z := Z.of_N (Byte.to_N b).

(** [buf[i]].  Every read made by the code below is inside the buffer; the
    default only makes the function total. *)
Definition rd (buf : list uint8) (i : Z) : Z := u8 (nth (Z.to_nat i) buf x00).

Definition size_of (buf : list uint8) : Z := Z.of_nat (length buf).

(** Modelled from the spec: [ByteQueue] (media/base/byte_queue.h) is not among
    the sources.  Section 4.1 of the specification: [Push] appends, [Peek]
    returns the contiguous unconsumed region, [Pop n] discards its first [n]
    bytes, [Reset] discards everything. *)
Module ByteQueue.

Definition t := list uint8.
Definition empty : t := [].
Definition Push (q : t) (buf : list uint8) : t := q ++ buf.
Definition Peek (q : t) : list uint8 * Z := (q, size_of q).
Definition Pop (q : t) (n : Z) : t := skipn (Z.to_nat n) q.
Definition Reset (q : t) : t := [].

End ByteQueue.

(** ** Constants of the ADTS format *)

(** Modelled from the spec: [media/formats/mpeg/adts_constants.h],
    [media/base/timestamp.h] and [mp2t_common.h] are not among the sources.
    The specification speaks of a fixed minimum header size, a fixed
    samples-per-frame constant and static frequency and channel tables; the
    values are those of ISO 14496-3 (the comment in [UpdateAudioConfiguration]
    fixes the table size: indices 13 and 14 are reserved, 15 is explicit). *)
Definition kAdtsHeaderMinSize : Z := 7.
Definition kSamplesPerAACFrame : Z := 1024.
Definition kAdtsFrequencyTable : list Z :=
  [96000; 88200; 64000; 48000; 44100; 32000; 24000; 22050; 16000; 12000;
   11025; 8000; 7350].
Definition kAdtsFrequencyTableSize : Z := 13.
Definition kAdtsNumChannelsTable : list Z := [0; 1; 2; 2; 4; 5; 6; 8].
Definition kAdtsNumChannelsTableSize : Z := 8.
Definition kMpeg2Timescale : Z := 90000.
Definition kNoTimestamp : Z := - 2 ^ 63.
Definition kInfiniteDuration : Z := 2 ^ 63 - 1.

Definition table_at (t : list Z) (i : Z) : Z := nth (Z.to_nat i) t 0.

(** ** Stream descriptions and samples *)

Inductive AudioCodec := kUnknownAudioCodec | kCodecAAC | kCodecOpus | kCodecVorbis.

Record AudioStreamInfo := {
  asi_track_id : Z;
  asi_time_scale : Z;
  asi_duration : Z;
  asi_codec : AudioCodec;
  asi_codec_string : string;
  asi_language : string;
  asi_sample_bits : Z;
  asi_num_channels : Z;
  asi_sampling_frequency : Z;
  asi_extra_data : list uint8;
  asi_is_encrypted : bool
}.

Record MediaSample := {
  ms_data : list uint8;
  ms_is_key_frame : bool;
  ms_pts : Z;
  ms_dts : Z;
  ms_duration : Z
}.

(** One call on one of the two callbacks of the elementary-stream parser:
    [new_audio_config_cb_] or [emit_sample_cb_]. *)
Inductive Emission :=
| ConfigurationReady (config : AudioStreamInfo)
| SampleReady (sample : MediaSample).

(** ** The timestamp helper *)

(** [AudioTimestampHelper] (media/base/audio_timestamp_helper.h) is not among
    the sources; the parser uses it through its constructor and four
    methods.  The parser is embedded over any implementation of them. *)
Class AudioTimestampHelper (H : Type) := {
  NewHelper : Z -> Z -> H;          (* timescale, samples_per_second *)
  SetBaseTimestamp : Z -> H -> H;
  GetTimestamp : H -> Z;
  AddFrames : Z -> H -> H;
  GetFrameDuration : Z -> H -> Z
}.

(** Modelled from the spec: a timestamp helper that "converts a frame count
    into a timeline position given a fixed sample rate/timescale and a
    settable base offset", with exact integer arithmetic.  It serves the
    concrete examples only. *)
Record TickHelper := {
  th_timescale : Z;
  th_samples_per_second : Z;
  th_base_timestamp : Z;
  th_frame_count : Z
}.

Definition th_compute (h : TickHelper) (frame_count : Z) : Z :=
  th_base_timestamp h + frame_count * th_timescale h / th_samples_per_second h.

#[export] Instance TickHelperOps : AudioTimestampHelper TickHelper := {
  NewHelper ts sps :=
    {| th_timescale := ts; th_samples_per_second := sps;
       th_base_timestamp := kNoTimestamp; th_frame_count := 0 |};
  SetBaseTimestamp b h :=
    {| th_timescale := th_timescale h;
       th_samples_per_second := th_samples_per_second h;
       th_base_timestamp := b; th_frame_count := 0 |};
  GetTimestamp h := th_compute h (th_frame_count h);
  AddFrames n h :=
    {| th_timescale := th_timescale h;
       th_samples_per_second := th_samples_per_second h;
       th_base_timestamp := th_base_timestamp h;
       th_frame_count := th_frame_count h + n |};
  GetFrameDuration n h :=
    th_compute h (th_frame_count h + n) - th_compute h (th_frame_count h)
}.

(** ** The ADTS elementary-stream parser *)

Module Adts.

(** *** Header fields and the sync-word search *)

Definition ExtractAdtsFrameSize (buf : list uint8) (hdr : Z) : Z :=
  Z.lor (Z.lor (Z.shiftr (rd buf (hdr + 5)) 5)
               (Z.shiftl (rd buf (hdr + 4)) 3))
        (Z.shiftl (Z.land (rd buf (hdr + 3)) 3) 11).

Definition ExtractAdtsFrequencyIndex (buf : list uint8) (hdr : Z) : Z :=
  Z.land (Z.shiftr (rd buf (hdr + 2)) 2) 15.

Definition ExtractAdtsChannelConfig (buf : list uint8) (hdr : Z) : Z :=
  Z.lor (Z.land (Z.shiftr (rd buf (hdr + 3)) 6) 3)
        (Z.shiftl (Z.land (rd buf (hdr + 2)) 1) 2).

Definition isAdtsSyncWord (buf : list uint8) (at_ : Z) : bool :=
  (rd buf at_ =? 255) && (Z.land (rd buf (at_ + 1)) 246 =? 240).

(** The body of the [for] loop of [LookForSyncWord] at one [offset]: the
    frame size when the loop returns there, [None] when it [continue]s. *)
Definition SyncWordAt (raw_es : list uint8) (raw_es_size offset : Z)
  : option Z :=
  if negb (isAdtsSyncWord raw_es offset) then None
  else
    let frame_size := ExtractAdtsFrameSize raw_es offset in
    if frame_size <? kAdtsHeaderMinSize then None
    else
      let remaining_size := raw_es_size - offset in
      if (remaining_size >=? frame_size + 2)
         && negb (isAdtsSyncWord raw_es (offset + frame_size))
      then None
      else Some frame_size.

(** [for (offset = ...; offset < max_offset; offset++)], with [n] the number
    of iterations left. *)
Fixpoint ScanSyncWord (n : nat) (raw_es : list uint8) (raw_es_size offset : Z)
  : option (Z * Z) :=
  match n with
  | O => None
  | S n' =>
      match SyncWordAt raw_es raw_es_size offset with
      | Some frame_size => Some (offset, frame_size)
      | None => ScanSyncWord n' raw_es raw_es_size (offset + 1)
      end
  end.

(** The result of [LookForSyncWord]: the returned flag with [*new_pos], and
    [*frame_sz], which is written only when a sync word is found. *)
Inductive SyncWord :=
| SyncWordFound (new_pos frame_sz : Z)
| SyncWordNotFound (new_pos : Z).

Definition LookForSyncWord (raw_es : list uint8) (raw_es_size pos : Z)
  : SyncWord :=
  (* DCHECK_GE(pos, 0); DCHECK_LE(pos, raw_es_size); *)
  let max_offset := raw_es_size - kAdtsHeaderMinSize in
  if pos >=? max_offset then SyncWordNotFound pos
  else
    match ScanSyncWord (Z.to_nat (max_offset - pos)) raw_es raw_es_size pos with
    | Some (offset, frame_size) => SyncWordFound offset frame_size
    | None => SyncWordNotFound max_offset
    end.

(** *** The parser object *)

Section Parser.

Context {H : Type} {HelperOps : AudioTimestampHelper H}.

(** [EsPts]: a position in the ES queue and the pts that applies to the access
    unit that comes just after it. *)
Definition EsPts : Type := Z * Z.

Record EsParserAdts := {
  track_id : Z;
  sbr_in_mimetype_ : bool;
  es_byte_queue_ : ByteQueue.t;
  pts_list_ : list EsPts;
  last_audio_decoder_config_ : option AudioStreamInfo;
  audio_timestamp_helper_ : option H
}.

(** The constructor: empty queue and list, null configuration and helper. *)
Definition NewEsParserAdts (track : Z) (sbr_in_mimetype : bool) : EsParserAdts :=
  {| track_id := track;
     sbr_in_mimetype_ := sbr_in_mimetype;
     es_byte_queue_ := ByteQueue.empty;
     pts_list_ := [];
     last_audio_decoder_config_ := None;
     audio_timestamp_helper_ := None |}.

Definition with_queue (p : EsParserAdts) (q : ByteQueue.t) : EsParserAdts :=
  {| track_id := track_id p;
     sbr_in_mimetype_ := sbr_in_mimetype_ p;
     es_byte_queue_ := q;
     pts_list_ := pts_list_ p;
     last_audio_decoder_config_ := last_audio_decoder_config_ p;
     audio_timestamp_helper_ := audio_timestamp_helper_ p |}.

Definition with_pts_list (p : EsParserAdts) (l : list EsPts) : EsParserAdts :=
  {| track_id := track_id p;
     sbr_in_mimetype_ := sbr_in_mimetype_ p;
     es_byte_queue_ := es_byte_queue_ p;
     pts_list_ := l;
     last_audio_decoder_config_ := last_audio_decoder_config_ p;
     audio_timestamp_helper_ := audio_timestamp_helper_ p |}.

Definition with_config (p : EsParserAdts) (c : option AudioStreamInfo)
  : EsParserAdts :=
  {| track_id := track_id p;
     sbr_in_mimetype_ := sbr_in_mimetype_ p;
     es_byte_queue_ := es_byte_queue_ p;
     pts_list_ := pts_list_ p;
     last_audio_decoder_config_ := c;
     audio_timestamp_helper_ := audio_timestamp_helper_ p |}.

Definition with_helper (p : EsParserAdts) (h : option H) : EsParserAdts :=
  {| track_id := track_id p;
     sbr_in_mimetype_ := sbr_in_mimetype_ p;
     es_byte_queue_ := es_byte_queue_ p;
     pts_list_ := pts_list_ p;
     last_audio_decoder_config_ := last_audio_decoder_config_ p;
     audio_timestamp_helper_ := h |}.

(** The expression bound to [extended_samples_per_second] in
    [UpdateAudioConfiguration]. *)
Definition extended_rate (sbr_in_mimetype : bool) (samples_per_second : Z) : Z :=
  if sbr_in_mimetype then Z.min (2 * samples_per_second) 48000
  else samples_per_second.

(** [UpdateAudioConfiguration(adts_header)]: the returned flag, the parser
    afterwards and the calls made on [new_audio_config_cb_]. *)
Definition UpdateAudioConfiguration (p : EsParserAdts)
    (raw_es : list uint8) (adts_header : Z)
  : bool * EsParserAdts * list Emission :=
  match last_audio_decoder_config_ p with
  | Some _ =>
      (* Varying audio configurations currently not supported. *)
      (true, p, [])
  | None =>
      let frequency_index := ExtractAdtsFrequencyIndex raw_es adts_header in
      if frequency_index >=? kAdtsFrequencyTableSize then (false, p, [])
      else
        let channel_configuration :=
          ExtractAdtsChannelConfig raw_es adts_header in
        if (channel_configuration =? 0)
           || (channel_configuration >=? kAdtsNumChannelsTableSize)
        then (false, p, [])
        else
          let samples_per_second :=
            table_at kAdtsFrequencyTable frequency_index in
          let adts_profile := Z.land (Z.shiftr (rd raw_es (adts_header + 2)) 6) 3 in
          let extended_samples_per_second :=
            extended_rate (sbr_in_mimetype_ p) samples_per_second in
          let config :=
            {| asi_track_id := track_id p;
               asi_time_scale := kMpeg2Timescale;
               asi_duration := kInfiniteDuration;
               asi_codec := kCodecAAC;
               asi_codec_string := EmptyString;
               asi_language := EmptyString;
               asi_sample_bits := 16;
               asi_num_channels :=
                 table_at kAdtsNumChannelsTable channel_configuration;
               asi_sampling_frequency := samples_per_second;
               asi_extra_data := [];
               asi_is_encrypted := false |} in
          let helper :=
            match audio_timestamp_helper_ p with
            | Some old =>
                let base_timestamp := GetTimestamp old in
                SetBaseTimestamp base_timestamp
                  (NewHelper kMpeg2Timescale samples_per_second)
            | None => NewHelper kMpeg2Timescale samples_per_second
            end in
          (* [adts_profile] and [extended_samples_per_second] are written to
             the debug log (DVLOG) and not used otherwise. *)
          (true,
           with_helper (with_config p (Some config)) (Some helper),
           [ConfigurationReady config])
  end.

(** [while (!pts_list_.empty() && pts_list_.front().first <= es_position)]:
    the list and the helper after the loop. *)
Fixpoint ApplyPts (pts_list : list EsPts) (es_position : Z) (h : H)
  : list EsPts * H :=
  match pts_list with
  | [] => ([], h)
  | (first, second) :: rest =>
      if first <=? es_position
      then ApplyPts rest es_position (SetBaseTimestamp second h)
      else (pts_list, h)
  end.

(** The body of the [while] loop of [Parse] for a frame that is complete in
    the buffer, up to [emit_sample_cb_.Run] and [AddFrames].  [None]: the
    helper pointer is null where the code dereferences it. *)
Definition ParseFrame (p : EsParserAdts) (raw_es : list uint8)
    (es_position frame_size : Z)
  : option (bool * EsParserAdts * list Emission) :=
  (* DCHECK_GE(frame_size, kAdtsHeaderMinSize); *)
  match UpdateAudioConfiguration p raw_es es_position with
  | (false, p1, out) => Some (false, p1, out)
  | (true, p1, out) =>
      match audio_timestamp_helper_ p1 with
      | None => None
      | Some h =>
          let '(pts_list, h1) := ApplyPts (pts_list_ p1) es_position h in
          let current_pts := GetTimestamp h1 in
          let frame_duration := GetFrameDuration kSamplesPerAACFrame h1 in
          let sample :=
            {| ms_data :=
                 firstn (Z.to_nat frame_size)
                        (skipn (Z.to_nat es_position) raw_es);
               ms_is_key_frame := true;
               ms_pts := current_pts;
               ms_dts := current_pts;
               ms_duration := frame_duration |} in
          let h2 := AddFrames kSamplesPerAACFrame h1 in
          Some (true,
                with_helper (with_pts_list p1 pts_list) (Some h2),
                out ++ [SampleReady sample])
      end
  end.

(** How the [while] loop of [Parse] is left: by its condition or the [break]
    (then [es_position] is discarded), or by [return false]. *)
Inductive FramesResult :=
| FramesDone (es_position : Z) (p : EsParserAdts) (out : list Emission)
| FramesFailed (p : EsParserAdts) (out : list Emission).

(** The [while] loop of [Parse].  [out] collects the callback calls.  Every
    iteration that goes on moves [es_position] forward by a frame, so the
    iterations are counted by [fuel]; [None] when it runs out (it does not,
    see [ParseFrames_fuel]) or on a null helper. *)
Fixpoint ParseFrames (fuel : nat) (raw_es : list uint8)
    (raw_es_size es_position : Z) (p : EsParserAdts) (out : list Emission)
  : option FramesResult :=
  match fuel with
  | O => None
  | S fuel' =>
      match LookForSyncWord raw_es raw_es_size es_position with
      | SyncWordNotFound new_pos => Some (FramesDone new_pos p out)
      | SyncWordFound new_pos frame_size =>
          (* Do not process the frame if this one is a partial frame. *)
          let remaining_size := raw_es_size - new_pos in
          if frame_size >? remaining_size
          then Some (FramesDone new_pos p out)
          else
            match ParseFrame p raw_es new_pos frame_size with
            | None => None
            | Some (false, p1, out1) => Some (FramesFailed p1 (out ++ out1))
            | Some (true, p1, out1) =>
                ParseFrames fuel' raw_es raw_es_size (new_pos + frame_size)
                            p1 (out ++ out1)
            end
      end
  end.

Definition DiscardEs (p : EsParserAdts) (nbytes : Z) : EsParserAdts :=
  (* DCHECK_GE(nbytes, 0); *)
  if nbytes <=? 0 then p
  else
    with_queue
      (with_pts_list p
         (map (fun it : EsPts => (fst it - nbytes, snd it)) (pts_list_ p)))
      (ByteQueue.Pop (es_byte_queue_ p) nbytes).

(** [Parse(buf, size, pts, dts)]: the returned flag, the parser afterwards
    and the callback calls made, in order. *)
Definition Parse (p : EsParserAdts) (buf : list uint8) (pts dts : Z)
  : option (bool * EsParserAdts * list Emission) :=
  let p1 :=
    if negb (pts =? kNoTimestamp)
    then
      let '(_, raw_es_size) := ByteQueue.Peek (es_byte_queue_ p) in
      with_pts_list p (pts_list_ p ++ [(raw_es_size, pts)])
    else p in
  let p2 := with_queue p1 (ByteQueue.Push (es_byte_queue_ p1) buf) in
  let '(raw_es, raw_es_size) := ByteQueue.Peek (es_byte_queue_ p2) in
  match ParseFrames (S (length raw_es)) raw_es raw_es_size 0 p2 [] with
  | None => None
  | Some (FramesFailed p3 out) => Some (false, p3, out)
  | Some (FramesDone es_position p3 out) =>
      Some (true, DiscardEs p3 es_position, out)
  end.

Definition Flush (p : EsParserAdts) : EsParserAdts := p.

Definition Reset (p : EsParserAdts) : EsParserAdts :=
  with_config
    (with_pts_list (with_queue p (ByteQueue.Reset (es_byte_queue_ p))) [])
    None.

(** *** Sequences of calls *)

Inductive Call :=
| CallParse (buf : list uint8) (pts dts : Z)
| CallFlush
| CallReset.

(** The parser after a sequence of calls, with the flag returned by every
    [Parse] and all the callback calls, in order.  A [Parse] that returns
    false does not stop the sequence: the caller may go on. *)
Fixpoint Run (calls : list Call) (p : EsParserAdts)
  : option (EsParserAdts * list bool * list Emission) :=
  match calls with
  | [] => Some (p, [], [])
  | CallParse buf pts dts :: rest =>
      match Parse p buf pts dts with
      | None => None
      | Some (ok, p1, out) =>
          match Run rest p1 with
          | None => None
          | Some (p2, oks, out2) => Some (p2, ok :: oks, out ++ out2)
          end
      end
  | CallFlush :: rest => Run rest (Flush p)
  | CallReset :: rest => Run rest (Reset p)
  end.

(** *** Notions used to state the properties *)

(** A parser that has a configuration has a timestamp helper. *)
Definition helper_ok (p : EsParserAdts) : Prop :=
  last_audio_decoder_config_ p <> None -> audio_timestamp_helper_ p <> None.

(** [SetBaseTimestamp] with the value of a pending timestamp. *)
Definition set_base (h : H) (e : EsPts) : H := SetBaseTimestamp (snd e) h.

Definition pts_le (a b : EsPts) : Prop := fst a <= fst b.

(** The recorded positions are in arrival order and none lies beyond the end
    of the queue. *)
Definition pts_ok (p : EsParserAdts) : Prop :=
  StronglySorted pts_le (pts_list_ p)
  /\ Forall (fun e : EsPts => fst e <= size_of (es_byte_queue_ p)) (pts_list_ p).

(** The parsers that a sequence of calls on a new parser leads to. *)
Definition Reachable (p : EsParserAdts) : Prop :=
  exists track sbr calls oks out,
    Run calls (NewEsParserAdts track sbr) = Some (p, oks, out).

(** The entry that [Parse] queues for its [pts] argument. *)
Definition pushed_pts (p : EsParserAdts) (pts : Z) : list EsPts :=
  if pts =? kNoTimestamp then [] else [(size_of (es_byte_queue_ p), pts)].

(** The parser when the loop of [Parse] starts: the timestamp is queued and
    the input appended. *)
Definition Parse_start (p : EsParserAdts) (buf : list uint8) (pts : Z)
  : EsParserAdts :=
  with_queue (with_pts_list p (pts_list_ p ++ pushed_pts p pts))
             (es_byte_queue_ p ++ buf).

(** The header at [adts_header] is one that [UpdateAudioConfiguration]
    refuses when no configuration is set. *)
Definition invalid_config (raw_es : list uint8) (adts_header : Z) : bool :=
  (ExtractAdtsFrequencyIndex raw_es adts_header >=? kAdtsFrequencyTableSize)
  || (ExtractAdtsChannelConfig raw_es adts_header =? 0)
  || (ExtractAdtsChannelConfig raw_es adts_header >=? kAdtsNumChannelsTableSize).

(** The first iteration of the loop of [Parse] on [raw_es] meets a frame that
    is complete in the buffer and whose header is refused. *)
Definition first_frame_invalid (raw_es : list uint8) : bool :=
  match LookForSyncWord raw_es (size_of raw_es) 0 with
  | SyncWordFound new_pos frame_sz =>
      (frame_sz <=? size_of raw_es - new_pos) && invalid_config raw_es new_pos
  | SyncWordNotFound _ => false
  end.

(** The number of configurations that the parser may still create before
    the next [Reset]. *)
Definition configurations_left (p : EsParserAdts) : nat :=
  match last_audio_decoder_config_ p with Some _ => 0 | None => 1 end.

Definition is_Reset (c : Call) : bool :=
  match c with CallReset => true | _ => false end.

(** Two parsers that differ at most in their timestamp helper. *)
Definition same_but_helper (p q : EsParserAdts) : Prop :=
  track_id p = track_id q
  /\ sbr_in_mimetype_ p = sbr_in_mimetype_ q
  /\ es_byte_queue_ p = es_byte_queue_ q
  /\ pts_list_ p = pts_list_ q
  /\ last_audio_decoder_config_ p = last_audio_decoder_config_ q.

(** Two such parsers without configuration whose first pending timestamp is
    recorded at or before the start of the queue: it will be the base of the
    first sample. *)
Definition rebased_before_first_sample (p q : EsParserAdts) : Prop :=
  same_but_helper p q
  /\ last_audio_decoder_config_ p = None
  /\ match pts_list_ p with
     | e :: _ => fst e <= 0
     | [] => False
     end.

(** Setting the base of a helper overrides the base set before. *)
Definition base_overrides : Prop :=
  forall (b b' : Z) (h : H),
    SetBaseTimestamp b (SetBaseTimestamp b' h) = SetBaseTimestamp b h.

(** The helper that [UpdateAudioConfiguration] creates. *)
Definition recreated_helper (old : option H) (samples_per_second : Z) : H :=
  match old with
  | Some old =>
      SetBaseTimestamp (GetTimestamp old)
        (NewHelper kMpeg2Timescale samples_per_second)
  | None => NewHelper kMpeg2Timescale samples_per_second
  end.

(** The sample that the loop of [Parse] emits for a frame, [h1] being the
    helper once the pending timestamps are applied. *)
Definition sample_at (raw : list uint8) (es_position frame_size : Z) (h1 : H)
  : MediaSample :=
  {| ms_data := firstn (Z.to_nat frame_size) (skipn (Z.to_nat es_position) raw);
     ms_is_key_frame := true;
     ms_pts := GetTimestamp h1;
     ms_dts := GetTimestamp h1;
     ms_duration := GetFrameDuration kSamplesPerAACFrame h1 |}.

(** The complete frames that the loop of [Parse] goes through from [pos],
    each with its start offset and its size: the successive answers of
    [LookForSyncWord], each search resuming behind the frame found before,
    up to the first frame that is partial.  This is the loop without what
    its body does to the configuration and the timestamps. *)
Fixpoint FramesFound (fuel : nat) (raw_es : list uint8) (raw_es_size pos : Z)
  : list (Z * Z) :=
  match fuel with
  | O => []
  | S fuel' =>
      match LookForSyncWord raw_es raw_es_size pos with
      | SyncWordNotFound _ => []
      | SyncWordFound new_pos frame_size =>
          if frame_size >? raw_es_size - new_pos then []
          else (new_pos, frame_size)
                 :: FramesFound fuel' raw_es raw_es_size (new_pos + frame_size)
      end
  end.

(** The pending timestamps recorded at or before [start], and the others. *)
Definition applicable (start : Z) (pending : list EsPts) : list EsPts :=
  filter (fun e : EsPts => fst e <=? start) pending.

Definition still_pending (start : Z) (pending : list EsPts) : list EsPts :=
  filter (fun e : EsPts => negb (fst e <=? start)) pending.

(** The timing of a sequence of frames as the specification words it, to be
    compared with what [Parse] does: for every frame, in order, every pending
    timestamp recorded at or before the start of the frame is removed, each
    one removed is set as the base of the timeline in the order of the list
    (so that the last one removed is the base that stays), the frame is timed
    from the helper so based, and the helper is advanced by one frame.  The
    result is every frame with the helper that times it, the timestamps still
    pending and the helper after the last frame. *)
Fixpoint timed_frames (frames : list (Z * Z)) (pending : list EsPts) (h : H)
  : list (Z * Z * H) * list EsPts * H :=
  match frames with
  | [] => ([], pending, h)
  | (start, frame_size) :: rest =>
      let h1 := fold_left set_base (applicable start pending) h in
      match timed_frames rest (still_pending start pending)
                         (AddFrames kSamplesPerAACFrame h1) with
      | (timed, rest_pending, h') =>
          ((start, frame_size, h1) :: timed, rest_pending, h')
      end
  end.

(** The callback call for a frame timed by [timed_frames]. *)
Definition timed_sample (raw : list uint8) (t : Z * Z * H) : Emission :=
  SampleReady (sample_at raw (fst (fst t)) (snd (fst t)) (snd t)).

(** The first call is a [Parse] that supplies a pts. *)
Definition first_has_pts (calls : list Call) : bool :=
  match calls with
  | CallParse _ pts _ :: _ => negb (pts =? kNoTimestamp)
  | _ => false
  end.

Definition no_Reset (calls : list Call) : bool :=
  forallb (fun c => negb (is_Reset c)) calls.

(** The pending timestamps as [DiscardEs] leaves them. *)
Definition shift_pts (n : Z) (l : list EsPts) : list EsPts :=
  map (fun it : EsPts => (fst it - n, snd it)) l.

(** The parser seen from [n] bytes further in the stream, with queue [q]. *)
Definition rebase (n : Z) (q : ByteQueue.t) (p : EsParserAdts) : EsParserAdts :=
  with_queue (with_pts_list p (shift_pts n (pts_list_ p))) q.

Definition FramesResult_map (f : EsParserAdts -> EsParserAdts) (g : Z -> Z)
    (r : FramesResult) : FramesResult :=
  match r with
  | FramesDone e p out => FramesDone (g e) (f p) out
  | FramesFailed p out => FramesFailed (f p) out
  end.

(** [out] put before what a loop has emitted. *)
Definition FramesResult_emitted_after (out : list Emission) (r : FramesResult)
  : FramesResult :=
  match r with
  | FramesDone e p o => FramesDone e p (out ++ o)
  | FramesFailed p o => FramesFailed p (out ++ o)
  end.

(** The configuration that [UpdateAudioConfiguration] builds. *)
Definition config_of (track frequency_index channel_configuration : Z)
  : AudioStreamInfo :=
  {| asi_track_id := track;
     asi_time_scale := kMpeg2Timescale;
     asi_duration := kInfiniteDuration;
     asi_codec := kCodecAAC;
     asi_codec_string := EmptyString;
     asi_language := EmptyString;
     asi_sample_bits := 16;
     asi_num_channels := table_at kAdtsNumChannelsTable channel_configuration;
     asi_sampling_frequency := table_at kAdtsFrequencyTable frequency_index;
     asi_extra_data := [];
     asi_is_encrypted := false |}.

(** [Parse] calls only. *)
Definition ParseCalls (feeds : list (list uint8 * Z * Z)) : list Call :=
  map (fun f => CallParse (fst (fst f)) (snd (fst f)) (snd f)) feeds.

(** A byte sequence given in consecutive pieces, the timestamp going with the
    first piece. *)
Definition ParseChunks (first : list uint8) (more : list (list uint8))
    (pts dts : Z) : list Call :=
  CallParse first pts dts
  :: map (fun c => CallParse c kNoTimestamp kNoTimestamp) more.

End Parser.

Arguments EsParserAdts H : clear implicits.
Arguments FramesResult H : clear implicits.
Arguments Call : clear implicits.

Definition is_config (e : Emission) : bool :=
  match e with ConfigurationReady _ => true | SampleReady _ => false end.

(** The number of calls on [new_audio_config_cb_]. *)
Definition configurations (out : list Emission) : nat :=
  length (filter is_config out).

(** An emission without its timing: the configuration, or the bytes of the
    sample. *)
Definition untimed (e : Emission) : Emission :=
  match e with
  | ConfigurationReady c => ConfigurationReady c
  | SampleReady m =>
      SampleReady {| ms_data := ms_data m;
                     ms_is_key_frame := ms_is_key_frame m;
                     ms_pts := 0; ms_dts := 0; ms_duration := 0 |}
  end.

(** The pts of the samples emitted, in order. *)
Definition emitted_pts (out : list Emission) : list Z :=
  flat_map (fun e => match e with
                     | SampleReady m => [ms_pts m]
                     | ConfigurationReady _ => []
                     end) out.

(** A complete ADTS frame: it starts with a sync word and its header
    declares its length, which is at least that of a header. *)
Definition is_adts_frame (f : list uint8) : bool :=
  isAdtsSyncWord f 0
  && (ExtractAdtsFrameSize f 0 =? size_of f)
  && (kAdtsHeaderMinSize <=? size_of f).

(** From [pos] to its end, the buffer is a sequence of complete ADTS frames. *)
Inductive framed (stream : list uint8) : Z -> Prop :=
| framed_end : framed stream (size_of stream)
| framed_frame (pos : Z) :
    0 <= pos ->
    isAdtsSyncWord stream pos = true ->
    kAdtsHeaderMinSize <= ExtractAdtsFrameSize stream pos ->
    pos + ExtractAdtsFrameSize stream pos <= size_of stream ->
    framed stream (pos + ExtractAdtsFrameSize stream pos) ->
    framed stream pos.

(** *** Concrete inputs of the examples *)

(** Frames of 7, 8 and 9 bytes: MPEG-4, AAC LC, 44100 Hz (index 4), two
    channels. *)
Definition frame7 : list uint8 := [xff; xf1; x50; x80; x00; xff; xfc].
Definition frame8 : list uint8 := [xff; xf1; x50; x80; x01; x1f; xfc; x21].
Definition frame9 : list uint8 := [xff; xf1; x50; x80; x01; x3f; xfc; x21; x10].

(** A frame of 8 bytes with the reserved frequency index 13. *)
Definition frame8_reserved : list uint8 :=
  [xff; xf1; x74; x80; x01; x1f; xfc; x21].

(** A new parser over the timestamp helper of the examples. *)
Definition example_parser (sbr_in_mimetype : bool) : EsParserAdts TickHelper :=
  NewEsParserAdts 1 sbr_in_mimetype.

(** *** Notions used for the further properties *)

(** What every sample handed to [emit_sample_cb_] looks like: a key frame
    with equal pts and dts whose bytes are one complete ADTS frame. *)
Definition sample_ok (e : Emission) : Prop :=
  match e with
  | ConfigurationReady _ => True
  | SampleReady m =>
      ms_is_key_frame m = true
      /\ ms_pts m = ms_dts m
      /\ is_adts_frame (ms_data m) = true
  end.

(** The bytes of the samples emitted, in order. *)
Definition payloads (out : list Emission) : list (list uint8) :=
  flat_map (fun e => match e with
                     | SampleReady m => [ms_data m]
                     | ConfigurationReady _ => []
                     end) out.

(** The callback calls start with the configuration, if there is any call. *)
Definition starts_with_configuration (out : list Emission) : Prop :=
  match out with
  | [] => True
  | e :: _ => is_config e = true
  end.

End Adts.

(** ** The WebM container walker *)

Module WebM.

Inductive State := kWaitingForInit | kParsingHeaders | kParsingClusters | kError.

Definition State_eqb (a b : State) : bool :=
  match a, b with
  | kWaitingForInit, kWaitingForInit
  | kParsingHeaders, kParsingHeaders
  | kParsingClusters, kParsingClusters
  | kError, kError => true
  | _, _ => false
  end.

(** Modelled from the spec: [webm_constants.h] is not among the sources.  The
    element ids named in [ParseInfoAndTracks] and the reserved "unknown size",
    with the values of the Matroska specification. *)
Definition kWebMIdEBMLHeader : Z := 0x1A45DFA3.
Definition kWebMIdSeekHead : Z := 0x114D9B74.
Definition kWebMIdVoid : Z := 0xEC.
Definition kWebMIdCRC32 : Z := 0xBF.
Definition kWebMIdCues : Z := 0x1C53BB6B.
Definition kWebMIdChapters : Z := 0x1043A770.
Definition kWebMIdTags : Z := 0x1254C367.
Definition kWebMIdAttachments : Z := 0x1941A469.
Definition kWebMIdCluster : Z := 0x1F43B675.
Definition kWebMIdSegment : Z := 0x18538067.
Definition kWebMIdInfo : Z := 0x1549A966.
Definition kWebMUnknownSize : Z := 0x00FFFFFFFFFFFFFF.

(** The element ids that [ParseInfoAndTracks] skips. *)
Definition is_skipped_id (id : Z) : bool :=
  (id =? kWebMIdEBMLHeader) || (id =? kWebMIdSeekHead) || (id =? kWebMIdVoid)
  || (id =? kWebMIdCRC32) || (id =? kWebMIdCues) || (id =? kWebMIdChapters)
  || (id =? kWebMIdTags) || (id =? kWebMIdAttachments).

(** The parsers called by the walker ([WebMParseElementHeader],
    [WebMInfoParser], [WebMTracksParser], [WebMClusterParser]) and the stream
    descriptions are not among the sources: the walker is embedded over any
    implementation of them.  A parser called on [(data, size)] returns its
    result (bytes consumed, 0 for "more data needed", negative for an error)
    with what it has read. *)
Class Collaborators := {
  StreamInfo : Type;
  Sample : Type;
  InfoParser : Type;
  TracksParser : Type;
  ClusterParser : Type;
  WebMParseElementHeader : list uint8 -> Z -> Z * Z * Z;  (* result, id, element_size *)
  InfoParser_Parse : list uint8 -> Z -> Z * InfoParser;
  TracksParser_Parse : bool -> list uint8 -> Z -> Z * TracksParser;
  (* [info_parser.duration() * (info_parser.timecode_scale() / 1000.0)],
     computed in floating point *)
  duration_in_us : InfoParser -> Z;
  audio_stream_info : TracksParser -> option StreamInfo;
  video_stream_info : TracksParser -> option StreamInfo;
  set_duration : Z -> StreamInfo -> StreamInfo;
  (* [new WebMClusterParser(...)] from what the two parsers have read *)
  NewClusterParser : InfoParser -> TracksParser -> ClusterParser;
  (* [cluster_parser_->Parse(data, size)]: result, parser afterwards and the
     samples given to [new_sample_cb_] *)
  ClusterParser_Parse : ClusterParser -> list uint8 -> Z
                        -> Z * ClusterParser * list Sample;
  cluster_ended : ClusterParser -> bool;
  ClusterParser_Flush : ClusterParser -> ClusterParser
}.

Section Walker.

Context {C : Collaborators}.

(** One call on [init_cb_] or [new_sample_cb_]. *)
Inductive Emission :=
| InitCB (streams : list StreamInfo)
| NewSampleCB (sample : Sample).

(** The callbacks and the key source stored by [Init] are not fields here:
    the calls made on the callbacks are returned as a list. *)
Record WebMMediaParser := {
  state_ : State;
  unknown_segment_size_ : bool;
  ignore_text_tracks_ : bool;
  byte_queue_ : ByteQueue.t;
  cluster_parser_ : option ClusterParser
}.

Definition NewWebMMediaParser : WebMMediaParser :=
  {| state_ := kWaitingForInit;
     unknown_segment_size_ := false;
     ignore_text_tracks_ := false;
     byte_queue_ := ByteQueue.empty;
     cluster_parser_ := None |}.

Definition ChangeState (s : WebMMediaParser) (new_state : State)
  : WebMMediaParser :=
  {| state_ := new_state;
     unknown_segment_size_ := unknown_segment_size_ s;
     ignore_text_tracks_ := ignore_text_tracks_ s;
     byte_queue_ := byte_queue_ s;
     cluster_parser_ := cluster_parser_ s |}.

Definition with_byte_queue (s : WebMMediaParser) (q : ByteQueue.t)
  : WebMMediaParser :=
  {| state_ := state_ s;
     unknown_segment_size_ := unknown_segment_size_ s;
     ignore_text_tracks_ := ignore_text_tracks_ s;
     byte_queue_ := q;
     cluster_parser_ := cluster_parser_ s |}.

Definition with_cluster_parser (s : WebMMediaParser) (c : option ClusterParser)
  : WebMMediaParser :=
  {| state_ := state_ s;
     unknown_segment_size_ := unknown_segment_size_ s;
     ignore_text_tracks_ := ignore_text_tracks_ s;
     byte_queue_ := byte_queue_ s;
     cluster_parser_ := c |}.

Definition with_unknown_segment_size (s : WebMMediaParser) (b : bool)
  : WebMMediaParser :=
  {| state_ := state_ s;
     unknown_segment_size_ := b;
     ignore_text_tracks_ := ignore_text_tracks_ s;
     byte_queue_ := byte_queue_ s;
     cluster_parser_ := cluster_parser_ s |}.

Definition Init (s : WebMMediaParser) : WebMMediaParser :=
  (* DCHECK_EQ(state_, kWaitingForInit); DCHECK(init_cb_.is_null());
     DCHECK(!init_cb.is_null()); DCHECK(!new_sample_cb.is_null()); *)
  let s1 := ChangeState s kParsingHeaders in
  {| state_ := state_ s1;
     unknown_segment_size_ := unknown_segment_size_ s1;
     ignore_text_tracks_ := true;
     byte_queue_ := byte_queue_ s1;
     cluster_parser_ := cluster_parser_ s1 |}.

Definition Flush (s : WebMMediaParser) : WebMMediaParser :=
  (* DCHECK_NE(state_, kWaitingForInit); *)
  let s1 := with_byte_queue s (ByteQueue.Reset (byte_queue_ s)) in
  let s2 :=
    match cluster_parser_ s1 with
    | Some c => with_cluster_parser s1 (Some (ClusterParser_Flush c))
    | None => s1
    end in
  if State_eqb (state_ s2) kParsingClusters
  then ChangeState s2 kParsingHeaders
  else s2.

(** The streams handed to [init_cb_]: the audio then the video stream, where
    present, with their duration set. *)
Definition streams_of (info_parser : InfoParser) (tracks_parser : TracksParser)
  : list StreamInfo :=
  let d := duration_in_us info_parser in
  (match audio_stream_info tracks_parser with
   | Some a => [set_duration d a]
   | None => []
   end)
  ++
  (match video_stream_info tracks_parser with
   | Some v => [set_duration d v]
   | None => []
   end).

(** [ParseInfoAndTracks(data, size)]: the result, the walker afterwards and
    the calls made on [init_cb_]. *)
Definition ParseInfoAndTracks (s : WebMMediaParser) (data : list uint8) (size : Z)
  : Z * WebMMediaParser * list Emission :=
  (* DCHECK(data); DCHECK_GT(size, 0); *)
  let cur := data in
  let cur_size := size in
  let '(result, id, element_size) := WebMParseElementHeader cur cur_size in
  if result <=? 0 then (result, s, [])
  else if is_skipped_id id then
    if cur_size <? result + element_size
    then (0, s, [])                       (* the whole element is not there *)
    else (result + element_size, s, [])   (* skip the element *)
  else if id =? kWebMIdCluster then
    match cluster_parser_ s with
    | None => (-1, s, [])                 (* Found Cluster element before Info. *)
    | Some _ => (0, ChangeState s kParsingClusters, [])
    end
  else if id =? kWebMIdSegment then
    let s1 :=
      if element_size =? kWebMUnknownSize
      then with_unknown_segment_size s true
      else s in
    (result, s1, [])                      (* just consume the segment header *)
  else if id =? kWebMIdInfo then
    let '(result, info_parser) := InfoParser_Parse cur cur_size in
    if result <=? 0 then (result, s, [])
    else
      let cur := skipn (Z.to_nat result) cur in
      let cur_size := cur_size - result in
      let bytes_parsed := 0 + result in
      let '(result, tracks_parser) :=
        TracksParser_Parse (ignore_text_tracks_ s) cur cur_size in
      if result <=? 0 then (result, s, [])
      else
        let bytes_parsed := bytes_parsed + result in
        (* an encrypted stream only logs NOTIMPLEMENTED
           ([OnEncryptedMediaInitData]) *)
        (bytes_parsed,
         with_cluster_parser s
           (Some (NewClusterParser info_parser tracks_parser)),
         [InitCB (streams_of info_parser tracks_parser)])
  else (-1, s, []).                       (* Unexpected element ID *)

(** [ParseCluster(data, size)]. *)
Definition ParseCluster (s : WebMMediaParser) (data : list uint8) (size : Z)
  : Z * WebMMediaParser * list Emission :=
  match cluster_parser_ s with
  | None => (-1, s, [])
  | Some c =>
      let '(bytes_parsed, c1, samples) := ClusterParser_Parse c data size in
      let s1 := with_cluster_parser s (Some c1) in
      let out := map NewSampleCB samples in
      if bytes_parsed <? 0 then (bytes_parsed, s1, out)
      else
        if cluster_ended c1
        then (bytes_parsed, ChangeState s1 kParsingHeaders, out)
        else (bytes_parsed, s1, out)
  end.

(** The [while (cur_size > 0)] loop of [Parse] and what follows it.  [cur] is
    the queue from [bytes_parsed] on.  Nothing bounds the number of iterations
    for arbitrary collaborators (a cluster parser may end a cluster without
    consuming a byte), so they are counted by [fuel]: [None] when it runs
    out. *)
Fixpoint ParseLoop (fuel : nat) (s : WebMMediaParser) (cur_size bytes_parsed : Z)
    (out : list Emission)
  : option (bool * WebMMediaParser * list Emission) :=
  if cur_size >? 0 then
    match fuel with
    | O => None
    | S fuel' =>
        let cur := skipn (Z.to_nat bytes_parsed) (byte_queue_ s) in
        let oldState := state_ s in
        match state_ s with
        | kWaitingForInit | kError => Some (false, s, out)
        | kParsingHeaders | kParsingClusters =>
            let '(result, s1, out1) :=
              match state_ s with
              | kParsingClusters => ParseCluster s cur cur_size
              | _ => ParseInfoAndTracks s cur cur_size
              end in
            if result <? 0
            then Some (false, ChangeState s1 kError, out ++ out1)
            else if State_eqb (state_ s1) oldState && (result =? 0)
            then Some (true,
                       with_byte_queue s1
                         (ByteQueue.Pop (byte_queue_ s1) bytes_parsed),
                       out ++ out1)
            else ParseLoop fuel' s1 (cur_size - result) (bytes_parsed + result)
                           (out ++ out1)
        end
    end
  else
    Some (true,
          with_byte_queue s (ByteQueue.Pop (byte_queue_ s) bytes_parsed),
          out).

(** [Parse(buf, size)]: the returned flag, the walker afterwards and the
    callback calls made. *)
Definition Parse (fuel : nat) (s : WebMMediaParser) (buf : list uint8)
  : option (bool * WebMMediaParser * list Emission) :=
  (* DCHECK_NE(state_, kWaitingForInit); *)
  if State_eqb (state_ s) kError then Some (false, s, [])
  else
    let s1 := with_byte_queue s (ByteQueue.Push (byte_queue_ s) buf) in
    let '(_, cur_size) := ByteQueue.Peek (byte_queue_ s1) in
    ParseLoop fuel s1 cur_size 0 [].

(** *** Sequences of calls *)

Inductive Call :=
| CallParse (buf : list uint8)
| CallFlush.

(** The walker after a sequence of [Parse] and [Flush] calls, with the flag
    returned by every [Parse].  Every [Parse] gets [fuel] iterations. *)
Fixpoint Run (fuel : nat) (calls : list Call) (s : WebMMediaParser)
  : option (WebMMediaParser * list bool * list Emission) :=
  match calls with
  | [] => Some (s, [], [])
  | CallParse buf :: rest =>
      match Parse fuel s buf with
      | None => None
      | Some (ok, s1, out) =>
          match Run fuel rest s1 with
          | None => None
          | Some (s2, oks, out2) => Some (s2, ok :: oks, out ++ out2)
          end
      end
  | CallFlush :: rest => Run fuel rest (Flush s)
  end.

(** *** Notions used for the further properties *)

(** What holds of the walker from [Init] on: it is not waiting for [Init],
    and it parses clusters only with a cluster parser. *)
Definition ready (s : WebMMediaParser) : Prop :=
  state_ s <> kWaitingForInit
  /\ (state_ s = kParsingClusters -> cluster_parser_ s <> None).

(** The callback calls do not start with a sample. *)
Definition starts_with_init (out : list Emission) : Prop :=
  match out with
  | NewSampleCB _ :: _ => False
  | _ => True
  end.

(** The call made by one turn of the loop of [Parse], in [kParsingHeaders]
    or [kParsingClusters]. *)
Definition turn (s : WebMMediaParser) (cur : list uint8) (cur_size : Z)
  : Z * WebMMediaParser * list Emission :=
  match state_ s with
  | kParsingClusters => ParseCluster s cur cur_size
  | _ => ParseInfoAndTracks s cur cur_size
  end.

(** What the loop of [Parse], entered at [bytes_parsed] with the calls [out]
    made, keeps up to its return of [ok] with the walker [s'] and the calls
    [out']. *)
Definition loop_keeps (s : WebMMediaParser) (bytes_parsed : Z)
    (out : list Emission) (ok : bool) (s' : WebMMediaParser)
    (out' : list Emission) : Prop :=
  (if ok
   then exists n, bytes_parsed <= n
                  /\ byte_queue_ s' = skipn (Z.to_nat n) (byte_queue_ s)
   else byte_queue_ s' = byte_queue_ s)
  /\ ignore_text_tracks_ s' = ignore_text_tracks_ s
  /\ (unknown_segment_size_ s = true -> unknown_segment_size_ s' = true)
  /\ (ready s -> ready s')
  /\ exists o,
      out' = out ++ o
      /\ (cluster_parser_ s = None ->
          starts_with_init o /\ (o = [] -> cluster_parser_ s' = None)).

(** The cluster parser does not end a cluster in a call that consumes
    nothing. *)
Definition cluster_parser_consumes : Prop :=
  forall c data size,
    let '(result, c1, _) := ClusterParser_Parse c data size in
    result = 0 -> cluster_ended c1 = false.

End Walker.

(** A small collaborator set for the concrete examples: an element header is
    a four-byte big-endian id followed by a one-byte size; the info and tracks
    elements are read as bare headers; a cluster parser consumes everything
    and never ends its cluster. *)
#[export] Instance ExampleCollaborators : Collaborators := {
  StreamInfo := unit;
  Sample := unit;
  InfoParser := unit;
  TracksParser := unit;
  ClusterParser := unit;
  WebMParseElementHeader cur size :=
    if size <? 5 then (0, 0, 0)
    else (5,
          rd cur 0 * 16777216 + rd cur 1 * 65536 + rd cur 2 * 256 + rd cur 3,
          rd cur 4);
  InfoParser_Parse cur size := (if size <? 5 then 0 else 5, tt);
  TracksParser_Parse _ cur size := (if size <? 5 then 0 else 5, tt);
  duration_in_us _ := 0;
  audio_stream_info _ := Some tt;
  video_stream_info _ := None;
  set_duration _ x := x;
  NewClusterParser _ _ := tt;
  ClusterParser_Parse c cur size := (size, c, []);
  cluster_ended _ := false;
  ClusterParser_Flush c := c
}.

(** The walker of the examples, after [Init]. *)
Definition started : WebMMediaParser := Init NewWebMMediaParser.

(** The walker of the examples after a cluster element met before any info
    and tracks. *)
Definition failed : WebMMediaParser :=
  ChangeState
    (with_byte_queue started [x1f; x43; xb6; x75; x00]) kError.

End WebM.

(** * Properties of the elementary-stream parser *)

Module AdtsProps.
Import Adts.

(** ** Reading bytes *)

Lemma size_of_nonneg (buf : list uint8) : 0 <= size_of buf.
Proof. unfold size_of. lia. Qed.

Lemma size_of_app (a b : list uint8) : size_of (a ++ b) = size_of a + size_of b.
Proof. unfold size_of. rewrite length_app. lia. Qed.

Lemma size_of_skipn (n : Z) (buf : list uint8) :
  0 <= n <= size_of buf -> size_of (skipn (Z.to_nat n) buf) = size_of buf - n.
Proof. unfold size_of. intros. rewrite length_skipn. lia. Qed.

Lemma size_of_firstn (n : Z) (buf : list uint8) :
  0 <= n <= size_of buf -> size_of (firstn (Z.to_nat n) buf) = n.
Proof. unfold size_of. intros. rewrite length_firstn. lia. Qed.

Lemma rd_skipn (e i : Z) (buf : list uint8) :
  0 <= e -> 0 <= i -> rd (skipn (Z.to_nat e) buf) i = rd buf (e + i).
Proof.
  intros. unfold rd. rewrite nth_skipn. do 2 f_equal. lia.
Qed.

Lemma rd_firstn (k i : Z) (buf : list uint8) :
  0 <= i < k -> rd (firstn (Z.to_nat k) buf) i = rd buf i.
Proof.
  intros. unfold rd. rewrite nth_firstn.
  destruct (Nat.ltb_spec (Z.to_nat i) (Z.to_nat k)); [reflexivity|lia].
Qed.

Lemma rd_app_l (a b : list uint8) (i : Z) :
  0 <= i < size_of a -> rd (a ++ b) i = rd a i.
Proof.
  unfold size_of, rd. intros. rewrite app_nth1 by lia. reflexivity.
Qed.

(** ** The sync-word search *)

Lemma ScanSyncWord_Some (n : nat) raw size :
  forall offset o fs,
    ScanSyncWord n raw size offset = Some (o, fs) ->
    offset <= o < offset + Z.of_nat n
    /\ SyncWordAt raw size o = Some fs
    /\ forall o', offset <= o' < o -> SyncWordAt raw size o' = None.
Proof.
  induction n as [|n IH]; intros offset o fs; cbn [ScanSyncWord];
    [discriminate|].
  destruct (SyncWordAt raw size offset) as [f|] eqn:E.
  - intros [= <- <-]. repeat split; auto; try lia; intros; lia.
  - intros R. destruct (IH _ _ _ R) as (B & A & N).
    split; [lia|]. split; [exact A|].
    intros o' Ho'. destruct (Z.eq_dec o' offset) as [->|]; [exact E|].
    apply N. lia.
Qed.

Lemma ScanSyncWord_None (n : nat) raw size :
  forall offset,
    ScanSyncWord n raw size offset = None ->
    forall o', offset <= o' < offset + Z.of_nat n -> SyncWordAt raw size o' = None.
Proof.
  induction n as [|n IH]; intros offset; cbn [ScanSyncWord].
  - intros _ o' Ho'. lia.
  - destruct (SyncWordAt raw size offset) as [f|] eqn:E; [discriminate|].
    intros R o' Ho'. destruct (Z.eq_dec o' offset) as [->|]; [exact E|].
    apply (IH _ R). lia.
Qed.

Lemma SyncWordAt_frame_size raw size o fs :
  SyncWordAt raw size o = Some fs ->
  isAdtsSyncWord raw o = true
  /\ fs = ExtractAdtsFrameSize raw o
  /\ kAdtsHeaderMinSize <= fs
  /\ (fs + 2 <= size - o -> isAdtsSyncWord raw (o + fs) = true).
Proof.
  unfold SyncWordAt.
  destruct (isAdtsSyncWord raw o); cbn [negb]; [|discriminate].
  destruct (Z.ltb_spec (ExtractAdtsFrameSize raw o) kAdtsHeaderMinSize);
    [discriminate|].
  destruct (Z.geb_spec (size - o) (ExtractAdtsFrameSize raw o + 2));
    cbn [andb].
  - destruct (isAdtsSyncWord raw (o + ExtractAdtsFrameSize raw o)) eqn:E;
      cbn [negb]; [|discriminate].
    intros [= <-]. auto.
  - intros [= <-]. repeat split; auto. lia.
Qed.

(** What [LookForSyncWord] returns, in terms of the loop body. *)
Lemma LookForSyncWord_spec (raw : list uint8) (size pos : Z) :
  match LookForSyncWord raw size pos with
  | SyncWordFound new_pos frame_sz =>
      pos <= new_pos < size - kAdtsHeaderMinSize
      /\ SyncWordAt raw size new_pos = Some frame_sz
      /\ forall o, pos <= o < new_pos -> SyncWordAt raw size o = None
  | SyncWordNotFound new_pos =>
      new_pos = Z.max pos (size - kAdtsHeaderMinSize)
      /\ forall o, pos <= o < size - kAdtsHeaderMinSize ->
                   SyncWordAt raw size o = None
  end.
Proof.
  unfold LookForSyncWord.
  destruct (Z.geb_spec pos (size - kAdtsHeaderMinSize)).
  - split; [lia|]. intros; lia.
  - destruct (ScanSyncWord _ raw size pos) as [[o fs]|] eqn:E.
    + apply ScanSyncWord_Some in E. destruct E as (B & A & N).
      repeat split; auto; lia.
    + split; [lia|]. intros o Ho.
      apply (ScanSyncWord_None _ _ _ _ E). lia.
Qed.

Lemma LookForSyncWord_found raw size pos new_pos fs :
  LookForSyncWord raw size pos = SyncWordFound new_pos fs ->
  pos <= new_pos < size - kAdtsHeaderMinSize /\ kAdtsHeaderMinSize <= fs.
Proof.
  intros E. pose proof (LookForSyncWord_spec raw size pos) as S.
  rewrite E in S. destruct S as (B & A & _).
  apply SyncWordAt_frame_size in A. intuition.
Qed.

(** C4, as the code has it.  The search examines the offsets from [pos] up to,
    but not including, [raw_es_size - kAdtsHeaderMinSize]: a frame is found
    at the least such offset where the loop body accepts, and otherwise none
    of them is accepted and the position returned is the larger of [pos] and
    that bound.  In particular nothing is found at or after the bound. *)
Theorem LookForSyncWord_scans_below_max_offset (raw : list uint8) (pos : Z) :
  let size := size_of raw in
  let max_offset := size - kAdtsHeaderMinSize in
  match LookForSyncWord raw size pos with
  | SyncWordFound new_pos frame_sz =>
      pos <= new_pos < max_offset
      /\ SyncWordAt raw size new_pos = Some frame_sz
      /\ forall o, pos <= o < new_pos -> SyncWordAt raw size o = None
  | SyncWordNotFound new_pos =>
      new_pos = Z.max pos max_offset
      /\ forall o, pos <= o < max_offset -> SyncWordAt raw size o = None
  end.
Proof.
  cbv zeta. apply LookForSyncWord_spec.
Qed.

(** C4 as stated fails: in a buffer of exactly [kAdtsHeaderMinSize] bytes that
    is a frame, offset 0 is accepted by the loop body and is not examined. *)
Lemma last_offset_not_examined :
  size_of frame7 = kAdtsHeaderMinSize
  /\ SyncWordAt frame7 (size_of frame7) 0 = Some 7
  /\ LookForSyncWord frame7 (size_of frame7) 0 = SyncWordNotFound 0.
Proof. repeat split. Qed.

(** ** The configuration *)

Section Parser.

Context {H : Type} {HelperOps : AudioTimestampHelper H}.

Lemma UpdateAudioConfiguration_set (p : EsParserAdts H) raw hdr c :
  last_audio_decoder_config_ p = Some c ->
  UpdateAudioConfiguration p raw hdr = (true, p, []).
Proof.
  intros E. unfold UpdateAudioConfiguration. rewrite E. reflexivity.
Qed.

(** With no configuration set, [UpdateAudioConfiguration] fails on a refused
    header and otherwise sets the configuration and the helper and calls the
    configuration callback once. *)
Lemma UpdateAudioConfiguration_unset (p : EsParserAdts H) raw hdr :
  last_audio_decoder_config_ p = None ->
  if invalid_config raw hdr
  then UpdateAudioConfiguration p raw hdr = (false, p, [])
  else exists c h,
      UpdateAudioConfiguration p raw hdr =
      (true, with_helper (with_config p (Some c)) (Some h),
       [ConfigurationReady c])
      /\ asi_sampling_frequency c =
         table_at kAdtsFrequencyTable (ExtractAdtsFrequencyIndex raw hdr)
      /\ h = match audio_timestamp_helper_ p with
             | Some old =>
                 SetBaseTimestamp (GetTimestamp old)
                   (NewHelper kMpeg2Timescale (asi_sampling_frequency c))
             | None => NewHelper kMpeg2Timescale (asi_sampling_frequency c)
             end.
Proof.
  intros E. unfold UpdateAudioConfiguration, invalid_config. rewrite E.
  destruct (ExtractAdtsFrequencyIndex raw hdr >=? kAdtsFrequencyTableSize);
    [reflexivity|].
  cbn [orb].
  destruct ((ExtractAdtsChannelConfig raw hdr =? 0)
            || (ExtractAdtsChannelConfig raw hdr >=? kAdtsNumChannelsTableSize));
    [reflexivity|].
  eexists _, _. split; [reflexivity|]. split; reflexivity.
Qed.

Lemma UpdateAudioConfiguration_false (p : EsParserAdts H) raw hdr p1 out :
  UpdateAudioConfiguration p raw hdr = (false, p1, out) ->
  p1 = p /\ out = [] /\ last_audio_decoder_config_ p = None
  /\ invalid_config raw hdr = true.
Proof.
  destruct (last_audio_decoder_config_ p) as [c|] eqn:E.
  - rewrite (UpdateAudioConfiguration_set p raw hdr c E). discriminate.
  - pose proof (UpdateAudioConfiguration_unset p raw hdr E) as U.
    destruct (invalid_config raw hdr).
    + rewrite U. intros [= <- <-]. auto.
    + destruct U as (c & h & -> & _). discriminate.
Qed.

Lemma UpdateAudioConfiguration_true (p : EsParserAdts H) raw hdr p1 out :
  helper_ok p ->
  UpdateAudioConfiguration p raw hdr = (true, p1, out) ->
  track_id p1 = track_id p
  /\ sbr_in_mimetype_ p1 = sbr_in_mimetype_ p
  /\ es_byte_queue_ p1 = es_byte_queue_ p
  /\ pts_list_ p1 = pts_list_ p
  /\ last_audio_decoder_config_ p1 <> None
  /\ audio_timestamp_helper_ p1 <> None.
Proof.
  intros OK.
  destruct (last_audio_decoder_config_ p) as [c|] eqn:E.
  - rewrite (UpdateAudioConfiguration_set p raw hdr c E). intros [= <- <-].
    repeat split; auto; [congruence | apply OK; congruence].
  - pose proof (UpdateAudioConfiguration_unset p raw hdr E) as U.
    destruct (invalid_config raw hdr).
    + rewrite U. discriminate.
    + destruct U as (c & h & -> & _). intros [= <- <-]. cbn.
      repeat split; auto; discriminate.
Qed.

(** ** The pending timestamps *)

(** The loop over the pending timestamps removes a prefix of the list, every
    entry of which is at or before [es_position], sets each removed value as
    the base in turn, and stops at the first entry after [es_position]. *)
Lemma ApplyPts_prefix (l : list EsPts) (es_position : Z) :
  forall h, exists removed,
    l = removed ++ fst (ApplyPts l es_position h)
    /\ Forall (fun e => fst e <= es_position) removed
    /\ snd (ApplyPts l es_position h) = fold_left set_base removed h
    /\ match fst (ApplyPts l es_position h) with
       | [] => True
       | e :: _ => es_position < fst e
       end.
Proof.
  induction l as [|[first second] l IH]; intros h; cbn [ApplyPts].
  - exists []. cbn. auto.
  - destruct (Z.leb_spec first es_position).
    + destruct (IH (SetBaseTimestamp second h)) as (removed & E & F & S & T).
      exists ((first, second) :: removed). cbn [app fold_left].
      split; [congruence|]. split; [constructor; auto|]. split; assumption.
    + exists []. cbn. auto.
Qed.

Lemma ApplyPts_sorted (l : list EsPts) (es_position : Z) (h : H) :
  StronglySorted pts_le l ->
  fst (ApplyPts l es_position h) =
    filter (fun e => negb (fst e <=? es_position)) l
  /\ snd (ApplyPts l es_position h) =
       fold_left set_base (filter (fun e => fst e <=? es_position) l) h.
Proof.
  revert h. induction l as [|[first second] l IH]; intros h S; cbn [ApplyPts].
  - auto.
  - inversion S as [|? ? S' F]; subst. cbn [filter fst].
    destruct (Z.leb_spec first es_position); cbn [negb fold_left].
    + apply IH, S'.
    + cbn [fst snd].
      assert (A : Forall (fun e : EsPts => (fst e <=? es_position) = false) l).
      { eapply Forall_impl; [|exact F]. unfold pts_le. cbn. intros; lia. }
      split.
      * f_equal. symmetry. apply forallb_filter_id, forallb_forall.
        rewrite Forall_forall in A. intros e He. rewrite (A e He). reflexivity.
      * clear - A. induction A as [|e l E _ IHA]; [reflexivity|].
        cbn [filter]. rewrite E. exact IHA.
Qed.

Lemma StronglySorted_app_inv_r (l1 l2 : list EsPts) :
  StronglySorted pts_le (l1 ++ l2) -> StronglySorted pts_le l2.
Proof.
  induction l1; cbn; auto. intros S. inversion S; auto.
Qed.

Lemma StronglySorted_snoc (l : list EsPts) (e : EsPts) :
  StronglySorted pts_le l -> Forall (fun a => fst a <= fst e) l ->
  StronglySorted pts_le (l ++ [e]).
Proof.
  induction l as [|a l IH]; cbn; intros S F.
  - repeat constructor.
  - inversion S; inversion F; subst. constructor; auto.
    apply Forall_app. split; auto.
Qed.

Lemma StronglySorted_shift (l : list EsPts) (n : Z) :
  StronglySorted pts_le l ->
  StronglySorted pts_le (map (fun it : EsPts => (fst it - n, snd it)) l).
Proof.
  induction 1 as [|a l S IH F]; cbn; constructor; auto.
  rewrite Forall_map. eapply Forall_impl; [|exact F].
  unfold pts_le. cbn. intros; lia.
Qed.

(** ** One frame *)

Lemma ParseFrame_false (p : EsParserAdts H) raw pos fs p1 out :
  ParseFrame p raw pos fs = Some (false, p1, out) ->
  p1 = p /\ out = [] /\ last_audio_decoder_config_ p = None
  /\ invalid_config raw pos = true.
Proof.
  unfold ParseFrame.
  destruct (UpdateAudioConfiguration p raw pos) as [[[] p0] out0] eqn:U.
  - destruct (audio_timestamp_helper_ p0); [|discriminate].
    destruct (ApplyPts _ _ _). discriminate.
  - intros [= <- <-]. eapply UpdateAudioConfiguration_false, U.
Qed.

Lemma ParseFrame_total (p : EsParserAdts H) raw pos fs :
  helper_ok p -> exists r, ParseFrame p raw pos fs = Some r.
Proof.
  intros OK. unfold ParseFrame.
  destruct (UpdateAudioConfiguration p raw pos) as [[[] p0] out0] eqn:U.
  - destruct (UpdateAudioConfiguration_true _ _ _ _ _ OK U)
      as (_ & _ & _ & _ & _ & Hh).
    destruct (audio_timestamp_helper_ p0); [|congruence].
    destruct (ApplyPts _ _ _). eauto.
  - eauto.
Qed.

Lemma configurations_app (a b : list Emission) :
  configurations (a ++ b) = (configurations a + configurations b)%nat.
Proof. unfold configurations. rewrite filter_app, length_app. reflexivity. Qed.

Lemma UpdateAudioConfiguration_budget (p : EsParserAdts H) raw hdr p1 out :
  UpdateAudioConfiguration p raw hdr = (true, p1, out) ->
  (configurations out + configurations_left p1 = configurations_left p)%nat
  /\ (forall c, last_audio_decoder_config_ p = Some c ->
                last_audio_decoder_config_ p1 = Some c).
Proof.
  unfold configurations_left.
  destruct (last_audio_decoder_config_ p) as [c|] eqn:E.
  - rewrite (UpdateAudioConfiguration_set p raw hdr c E). intros [= <- <-].
    rewrite E. auto.
  - pose proof (UpdateAudioConfiguration_unset p raw hdr E) as U.
    destruct (invalid_config raw hdr).
    + rewrite U. discriminate.
    + destruct U as (c & h & -> & _). intros [= <- <-]. cbn.
      split; [reflexivity|discriminate].
Qed.

Lemma ParseFrame_true (p : EsParserAdts H) raw pos fs p1 out :
  helper_ok p ->
  ParseFrame p raw pos fs = Some (true, p1, out) ->
  track_id p1 = track_id p
  /\ sbr_in_mimetype_ p1 = sbr_in_mimetype_ p
  /\ es_byte_queue_ p1 = es_byte_queue_ p
  /\ helper_ok p1
  /\ last_audio_decoder_config_ p1 <> None
  /\ (exists removed, pts_list_ p = removed ++ pts_list_ p1)
  /\ (configurations out + configurations_left p1 = configurations_left p)%nat
  /\ (forall c, last_audio_decoder_config_ p = Some c ->
                last_audio_decoder_config_ p1 = Some c).
Proof.
  intros OK. unfold ParseFrame.
  destruct (UpdateAudioConfiguration p raw pos) as [[[] p0] out0] eqn:U;
    [|discriminate].
  destruct (UpdateAudioConfiguration_true _ _ _ _ _ OK U)
    as (T & B & Q & L & Cf & Hh).
  destruct (UpdateAudioConfiguration_budget _ _ _ _ _ U) as (Bu & Keep).
  destruct (audio_timestamp_helper_ p0) as [h|]; [|congruence].
  destruct (ApplyPts_prefix (pts_list_ p0) pos h) as (removed & E & _).
  destruct (ApplyPts (pts_list_ p0) pos h) as [rest h1].
  intros [= <- <-]. cbn. cbn in E.
  repeat split; auto.
  - intros _. discriminate.
  - exists removed. congruence.
  - rewrite configurations_app. cbn. unfold configurations_left in *. cbn.
    lia.
Qed.

(** ** The loop over the frames *)

Lemma ParseFrames_total (raw : list uint8) (size : Z) (fuel : nat) :
  forall pos (p : EsParserAdts H) out,
    helper_ok p ->
    (Z.to_nat (size - pos) < fuel)%nat ->
    exists r, ParseFrames fuel raw size pos p out = Some r.
Proof.
  induction fuel as [|fuel IH]; intros pos p out OK F; [lia|].
  cbn [ParseFrames].
  destruct (LookForSyncWord raw size pos) as [np fs|np] eqn:L; [|eauto].
  apply LookForSyncWord_found in L. destruct L as (B & M).
  unfold kAdtsHeaderMinSize in *.
  destruct (Z.gtb_spec fs (size - np)); [eauto|].
  destruct (ParseFrame_total p raw np fs OK) as ([[[] p1] out1] & E);
    rewrite E; [|eauto].
  apply IH; [|lia].
  eapply ParseFrame_true in E; intuition.
Qed.

Lemma ParseFrames_fuel (raw : list uint8) (size : Z) (fuel : nat) :
  forall fuel' pos (p : EsParserAdts H) out r,
    ParseFrames fuel raw size pos p out = Some r ->
    (fuel <= fuel')%nat ->
    ParseFrames fuel' raw size pos p out = Some r.
Proof.
  induction fuel as [|fuel IH]; intros fuel' pos p out r; [discriminate|].
  intros E F. destruct fuel' as [|fuel']; [lia|].
  cbn [ParseFrames] in *.
  destruct (LookForSyncWord raw size pos) as [np fs|np]; [|exact E].
  destruct (fs >? size - np); [exact E|].
  destruct (ParseFrame p raw np fs) as [[[[] p1] out1]|]; try exact E.
  apply IH; [exact E|lia].
Qed.

(** What the loop leaves behind.  It fails only where it starts, on a parser
    without configuration. *)
Lemma ParseFrames_inv (raw : list uint8) (size : Z) (fuel : nat) :
  forall pos (p : EsParserAdts H) out r,
    helper_ok p ->
    pos <= size ->
    ParseFrames fuel raw size pos p out = Some r ->
    match r with
    | FramesDone e p' out' =>
        pos <= e <= size
        /\ track_id p' = track_id p
        /\ sbr_in_mimetype_ p' = sbr_in_mimetype_ p
        /\ es_byte_queue_ p' = es_byte_queue_ p
        /\ helper_ok p'
        /\ (exists removed, pts_list_ p = removed ++ pts_list_ p')
        /\ (forall c, last_audio_decoder_config_ p = Some c ->
                      last_audio_decoder_config_ p' = Some c)
        /\ exists o, out' = out ++ o
             /\ (configurations o + configurations_left p'
                 = configurations_left p)%nat
    | FramesFailed p' out' =>
        p' = p /\ out' = out /\ last_audio_decoder_config_ p = None
    end.
Proof.
  induction fuel as [|fuel IH]; intros pos p out r OK B; [discriminate|].
  cbn [ParseFrames].
  assert (Stay : forall e, pos <= e <= size ->
            match FramesDone e p out with
            | FramesDone e p' out' =>
                pos <= e <= size
                /\ track_id p' = track_id p
                /\ sbr_in_mimetype_ p' = sbr_in_mimetype_ p
                /\ es_byte_queue_ p' = es_byte_queue_ p
                /\ helper_ok p'
                /\ (exists removed, pts_list_ p = removed ++ pts_list_ p')
                /\ (forall c, last_audio_decoder_config_ p = Some c ->
                              last_audio_decoder_config_ p' = Some c)
                /\ exists o, out' = out ++ o
                     /\ (configurations o + configurations_left p'
                         = configurations_left p)%nat
            | FramesFailed p' out' =>
                p' = p /\ out' = out /\ last_audio_decoder_config_ p = None
            end).
  { intros e He. repeat split; auto; try lia.
    - exists []. reflexivity.
    - exists []. rewrite app_nil_r. auto. }
  pose proof (LookForSyncWord_spec raw size pos) as L.
  destruct (LookForSyncWord raw size pos) as [np fs|np] eqn:EL.
  - apply LookForSyncWord_found in EL. destruct EL as (Bn & M).
    unfold kAdtsHeaderMinSize in *.
    destruct (Z.gtb_spec fs (size - np)).
    + intros [= <-]. apply Stay. lia.
    + destruct (ParseFrame p raw np fs) as [[[[] p1] out1]|] eqn:E;
        [| |discriminate].
      * intros R.
        destruct (ParseFrame_true _ _ _ _ _ _ OK E)
          as (T & Sb & Q & OK1 & Cf & (rm1 & Rm) & Bu & Keep).
        assert (Bp : np + fs <= size) by lia.
        specialize (IH _ _ _ _ OK1 Bp R).
        destruct r as [e p' out'|p' out'].
        -- destruct IH as (Be & T' & Sb' & Q' & OK' & (rm2 & Rm') & Keep'
                           & o & -> & Bu').
           split; [lia|]. do 3 (split; [congruence|]). split; [exact OK'|].
           split; [exists (rm1 ++ rm2); rewrite <- app_assoc; congruence|].
           split; [auto|].
           exists (out1 ++ o). rewrite app_assoc. split; [reflexivity|].
           rewrite configurations_app. lia.
        -- destruct IH as (_ & _ & N). congruence.
      * intros [= <-]. apply ParseFrame_false in E.
        destruct E as (-> & -> & N & _). rewrite app_nil_r. auto.
  - intros [= <-]. destruct L as (-> & _). unfold kAdtsHeaderMinSize.
    apply Stay. lia.
Qed.

(** ** One call of [Parse] *)

Lemma Parse_unfold (p : EsParserAdts H) buf pts dts :
  Parse p buf pts dts =
  let raw := es_byte_queue_ p ++ buf in
  match ParseFrames (S (length raw)) raw (size_of raw) 0
                    (Parse_start p buf pts) [] with
  | None => None
  | Some (FramesFailed p3 out) => Some (false, p3, out)
  | Some (FramesDone es_position p3 out) =>
      Some (true, DiscardEs p3 es_position, out)
  end.
Proof.
  unfold Parse, Parse_start, pushed_pts, ByteQueue.Peek, ByteQueue.Push.
  destruct (pts =? kNoTimestamp); cbn [negb]; [|reflexivity].
  rewrite app_nil_r. destruct p; reflexivity.
Qed.

Lemma ParseFrame_invalid (p : EsParserAdts H) raw pos fs :
  last_audio_decoder_config_ p = None ->
  invalid_config raw pos = true ->
  ParseFrame p raw pos fs = Some (false, p, []).
Proof.
  intros N I. unfold ParseFrame.
  pose proof (UpdateAudioConfiguration_unset p raw pos N) as U.
  rewrite I in U. rewrite U. reflexivity.
Qed.

Lemma helper_ok_start (p : EsParserAdts H) buf pts :
  helper_ok p -> helper_ok (Parse_start p buf pts).
Proof. exact (fun x => x). Qed.

(** [Parse] returns false exactly when the parser has no configuration and
    the first frame that the loop meets is complete and refused. *)
Lemma Parse_fails_iff (p : EsParserAdts H) buf pts dts ok p' out :
  helper_ok p ->
  Parse p buf pts dts = Some (ok, p', out) ->
  ok = false <->
  last_audio_decoder_config_ p = None
  /\ first_frame_invalid (es_byte_queue_ p ++ buf) = true.
Proof.
  intros OK. rewrite Parse_unfold. cbv zeta. cbn [ParseFrames].
  unfold first_frame_invalid.
  set (raw := es_byte_queue_ p ++ buf).
  destruct (LookForSyncWord raw (size_of raw) 0) as [np fs|np] eqn:L.
  - destruct (Z.gtb_spec fs (size_of raw - np)) as [G|G].
    + intros [= <- _ _]. replace (fs <=? size_of raw - np) with false by lia.
      cbn. intuition discriminate.
    + replace (fs <=? size_of raw - np) with true by lia. cbn [andb].
      destruct (ParseFrame (Parse_start p buf pts) raw np fs)
        as [[[[] p1] out1]|] eqn:E; [| |discriminate].
      * apply LookForSyncWord_found in L.
        destruct (ParseFrame_true _ _ _ _ _ _ (helper_ok_start p buf pts OK) E)
          as (_ & _ & _ & OK1 & Cf & _).
        destruct (ParseFrames _ raw _ _ p1 _) as [[e p3 out3|p3 out3]|] eqn:R;
          [| |discriminate].
        -- intros [= <- _ _]. split; [discriminate|].
           intros (N & I).
           rewrite (ParseFrame_invalid (Parse_start p buf pts) raw np fs N I)
             in E. discriminate.
        -- apply ParseFrames_inv in R; [|exact OK1|lia].
           destruct R as (_ & _ & N). congruence.
      * intros [= <- _ _]. apply ParseFrame_false in E.
        destruct E as (_ & _ & N & I). cbn in N. tauto.
  - intros [= <- _ _]. intuition discriminate.
Qed.

(** A failing [Parse] has only queued its timestamp and appended its input. *)
Lemma Parse_failure_state (p : EsParserAdts H) buf pts dts p' out :
  helper_ok p ->
  Parse p buf pts dts = Some (false, p', out) ->
  p' = Parse_start p buf pts /\ out = [].
Proof.
  intros OK. rewrite Parse_unfold. cbv zeta.
  destruct (ParseFrames _ _ _ _ _ _) as [[e p3 out3|p3 out3]|] eqn:R;
    try discriminate.
  intros [= <- <-].
  apply ParseFrames_inv in R; [|apply helper_ok_start, OK|apply size_of_nonneg].
  destruct R as (-> & -> & _). auto.
Qed.

Lemma pts_ok_start (p : EsParserAdts H) buf pts :
  pts_ok p -> pts_ok (Parse_start p buf pts).
Proof.
  intros (S & B). unfold pts_ok, Parse_start, pushed_pts.
  cbn [pts_list_ es_byte_queue_ with_queue with_pts_list].
  rewrite size_of_app. pose proof (size_of_nonneg buf).
  assert (B' : Forall (fun e : EsPts => fst e <= size_of (es_byte_queue_ p) + size_of buf)
                      (pts_list_ p)).
  { eapply Forall_impl; [|exact B]. cbn. intros; lia. }
  destruct (pts =? kNoTimestamp).
  - rewrite app_nil_r. auto.
  - split.
    + apply StronglySorted_snoc; auto.
    + apply Forall_app. split; auto. repeat constructor. cbn. lia.
Qed.

Lemma pts_ok_DiscardEs (p : EsParserAdts H) (removed : list EsPts) l q e :
  StronglySorted pts_le (removed ++ l) ->
  Forall (fun a : EsPts => fst a <= size_of q) (removed ++ l) ->
  0 <= e <= size_of q ->
  pts_list_ p = l -> es_byte_queue_ p = q ->
  pts_ok (DiscardEs p e).
Proof.
  intros S B He <- <-.
  apply StronglySorted_app_inv_r in S. apply Forall_app in B.
  destruct B as (_ & B).
  unfold DiscardEs, pts_ok. destruct (Z.leb_spec e 0); [auto|]. cbn.
  split.
  - apply StronglySorted_shift, S.
  - rewrite Forall_map. unfold ByteQueue.Pop. rewrite size_of_skipn by lia.
    eapply Forall_impl; [|exact B]. cbn. intros; lia.
Qed.

(** The effect of [Parse] on a parser that has a helper whenever it has a
    configuration: it returns, and keeps what the later proofs rely on. *)
Lemma Parse_inv (p : EsParserAdts H) buf pts dts :
  helper_ok p -> pts_ok p ->
  exists ok p' out,
    Parse p buf pts dts = Some (ok, p', out)
    /\ helper_ok p' /\ pts_ok p'
    /\ track_id p' = track_id p
    /\ sbr_in_mimetype_ p' = sbr_in_mimetype_ p
    /\ (configurations out + configurations_left p' = configurations_left p)%nat
    /\ (forall c, last_audio_decoder_config_ p = Some c ->
                  last_audio_decoder_config_ p' = Some c /\ ok = true).
Proof.
  intros OK PK. rewrite Parse_unfold. cbv zeta.
  set (raw := es_byte_queue_ p ++ buf).
  destruct (ParseFrames_total raw (size_of raw) (S (length raw)) 0
              (Parse_start p buf pts) [] (helper_ok_start p buf pts OK))
    as (r & R).
  { unfold size_of. lia. }
  rewrite R.
  apply ParseFrames_inv in R;
    [|apply helper_ok_start, OK|apply size_of_nonneg].
  pose proof (pts_ok_start p buf pts PK) as (S & B).
  destruct r as [e p3 out3|p3 out3].
  - destruct R as (Be & T & Sb & Q & OK3 & (removed & Rm) & Keep & o & -> & Bu).
    exists true, (DiscardEs p3 e), o. cbn [app].
    split; [reflexivity|].
    assert (D : forall x, DiscardEs p3 e = x ->
                last_audio_decoder_config_ x = last_audio_decoder_config_ p3
                /\ audio_timestamp_helper_ x = audio_timestamp_helper_ p3
                /\ track_id x = track_id p3
                /\ sbr_in_mimetype_ x = sbr_in_mimetype_ p3).
    { intros x <-. unfold DiscardEs. destruct (e <=? 0); cbn; auto. }
    destruct (D _ eq_refl) as (D1 & D2 & D3 & D4).
    split; [unfold helper_ok; rewrite D1, D2; exact OK3|].
    split.
    { eapply pts_ok_DiscardEs with (removed := removed) (q := raw).
      - rewrite <- Rm. exact S.
      - rewrite <- Rm. exact B.
      - exact Be.
      - reflexivity.
      - rewrite Q. reflexivity. }
    split; [rewrite D3; exact T|]. split; [rewrite D4; exact Sb|].
    split.
    { unfold configurations_left in *. rewrite D1. exact Bu. }
    intros c Hc. rewrite D1. split; [apply Keep; exact Hc|reflexivity].
  - destruct R as (-> & -> & N).
    exists false, (Parse_start p buf pts), []. split; [reflexivity|].
    split; [apply helper_ok_start, OK|]. split; [split; assumption|].
    cbn in N. repeat split; auto; congruence.
Qed.

(** ** Sequences of calls *)

Lemma Reset_ok (p : EsParserAdts H) :
  helper_ok (Reset p) /\ pts_ok (Reset p).
Proof.
  split.
  - intros N. cbn in N. congruence.
  - split; cbn; constructor.
Qed.

Lemma Run_inv (calls : list (Call)) :
  forall p : EsParserAdts H,
    helper_ok p -> pts_ok p ->
    exists p' oks out,
      Run calls p = Some (p', oks, out)
      /\ helper_ok p' /\ pts_ok p'
      /\ track_id p' = track_id p
      /\ sbr_in_mimetype_ p' = sbr_in_mimetype_ p.
Proof.
  induction calls as [|c calls IH]; intros p OK PK; cbn [Run].
  - exists p, [], []. auto.
  - destruct c as [buf pts dts| |].
    + destruct (Parse_inv p buf pts dts OK PK)
        as (ok & p1 & out1 & -> & OK1 & PK1 & T1 & S1 & _).
      destruct (IH p1 OK1 PK1) as (p2 & oks & out2 & -> & OK2 & PK2 & T2 & S2).
      exists p2, (ok :: oks), (out1 ++ out2).
      split; [reflexivity|]. split; [exact OK2|]. split; [exact PK2|].
      split; congruence.
    + apply IH; assumption.
    + destruct (Reset_ok p) as (OK1 & PK1).
      destruct (IH (Reset p) OK1 PK1) as (p2 & oks & out2 & -> & ? & ? & ? & ?).
      exists p2, oks, out2. auto.
Qed.

Lemma New_ok (track : Z) (sbr : bool) :
  helper_ok (NewEsParserAdts track sbr : EsParserAdts H)
  /\ pts_ok (NewEsParserAdts track sbr : EsParserAdts H).
Proof.
  split.
  - intros N. cbn in N. congruence.
  - split; cbn; constructor.
Qed.

Lemma Reachable_ok (p : EsParserAdts H) :
  Reachable p -> helper_ok p /\ pts_ok p.
Proof.
  intros (track & sbr & calls & oks & out & R).
  destruct (New_ok track sbr) as (OK & PK).
  destruct (Run_inv calls _ OK PK) as (p' & oks' & out' & R' & OK' & PK' & _).
  rewrite R in R'. injection R' as <- _ _. auto.
Qed.

Lemma Reachable_New (track : Z) (sbr : bool) :
  Reachable (NewEsParserAdts track sbr : EsParserAdts H).
Proof. exists track, sbr, [], [], []. reflexivity. Qed.

Lemma Run_app (calls1 calls2 : list Call) :
  forall (p p1 : EsParserAdts H) oks1 out1,
    Run calls1 p = Some (p1, oks1, out1) ->
    Run (calls1 ++ calls2) p =
    match Run calls2 p1 with
    | None => None
    | Some (p2, oks2, out2) => Some (p2, oks1 ++ oks2, out1 ++ out2)
    end.
Proof.
  induction calls1 as [|c calls1 IH]; intros p p1 oks1 out1; cbn [Run app].
  - intros [= <- <- <-]. destruct (Run calls2 p) as [[[? ?] ?]|]; reflexivity.
  - destruct c as [buf pts dts| |]; try apply IH.
    destruct (Parse p buf pts dts) as [[[ok q] o]|]; [|discriminate].
    destruct (Run calls1 q) as [[[q1 oks] o1]|] eqn:R; [|discriminate].
    intros [= <- <- <-]. rewrite (IH _ _ _ _ R).
    destruct (Run calls2 q1) as [[[? ?] ?]|]; [|reflexivity].
    rewrite app_assoc. reflexivity.
Qed.

Lemma Reachable_Run (calls : list Call) (p p' : EsParserAdts H) oks out :
  Reachable p -> Run calls p = Some (p', oks, out) -> Reachable p'.
Proof.
  intros (track & sbr & calls0 & oks0 & out0 & R0) R.
  exists track, sbr, (calls0 ++ calls), (oks0 ++ oks), (out0 ++ out).
  rewrite (Run_app _ _ _ _ _ _ R0), R. reflexivity.
Qed.

Lemma Reachable_Reset (p : EsParserAdts H) :
  Reachable p -> Reachable (Reset p).
Proof.
  intros R. apply (Reachable_Run [CallReset] p (Reset p) [] [] R). reflexivity.
Qed.

(** In a sequence of calls without [Reset], the configurations created and
    the one that may still be created add up to what could be created at the
    start; a configuration that is set stays, and every [Parse] succeeds. *)
Lemma Run_budget (calls : list Call) :
  forall p : EsParserAdts H,
    helper_ok p -> pts_ok p ->
    forallb (fun c => negb (is_Reset c)) calls = true ->
    exists p' oks out,
      Run calls p = Some (p', oks, out)
      /\ (configurations out + configurations_left p'
          = configurations_left p)%nat
      /\ (forall c, last_audio_decoder_config_ p = Some c ->
                    last_audio_decoder_config_ p' = Some c
                    /\ Forall (fun ok => ok = true) oks).
Proof.
  induction calls as [|c calls IH]; intros p OK PK NR; cbn [Run].
  - exists p, [], []. cbn. auto.
  - cbn [forallb] in NR. apply andb_prop in NR. destruct NR as (Nc & NR).
    destruct c as [buf pts dts| |]; [| |discriminate].
    + destruct (Parse_inv p buf pts dts OK PK)
        as (ok & p1 & out1 & -> & OK1 & PK1 & _ & _ & B1 & K1).
      destruct (IH p1 OK1 PK1 NR) as (p2 & oks & out2 & -> & B2 & K2).
      exists p2, (ok :: oks), (out1 ++ out2). split; [reflexivity|].
      split; [rewrite configurations_app; lia|].
      intros c Hc. destruct (K1 c Hc) as (Hc1 & ->).
      destruct (K2 c Hc1). auto.
    + apply IH; assumption.
Qed.

(** ** The claims on single calls and on sequences of calls *)


(** C9.  From a reachable parser (a new one, one after [Reset], or any
    other), a sequence of calls without [Reset] creates the configuration and
    calls the configuration callback at most once.  Once the configuration is
    set it stays as it is, no callback is made for it again and every [Parse]
    returns true; [UpdateAudioConfiguration] accepts any header without
    reading it. *)
Theorem one_configuration_per_epoch :
  (forall (start : EsParserAdts H) (calls : list Call),
      Reachable start ->
      forallb (fun c => negb (is_Reset c)) calls = true ->
      exists p oks out,
        Run calls start = Some (p, oks, out)
        /\ (configurations out <= 1)%nat
        /\ (configurations out = 1%nat ->
            last_audio_decoder_config_ start = None
            /\ last_audio_decoder_config_ p <> None)
        /\ (forall c, last_audio_decoder_config_ start = Some c ->
                      configurations out = 0%nat
                      /\ last_audio_decoder_config_ p = Some c
                      /\ Forall (fun ok => ok = true) oks))
  /\ (forall (p : EsParserAdts H) raw adts_header c,
        last_audio_decoder_config_ p = Some c ->
        UpdateAudioConfiguration p raw adts_header = (true, p, [])).
Proof.
  split.
  - intros start calls R NR. destruct (Reachable_ok start R) as (OK & PK).
    destruct (Run_budget calls start OK PK NR) as (p & oks & out & E & B & K).
    exists p, oks, out. split; [exact E|].
    unfold configurations_left in B.
    split; [destruct (last_audio_decoder_config_ start),
                     (last_audio_decoder_config_ p); lia|].
    split.
    + intros One. destruct (last_audio_decoder_config_ start),
                           (last_audio_decoder_config_ p);
        try lia; split; congruence.
    + intros c Hc. destruct (K c Hc) as (Hp & F). rewrite Hc, Hp in B.
      repeat split; auto. lia.
  - intros p raw hdr c. apply UpdateAudioConfiguration_set.
Qed.

(** C10.  On a reachable parser [Parse] returns.  It returns false exactly
    when no configuration is set and the first frame that the loop finds in
    the queued bytes followed by the input is complete and has a header that
    the configuration refuses.  The parser is then as it was when the loop
    started: the input appended, the timestamp of the call queued, nothing
    discarded, no callback made. *)
Theorem Parse_sole_failure (p : EsParserAdts H) (buf : list uint8) (pts dts : Z) :
  Reachable p ->
  exists ok p' out,
    Parse p buf pts dts = Some (ok, p', out)
    /\ (ok = false <->
        last_audio_decoder_config_ p = None
        /\ first_frame_invalid (es_byte_queue_ p ++ buf) = true)
    /\ (ok = false ->
        out = []
        /\ p' = Parse_start p buf pts
        /\ es_byte_queue_ p' = es_byte_queue_ p ++ buf
        /\ pts_list_ p' = pts_list_ p ++ pushed_pts p pts
        /\ last_audio_decoder_config_ p' = None
        /\ audio_timestamp_helper_ p' = audio_timestamp_helper_ p).
Proof.
  intros R. destruct (Reachable_ok p R) as (OK & PK).
  destruct (Parse_inv p buf pts dts OK PK) as (ok & p' & out & E & _).
  exists ok, p', out. split; [exact E|]. split.
  - eapply Parse_fails_iff; eauto.
  - intros ->. pose proof (proj1 (Parse_fails_iff _ _ _ _ _ _ _ OK E) eq_refl)
      as (N & _).
    apply Parse_failure_state in E; [|exact OK]. destruct E as (-> & ->).
    repeat split; auto.
Qed.

(** ** The same calls on two parsers that differ in their helper *)

Lemma ApplyPts_fst (l : list EsPts) (es_position : Z) :
  forall h h' : H,
    fst (ApplyPts l es_position h) = fst (ApplyPts l es_position h').
Proof.
  induction l as [|[first second] l IH]; intros h h'; cbn [ApplyPts].
  - reflexivity.
  - destruct (first <=? es_position); [apply IH|reflexivity].
Qed.

Lemma UpdateAudioConfiguration_sim (p q : EsParserAdts H) raw hdr :
  same_but_helper p q ->
  exists ok p1 q1 o,
    UpdateAudioConfiguration p raw hdr = (ok, p1, o)
    /\ UpdateAudioConfiguration q raw hdr = (ok, q1, o)
    /\ same_but_helper p1 q1
    /\ (ok = false -> p1 = p /\ q1 = q)
    /\ (last_audio_decoder_config_ p <> None -> p1 = p /\ q1 = q)
    /\ (last_audio_decoder_config_ p = None -> ok = true ->
        last_audio_decoder_config_ p1 <> None
        /\ exists sps,
            audio_timestamp_helper_ p1
              = Some (recreated_helper (audio_timestamp_helper_ p) sps)
            /\ audio_timestamp_helper_ q1
              = Some (recreated_helper (audio_timestamp_helper_ q) sps)).
Proof.
  intros (T & S & Q & L & Cf). unfold UpdateAudioConfiguration.
  rewrite <- Cf, <- T.
  destruct (last_audio_decoder_config_ p) as [c|] eqn:E.
  { exists true, p, q, []. repeat split; auto; congruence. }
  destruct (ExtractAdtsFrequencyIndex raw hdr >=? kAdtsFrequencyTableSize).
  { exists false, p, q, []. repeat split; auto; congruence. }
  destruct ((ExtractAdtsChannelConfig raw hdr =? 0)
            || (ExtractAdtsChannelConfig raw hdr >=? kAdtsNumChannelsTableSize)).
  { exists false, p, q, []. repeat split; auto; congruence. }
  eexists true, _, _, _. split; [reflexivity|]. split; [reflexivity|].
  split; [repeat split; cbn; auto|].
  split; [discriminate|]. split; [congruence|].
  intros _ _. cbn. split; [discriminate|].
  eexists. unfold recreated_helper. split; reflexivity.
Qed.

(** [ParseFrame] in terms of its parts. *)
Lemma ParseFrame_unfold (p : EsParserAdts H) raw pos fs :
  ParseFrame p raw pos fs =
  match UpdateAudioConfiguration p raw pos with
  | (false, p1, out) => Some (false, p1, out)
  | (true, p1, out) =>
      match audio_timestamp_helper_ p1 with
      | None => None
      | Some h =>
          let r := ApplyPts (pts_list_ p1) pos h in
          Some (true,
                with_helper (with_pts_list p1 (fst r))
                  (Some (AddFrames kSamplesPerAACFrame (snd r))),
                out ++ [SampleReady (sample_at raw pos fs (snd r))])
      end
  end.
Proof.
  unfold ParseFrame.
  destruct (UpdateAudioConfiguration p raw pos) as [[[] p1] out]; [|reflexivity].
  destruct (audio_timestamp_helper_ p1) as [h|]; [|reflexivity].
  destruct (ApplyPts (pts_list_ p1) pos h). reflexivity.
Qed.

Lemma ParseFrame_sim (p q : EsParserAdts H) raw pos fs ok p1 o :
  same_but_helper p q -> helper_ok q ->
  ParseFrame p raw pos fs = Some (ok, p1, o) ->
  exists q1 o',
    ParseFrame q raw pos fs = Some (ok, q1, o')
    /\ same_but_helper p1 q1
    /\ map untimed o' = map untimed o.
Proof.
  intros Sim OKq. rewrite !ParseFrame_unfold.
  destruct (UpdateAudioConfiguration_sim p q raw pos Sim)
    as (ok0 & p0 & q0 & o0 & -> & Uq & Sim0 & _).
  pose proof Uq as Uq'. rewrite Uq.
  destruct ok0.
  - apply (UpdateAudioConfiguration_true _ _ _ _ _ OKq) in Uq'.
    destruct Uq' as (_ & _ & _ & _ & _ & Hq).
    destruct (audio_timestamp_helper_ p0) as [hp|]; [|discriminate].
    destruct (audio_timestamp_helper_ q0) as [hq|]; [|congruence].
    cbv zeta. intros [= <- <- <-].
    destruct Sim0 as (T & S & Q & L & Cf).
    eexists _, _. split; [reflexivity|]. split.
    + unfold same_but_helper. cbn. rewrite L.
      repeat split; auto. apply ApplyPts_fst.
    + rewrite !map_app. reflexivity.
  - intros [= <- <- <-]. eexists _, _. split; [reflexivity|]. auto.
Qed.

Lemma ParseFrames_sim (raw : list uint8) (size : Z) (fuel : nat) :
  forall pos (p q : EsParserAdts H) out out' r,
    same_but_helper p q -> helper_ok q ->
    map untimed out' = map untimed out ->
    ParseFrames fuel raw size pos p out = Some r ->
    exists r',
      ParseFrames fuel raw size pos q out' = Some r'
      /\ match r, r' with
         | FramesDone e p1 o, FramesDone e' q1 o' =>
             e' = e /\ same_but_helper p1 q1 /\ map untimed o' = map untimed o
         | FramesFailed p1 o, FramesFailed q1 o' =>
             same_but_helper p1 q1 /\ map untimed o' = map untimed o
         | _, _ => False
         end.
Proof.
  induction fuel as [|fuel IH]; intros pos p q out out' r Sim OKq Eo;
    [discriminate|].
  cbn [ParseFrames].
  destruct (LookForSyncWord raw size pos) as [np fs|np].
  - destruct (fs >? size - np).
    + intros [= <-]. eexists. split; [reflexivity|]. cbn. auto.
    + destruct (ParseFrame p raw np fs) as [[[ok p1] o1]|] eqn:E;
        [|discriminate].
      destruct (ParseFrame_sim _ _ _ _ _ _ _ _ Sim OKq E)
        as (q1 & o1' & Eq & Sim1 & Eo1).
      rewrite Eq.
      assert (Eo' : map untimed (out' ++ o1') = map untimed (out ++ o1)).
      { rewrite !map_app. congruence. }
      destruct ok.
      * apply IH; auto.
        eapply ParseFrame_true in Eq; [|exact OKq]. tauto.
      * intros [= <-]. eexists. split; [reflexivity|]. cbn. auto.
  - intros [= <-]. eexists. split; [reflexivity|]. cbn. auto.
Qed.

Lemma Parse_sim (p q : EsParserAdts H) buf pts dts ok p1 o :
  same_but_helper p q -> helper_ok q ->
  Parse p buf pts dts = Some (ok, p1, o) ->
  exists q1 o',
    Parse q buf pts dts = Some (ok, q1, o')
    /\ same_but_helper p1 q1
    /\ map untimed o' = map untimed o.
Proof.
  intros Sim OKq. rewrite !Parse_unfold. cbv zeta.
  assert (Sim0 : same_but_helper (Parse_start p buf pts) (Parse_start q buf pts)).
  { destruct Sim as (T & S & Q & L & Cf).
    unfold same_but_helper, Parse_start, pushed_pts. cbn.
    rewrite Q, L. auto. }
  destruct Sim as (_ & _ & Q & _). rewrite <- Q.
  destruct (ParseFrames _ _ _ _ (Parse_start p buf pts) _) as [r|] eqn:R;
    [|discriminate].
  destruct (ParseFrames_sim _ _ _ _ _ _ _ [] _ Sim0
              (helper_ok_start q buf pts OKq) eq_refl R) as (r' & -> & M).
  destruct r as [e p3 o3|p3 o3], r' as [e' q3 o3'|q3 o3']; try contradiction.
  - destruct M as (-> & Sim3 & Eo). intros [= <- <- <-].
    eexists _, _. split; [reflexivity|]. split; [|exact Eo].
    destruct Sim3 as (T & S & Q3 & L & Cf).
    unfold same_but_helper, DiscardEs. destruct (e <=? 0); cbn; rewrite ?Q3, ?L;
      auto.
  - destruct M as (Sim3 & Eo). intros [= <- <- <-].
    eexists _, _. split; [reflexivity|]. auto.
Qed.

Lemma Run_sim (calls : list Call) :
  forall (p q : EsParserAdts H) p1 oks o,
    same_but_helper p q -> helper_ok q -> pts_ok q ->
    Run calls p = Some (p1, oks, o) ->
    exists q1 o',
      Run calls q = Some (q1, oks, o')
      /\ map untimed o' = map untimed o.
Proof.
  induction calls as [|c calls IH]; intros p q p1 oks o Sim OKq PKq; cbn [Run].
  - intros [= <- <- <-]. exists q, []. auto.
  - destruct c as [buf pts dts| |].
    + destruct (Parse p buf pts dts) as [[[ok p2] o2]|] eqn:E; [|discriminate].
      destruct (Parse_sim _ _ _ _ _ _ _ _ Sim OKq E) as (q2 & o2' & Eq & Sim2 & Eo).
      rewrite Eq.
      destruct (Parse_inv q buf pts dts OKq PKq)
        as (? & ? & ? & Eq' & OK2 & PK2 & _).
      rewrite Eq in Eq'. injection Eq' as <- <- <-.
      destruct (Run calls p2) as [[[p3 oks3] o3]|] eqn:R; [|discriminate].
      destruct (IH _ _ _ _ _ Sim2 OK2 PK2 R) as (q3 & o3' & -> & Eo3).
      intros [= <- <- <-]. eexists _, _. split; [reflexivity|].
      rewrite !map_app. congruence.
    + apply IH; assumption.
    + destruct (Reset_ok q). apply IH; auto.
      destruct Sim as (T & S & Q & L & Cf). repeat split; cbn; auto.
Qed.

(** ** The same calls when the first sample is rebased *)

Lemma with_helper_same (a b : EsParserAdts H) l h :
  same_but_helper a b ->
  with_helper (with_pts_list a l) h = with_helper (with_pts_list b l) h.
Proof.
  intros (T & S & Q & L & Cf). destruct a, b. cbn in *. subst. reflexivity.
Qed.

Lemma set_base_recreated (old : option H) (sps v : Z) :
  base_overrides ->
  SetBaseTimestamp v (recreated_helper old sps)
  = SetBaseTimestamp v (NewHelper kMpeg2Timescale sps).
Proof.
  intros Law. destruct old; cbn; [apply Law|reflexivity].
Qed.

Lemma ParseFrame_rebased (p q : EsParserAdts H) raw pos fs ok p1 o :
  base_overrides ->
  rebased_before_first_sample p q ->
  0 <= pos ->
  ParseFrame p raw pos fs = Some (ok, p1, o) ->
  exists q1,
    ParseFrame q raw pos fs = Some (ok, q1, o)
    /\ if ok then q1 = p1 else p1 = p /\ q1 = q.
Proof.
  intros Law (Sim & N & Hd) Hpos. rewrite !ParseFrame_unfold.
  destruct (UpdateAudioConfiguration_sim p q raw pos Sim)
    as (ok0 & p0 & q0 & o0 & Up & Uq & Sim0 & F & _ & Tr).
  assert (OKp : helper_ok p) by (intros X; congruence).
  rewrite Up, Uq. destruct ok0.
  - destruct (Tr N eq_refl) as (_ & sps & -> & ->).
    apply (UpdateAudioConfiguration_true _ _ _ _ _ OKp) in Up.
    destruct Up as (_ & _ & _ & L & _).
    destruct Sim0 as (T0 & S0 & Q0 & L0 & C0). rewrite <- L0, L.
    destruct (pts_list_ p) as [|[first second] rest]; [contradiction|].
    cbn in Hd. cbv zeta. cbn [ApplyPts].
    replace (first <=? pos) with true by lia.
    rewrite !set_base_recreated by exact Law.
    intros [= <- <- <-]. eexists. split; [reflexivity|].
    apply with_helper_same. repeat split; auto.
  - destruct (F eq_refl) as (-> & ->).
    intros [= <- <- <-]. eexists. split; [reflexivity|]. auto.
Qed.

Lemma ParseFrames_rebased (raw : list uint8) (size : Z) (fuel : nat) :
  base_overrides ->
  forall pos (p q : EsParserAdts H) out r,
    rebased_before_first_sample p q ->
    0 <= pos ->
    ParseFrames fuel raw size pos p out = Some r ->
    exists r',
      ParseFrames fuel raw size pos q out = Some r'
      /\ match r, r' with
         | FramesDone e p1 o, FramesDone e' q1 o' =>
             e' = e /\ o' = o
             /\ (p1 = q1 \/ rebased_before_first_sample p1 q1)
         | FramesFailed p1 o, FramesFailed q1 o' =>
             o' = o /\ (p1 = q1 \/ rebased_before_first_sample p1 q1)
         | _, _ => False
         end.
Proof.
  intros Law.
  induction fuel as [|fuel IH]; intros pos p q out r Rb Hpos; [discriminate|].
  cbn [ParseFrames].
  pose proof (LookForSyncWord_spec raw size pos) as L.
  destruct (LookForSyncWord raw size pos) as [np fs|np].
  - destruct L as (Bn & _). assert (Hnp : 0 <= np) by lia.
    destruct (fs >? size - np).
    + intros [= <-]. eexists. split; [reflexivity|]. cbn. auto.
    + destruct (ParseFrame p raw np fs) as [[[ok p1] o1]|] eqn:E;
        [|discriminate].
      destruct (ParseFrame_rebased _ _ _ _ _ _ _ _ Law Rb Hnp E)
        as (q1 & -> & K).
      destruct ok.
      * subst q1. intros R. exists r. split; [exact R|].
        destruct r; auto.
      * destruct K as (-> & ->). intros [= <-]. eexists.
        split; [reflexivity|]. cbn. auto.
  - intros [= <-]. eexists. split; [reflexivity|]. cbn. auto.
Qed.

Lemma rebased_DiscardEs (p q : EsParserAdts H) (e : Z) :
  0 <= e ->
  rebased_before_first_sample p q ->
  rebased_before_first_sample (DiscardEs p e) (DiscardEs q e).
Proof.
  intros He ((T & S & Q & L & Cf) & N & Hd).
  unfold rebased_before_first_sample, same_but_helper, DiscardEs.
  destruct (Z.leb_spec e 0); [repeat split; auto|].
  cbn. rewrite <- Q, <- L. repeat split; auto.
  destruct (pts_list_ p) as [|a l]; [contradiction|]. cbn. lia.
Qed.

Lemma rebased_start (p q : EsParserAdts H) buf pts :
  rebased_before_first_sample p q ->
  rebased_before_first_sample (Parse_start p buf pts) (Parse_start q buf pts).
Proof.
  intros ((T & S & Q & L & Cf) & N & Hd).
  unfold rebased_before_first_sample, same_but_helper, Parse_start, pushed_pts.
  cbn [track_id sbr_in_mimetype_ es_byte_queue_ pts_list_
       last_audio_decoder_config_ with_queue with_pts_list].
  rewrite <- Q, <- L. repeat split; auto.
  destruct (pts_list_ p) as [|a l]; [contradiction|]. exact Hd.
Qed.

(** A first [Parse] with a pts on two parsers with nothing queued. *)
Lemma rebased_first (p q : EsParserAdts H) buf pts :
  same_but_helper p q ->
  last_audio_decoder_config_ p = None ->
  pts_list_ p = [] -> es_byte_queue_ p = [] ->
  (pts =? kNoTimestamp) = false ->
  rebased_before_first_sample (Parse_start p buf pts) (Parse_start q buf pts).
Proof.
  intros (T & S & Q & L & Cf) N Lp Qp Hp.
  unfold rebased_before_first_sample, same_but_helper, Parse_start, pushed_pts.
  cbn [track_id sbr_in_mimetype_ es_byte_queue_ pts_list_
       last_audio_decoder_config_ with_queue with_pts_list].
  rewrite <- Q, <- L, Lp, Qp, Hp. repeat split; auto. cbn. lia.
Qed.

Lemma Parse_rebased (p q : EsParserAdts H) buf pts dts ok p1 o :
  base_overrides ->
  rebased_before_first_sample (Parse_start p buf pts) (Parse_start q buf pts) ->
  Parse p buf pts dts = Some (ok, p1, o) ->
  exists q1,
    Parse q buf pts dts = Some (ok, q1, o)
    /\ (p1 = q1 \/ rebased_before_first_sample p1 q1).
Proof.
  intros Law Rb. rewrite !Parse_unfold. cbv zeta.
  assert (Q : es_byte_queue_ p ++ buf = es_byte_queue_ q ++ buf).
  { destruct Rb as ((_ & _ & Q & _) & _). exact Q. }
  rewrite <- Q.
  destruct (ParseFrames _ _ _ _ (Parse_start p buf pts) _) as [r|] eqn:R;
    [|discriminate].
  assert (OKp : helper_ok (Parse_start p buf pts)).
  { destruct Rb as (_ & N & _). intros X. congruence. }
  pose proof (ParseFrames_inv _ _ _ _ _ _ _ OKp
                (size_of_nonneg (es_byte_queue_ p ++ buf)) R) as Inv.
  destruct (ParseFrames_rebased _ _ _ Law _ _ _ _ _ Rb (Z.le_refl 0) R)
    as (r' & -> & M).
  destruct r as [e p3 o3|p3 o3], r' as [e' q3 o3'|q3 o3']; try contradiction.
  - destruct M as (-> & -> & K). intros [= <- <- <-].
    eexists. split; [reflexivity|].
    destruct K as [->|K]; [auto|]. right. apply rebased_DiscardEs; tauto.
  - destruct M as (-> & K). intros [= <- <- <-].
    eexists. split; [reflexivity|]. exact K.
Qed.

Lemma Run_rebased (calls : list Call) :
  base_overrides ->
  no_Reset calls = true ->
  forall (p q : EsParserAdts H) p1 oks o,
    p = q \/ rebased_before_first_sample p q ->
    Run calls p = Some (p1, oks, o) ->
    exists q1, Run calls q = Some (q1, oks, o).
Proof.
  intros Law. unfold no_Reset.
  induction calls as [|c calls IH]; intros NR p q p1 oks o K; cbn [Run].
  - intros [= <- <- <-]. eauto.
  - destruct K as [<-|K]; [eauto|].
    cbn [forallb] in NR. apply andb_prop in NR. destruct NR as (Nc & NR).
    destruct c as [buf pts dts| |]; [| |discriminate].
    + destruct (Parse p buf pts dts) as [[[ok p2] o2]|] eqn:E; [|discriminate].
      destruct (Parse_rebased _ _ _ _ _ _ _ _ Law (rebased_start _ _ buf pts K) E)
        as (q2 & -> & K2).
      destruct (Run calls p2) as [[[p3 oks3] o3]|] eqn:R; [|discriminate].
      destruct (IH NR _ _ _ _ _ K2 R) as (q3 & ->).
      intros [= <- <- <-]. eauto.
    + apply IH; auto.
Qed.

(** C2, as the code has it.  [Reset] keeps the timestamp helper, and the next
    configuration re-creates it at the timeline position reached before.  So
    feeding a new parser, calling [Reset] and feeding the same calls again
    gives the same flags, the same configuration call and the same samples
    with the same bytes, in the same order; the pts, dts and durations are
    the same as well when the calls start with a [Parse] that supplies a pts
    and contain no further [Reset], for a helper whose base, once set,
    overrides the one set before. *)
Theorem Reset_then_refeed (track : Z) (sbr : bool) (calls : list Call) :
  exists (p : EsParserAdts H) oks out p' out',
    Run calls (NewEsParserAdts track sbr) = Some (p, oks, out)
    /\ Run calls (Reset p) = Some (p', oks, out')
    /\ map untimed out' = map untimed out
    /\ (base_overrides -> first_has_pts calls = true ->
        no_Reset calls = true -> out' = out).
Proof.
  destruct (New_ok track sbr) as (OK & PK).
  destruct (Run_inv calls _ OK PK) as (p & oks & out & R & _ & _ & T & S).
  destruct (Reset_ok p) as (OKr & PKr).
  assert (Sim : same_but_helper (NewEsParserAdts track sbr) (Reset p)).
  { repeat split; cbn; auto. }
  destruct (Run_sim calls _ _ _ _ _ Sim OKr PKr R) as (p' & out' & R' & Eo).
  exists p, oks, out, p', out'. split; [exact R|]. split; [exact R'|].
  split; [exact Eo|].
  intros Law F NR.
  destruct calls as [|[buf pts dts| |] calls]; try discriminate.
  cbn in F. apply negb_true_iff in F.
  cbn [Run] in R, R'.
  destruct (Parse (NewEsParserAdts track sbr) buf pts dts)
    as [[[ok p2] o2]|] eqn:E; [|discriminate].
  assert (Rb : rebased_before_first_sample
                 (Parse_start (NewEsParserAdts track sbr) buf pts)
                 (Parse_start (Reset p) buf pts)).
  { apply rebased_first; auto. }
  destruct (Parse_rebased _ _ _ _ _ _ _ _ Law Rb E) as (q2 & Eq & K).
  rewrite Eq in R'.
  destruct (Run calls p2) as [[[p3 oks3] o3]|] eqn:R2; [|discriminate].
  unfold no_Reset in NR. cbn [forallb] in NR. apply andb_prop in NR.
  destruct NR as (_ & NR).
  destruct (Run_rebased calls Law NR _ _ _ _ _ K R2) as (q3 & R3).
  rewrite R3 in R'. congruence.
Qed.

(** ** The same bytes seen from further in the stream *)

Lemma UpdateAudioConfiguration_eq (p : EsParserAdts H) raw hdr :
  UpdateAudioConfiguration p raw hdr =
  match last_audio_decoder_config_ p with
  | Some _ => (true, p, [])
  | None =>
      if invalid_config raw hdr then (false, p, [])
      else
        let c := config_of (track_id p) (ExtractAdtsFrequencyIndex raw hdr)
                           (ExtractAdtsChannelConfig raw hdr) in
        (true,
         with_helper (with_config p (Some c))
           (Some (recreated_helper (audio_timestamp_helper_ p)
                    (asi_sampling_frequency c))),
         [ConfigurationReady c])
  end.
Proof.
  unfold UpdateAudioConfiguration, invalid_config.
  destruct (last_audio_decoder_config_ p); [reflexivity|].
  destruct (ExtractAdtsFrequencyIndex raw hdr >=? kAdtsFrequencyTableSize);
    [reflexivity|]. cbn [orb].
  destruct ((ExtractAdtsChannelConfig raw hdr =? 0)
            || (ExtractAdtsChannelConfig raw hdr >=? kAdtsNumChannelsTableSize));
    [reflexivity|].
  unfold recreated_helper, config_of. cbn.
  destruct (audio_timestamp_helper_ p); reflexivity.
Qed.

(** [UpdateAudioConfiguration] reads the third and fourth byte of the
    header only. *)
Lemma UpdateAudioConfiguration_ext (p : EsParserAdts H) raw hdr raw' hdr' :
  rd raw (hdr + 2) = rd raw' (hdr' + 2) ->
  rd raw (hdr + 3) = rd raw' (hdr' + 3) ->
  UpdateAudioConfiguration p raw hdr = UpdateAudioConfiguration p raw' hdr'.
Proof.
  intros E2 E3. rewrite !UpdateAudioConfiguration_eq.
  unfold invalid_config, ExtractAdtsFrequencyIndex, ExtractAdtsChannelConfig.
  rewrite E2, E3. reflexivity.
Qed.

Lemma shift_pts_0 (l : list EsPts) : shift_pts 0 l = l.
Proof.
  unfold shift_pts. induction l as [|[a b] l IH]; cbn; [reflexivity|].
  rewrite IH, Z.sub_0_r. reflexivity.
Qed.

Lemma shift_pts_shift (a b : Z) (l : list EsPts) :
  shift_pts a (shift_pts b l) = shift_pts (b + a) l.
Proof.
  unfold shift_pts. rewrite map_map. apply map_ext. intros [x y]. cbn.
  f_equal. lia.
Qed.

Lemma ApplyPts_shift (e : Z) (l : list EsPts) (pos : Z) :
  forall h : H,
    ApplyPts (shift_pts e l) pos h =
    (shift_pts e (fst (ApplyPts l (e + pos) h)), snd (ApplyPts l (e + pos) h)).
Proof.
  induction l as [|[first second] l IH]; intros h; cbn [ApplyPts shift_pts map].
  - reflexivity.
  - cbn [fst snd].
    destruct (Z.leb_spec (first - e) pos), (Z.leb_spec first (e + pos));
      try lia.
    + apply IH.
    + reflexivity.
Qed.

Lemma UpdateAudioConfiguration_rebase (e : Z) (q : ByteQueue.t)
    (p : EsParserAdts H) raw hdr :
  UpdateAudioConfiguration (rebase e q p) raw hdr =
  let '(ok, p1, o) := UpdateAudioConfiguration p raw hdr in
  (ok, rebase e q p1, o).
Proof.
  rewrite !UpdateAudioConfiguration_eq. cbn.
  destruct (last_audio_decoder_config_ p); [reflexivity|].
  destruct (invalid_config raw hdr); reflexivity.
Qed.

Lemma ParseFrame_rebase (e : Z) (q : ByteQueue.t) (p : EsParserAdts H)
    raw pos fs :
  0 <= e -> 0 <= pos ->
  ParseFrame (rebase e q p) (skipn (Z.to_nat e) raw) pos fs =
  match ParseFrame p raw (e + pos) fs with
  | Some (ok, p1, o) => Some (ok, rebase e q p1, o)
  | None => None
  end.
Proof.
  intros He Hpos. rewrite !ParseFrame_unfold.
  rewrite (UpdateAudioConfiguration_ext _ _ pos raw (e + pos)),
    UpdateAudioConfiguration_rebase.
  2,3: rewrite rd_skipn by lia; f_equal; lia.
  destruct (UpdateAudioConfiguration p raw (e + pos)) as [[[] p1] o];
    [|reflexivity].
  cbn [audio_timestamp_helper_ rebase with_queue with_pts_list pts_list_].
  destruct (audio_timestamp_helper_ p1) as [h|]; [|reflexivity].
  cbv zeta. rewrite ApplyPts_shift. cbn [fst snd].
  unfold sample_at. rewrite skipn_skipn.
  replace (Z.to_nat pos + Z.to_nat e)%nat with (Z.to_nat (e + pos)) by lia.
  reflexivity.
Qed.

Lemma isAdtsSyncWord_skipn (e o : Z) raw :
  0 <= e -> 0 <= o ->
  isAdtsSyncWord (skipn (Z.to_nat e) raw) o = isAdtsSyncWord raw (e + o).
Proof.
  intros. unfold isAdtsSyncWord. rewrite !rd_skipn by lia.
  replace (e + (o + 1)) with (e + o + 1) by lia. reflexivity.
Qed.

Lemma ExtractAdtsFrameSize_skipn (e o : Z) raw :
  0 <= e -> 0 <= o ->
  ExtractAdtsFrameSize (skipn (Z.to_nat e) raw) o
  = ExtractAdtsFrameSize raw (e + o).
Proof.
  intros. unfold ExtractAdtsFrameSize. rewrite !rd_skipn by lia.
  replace (e + (o + 5)) with (e + o + 5) by lia.
  replace (e + (o + 4)) with (e + o + 4) by lia.
  replace (e + (o + 3)) with (e + o + 3) by lia.
  reflexivity.
Qed.

Lemma SyncWordAt_skipn (e o size : Z) raw :
  0 <= e -> 0 <= o ->
  SyncWordAt (skipn (Z.to_nat e) raw) (size - e) o = SyncWordAt raw size (e + o).
Proof.
  intros He Ho. unfold SyncWordAt.
  rewrite isAdtsSyncWord_skipn, ExtractAdtsFrameSize_skipn by lia.
  destruct (isAdtsSyncWord raw (e + o)); cbn [negb]; [|reflexivity].
  destruct (Z.ltb_spec (ExtractAdtsFrameSize raw (e + o)) kAdtsHeaderMinSize);
    [reflexivity|].
  unfold kAdtsHeaderMinSize in *.
  rewrite isAdtsSyncWord_skipn by lia.
  replace (size - e - o) with (size - (e + o)) by lia.
  replace (e + (o + ExtractAdtsFrameSize raw (e + o)))
    with (e + o + ExtractAdtsFrameSize raw (e + o)) by lia.
  reflexivity.
Qed.

Lemma ScanSyncWord_skipn (e size : Z) raw (n : nat) :
  0 <= e ->
  forall o, 0 <= o ->
    ScanSyncWord n (skipn (Z.to_nat e) raw) (size - e) o =
    match ScanSyncWord n raw size (e + o) with
    | Some (x, fs) => Some (x - e, fs)
    | None => None
    end.
Proof.
  intros He. induction n as [|n IH]; intros o Ho; cbn [ScanSyncWord].
  - reflexivity.
  - rewrite SyncWordAt_skipn by lia.
    destruct (SyncWordAt raw size (e + o)).
    + f_equal. f_equal. lia.
    + rewrite IH by lia. replace (e + (o + 1)) with (e + o + 1) by lia.
      reflexivity.
Qed.

Lemma LookForSyncWord_skipn (e size pos : Z) raw :
  0 <= e -> 0 <= pos ->
  LookForSyncWord (skipn (Z.to_nat e) raw) (size - e) pos =
  match LookForSyncWord raw size (e + pos) with
  | SyncWordFound np fs => SyncWordFound (np - e) fs
  | SyncWordNotFound np => SyncWordNotFound (np - e)
  end.
Proof.
  intros He Hpos. unfold LookForSyncWord.
  destruct (Z.geb_spec pos (size - e - kAdtsHeaderMinSize)),
           (Z.geb_spec (e + pos) (size - kAdtsHeaderMinSize)); try lia.
  - f_equal. lia.
  - rewrite ScanSyncWord_skipn by lia.
    replace (Z.to_nat (size - e - kAdtsHeaderMinSize - pos))
      with (Z.to_nat (size - kAdtsHeaderMinSize - (e + pos))) by lia.
    destruct (ScanSyncWord _ raw size (e + pos)) as [[x fs]|];
      [reflexivity|]. f_equal. lia.
Qed.

Lemma ParseFrames_rebase (e : Z) (q : ByteQueue.t) raw size (fuel : nat) :
  0 <= e ->
  forall pos (p : EsParserAdts H) out,
    0 <= pos ->
    ParseFrames fuel (skipn (Z.to_nat e) raw) (size - e) pos (rebase e q p) out =
    match ParseFrames fuel raw size (e + pos) p out with
    | Some r => Some (FramesResult_map (rebase e q) (fun x => x - e) r)
    | None => None
    end.
Proof.
  intros He. induction fuel as [|fuel IH]; intros pos p out Hpos;
    cbn [ParseFrames]; [reflexivity|].
  rewrite LookForSyncWord_skipn by lia.
  destruct (LookForSyncWord raw size (e + pos)) as [np fs|np] eqn:L;
    [|reflexivity].
  apply LookForSyncWord_found in L. destruct L as (Bn & M).
  unfold kAdtsHeaderMinSize in *.
  replace (size - e - (np - e)) with (size - np) by lia.
  destruct (fs >? size - np); [reflexivity|].
  rewrite ParseFrame_rebase by lia.
  replace (e + (np - e)) with np by lia.
  destruct (ParseFrame p raw np fs) as [[[[] p1] o1]|]; try reflexivity.
  rewrite IH by lia. replace (e + (np - e + fs)) with (np + fs) by lia.
  reflexivity.
Qed.

Lemma ParseFrames_emitted_after raw size (fuel : nat) :
  forall pos (p : EsParserAdts H) out,
    ParseFrames fuel raw size pos p out =
    match ParseFrames fuel raw size pos p [] with
    | Some r => Some (FramesResult_emitted_after out r)
    | None => None
    end.
Proof.
  induction fuel as [|fuel IH]; intros pos p out; cbn [ParseFrames];
    [reflexivity|].
  destruct (LookForSyncWord raw size pos) as [np fs|np];
    [|cbn; rewrite app_nil_r; reflexivity].
  destruct (fs >? size - np); [cbn; rewrite app_nil_r; reflexivity|].
  destruct (ParseFrame p raw np fs) as [[[[] p1] o1]|]; try reflexivity.
  rewrite IH, (IH _ _ ([] ++ o1)). cbn [app].
  destruct (ParseFrames fuel raw size (np + fs) p1 []) as [[e p2 o2|p2 o2]|];
    cbn; rewrite ?app_assoc; reflexivity.
Qed.

(** ** A stream of complete frames and its prefixes *)

Lemma framed_bounds (B : list uint8) (pos : Z) :
  framed B pos -> 0 <= pos <= size_of B.
Proof.
  destruct 1.
  - pose proof (size_of_nonneg B). lia.
  - unfold kAdtsHeaderMinSize in *. lia.
Qed.

Lemma framed_inv (B : list uint8) (pos : Z) :
  framed B pos -> pos < size_of B ->
  isAdtsSyncWord B pos = true
  /\ kAdtsHeaderMinSize <= ExtractAdtsFrameSize B pos
  /\ pos + ExtractAdtsFrameSize B pos <= size_of B
  /\ framed B (pos + ExtractAdtsFrameSize B pos).
Proof.
  destruct 1; [lia|]. auto.
Qed.

Lemma isAdtsSyncWord_firstn (k o : Z) (B : list uint8) :
  0 <= o -> o + 1 < k ->
  isAdtsSyncWord (firstn (Z.to_nat k) B) o = isAdtsSyncWord B o.
Proof.
  intros. unfold isAdtsSyncWord. rewrite !rd_firstn by lia. reflexivity.
Qed.

Lemma ExtractAdtsFrameSize_firstn (k o : Z) (B : list uint8) :
  0 <= o -> o + 5 < k ->
  ExtractAdtsFrameSize (firstn (Z.to_nat k) B) o = ExtractAdtsFrameSize B o.
Proof.
  intros. unfold ExtractAdtsFrameSize. rewrite !rd_firstn by lia. reflexivity.
Qed.

(** In a prefix of a stream of frames, the frame at a frame boundary is
    found as soon as the search examines its offset, corroborated or not. *)
Lemma SyncWordAt_prefix (B : list uint8) (k pos : Z) :
  framed B pos -> pos + kAdtsHeaderMinSize < k -> k <= size_of B ->
  SyncWordAt (firstn (Z.to_nat k) B) k pos = Some (ExtractAdtsFrameSize B pos).
Proof.
  intros F Hk Hs. pose proof (framed_bounds B pos F) as Hb.
  unfold kAdtsHeaderMinSize in *.
  destruct (framed_inv B pos F ltac:(lia)) as (S & M & E & F').
  unfold kAdtsHeaderMinSize in *.
  unfold SyncWordAt.
  rewrite isAdtsSyncWord_firstn, ExtractAdtsFrameSize_firstn, S by lia.
  cbn [negb]. unfold kAdtsHeaderMinSize.
  destruct (Z.ltb_spec (ExtractAdtsFrameSize B pos) 7); [lia|].
  destruct (Z.geb_spec (k - pos) (ExtractAdtsFrameSize B pos + 2));
    cbn [andb]; [|reflexivity].
  rewrite isAdtsSyncWord_firstn by lia.
  destruct (framed_inv B _ F' ltac:(lia)) as (S' & _). rewrite S'.
  reflexivity.
Qed.

Lemma LookForSyncWord_prefix (B : list uint8) (k pos : Z) :
  framed B pos -> k <= size_of B ->
  LookForSyncWord (firstn (Z.to_nat k) B) k pos =
  if pos <? k - kAdtsHeaderMinSize
  then SyncWordFound pos (ExtractAdtsFrameSize B pos)
  else SyncWordNotFound pos.
Proof.
  intros F Hs. unfold LookForSyncWord.
  destruct (Z.geb_spec pos (k - kAdtsHeaderMinSize)),
           (Z.ltb_spec pos (k - kAdtsHeaderMinSize)); try lia; [reflexivity|].
  destruct (Z.to_nat (k - kAdtsHeaderMinSize - pos)) as [|n] eqn:E; [lia|].
  cbn [ScanSyncWord]. rewrite SyncWordAt_prefix by (auto; lia).
  reflexivity.
Qed.

Lemma slice_firstn (k pos fs : Z) (B : list uint8) :
  0 <= pos -> 0 <= fs -> pos + fs <= k ->
  firstn (Z.to_nat fs) (skipn (Z.to_nat pos) (firstn (Z.to_nat k) B))
  = firstn (Z.to_nat fs) (skipn (Z.to_nat pos) B).
Proof.
  intros. rewrite skipn_firstn_comm, firstn_firstn.
  f_equal. lia.
Qed.

Lemma ParseFrame_firstn (p : EsParserAdts H) (B : list uint8) (k pos fs : Z) :
  0 <= pos -> kAdtsHeaderMinSize <= fs -> pos + fs <= k ->
  ParseFrame p (firstn (Z.to_nat k) B) pos fs = ParseFrame p B pos fs.
Proof.
  unfold kAdtsHeaderMinSize. intros Hp Hf Hk. rewrite !ParseFrame_unfold.
  rewrite (UpdateAudioConfiguration_ext p (firstn (Z.to_nat k) B) pos B pos)
    by (apply rd_firstn; lia).
  destruct (UpdateAudioConfiguration p B pos) as [[[] p1] o]; [|reflexivity].
  destruct (audio_timestamp_helper_ p1); [|reflexivity].
  unfold sample_at. rewrite slice_firstn by lia. reflexivity.
Qed.

Lemma ParseFrames_enough raw size pos (p : EsParserAdts H) out (f1 f2 : nat) :
  helper_ok p ->
  (Z.to_nat (size - pos) < f1)%nat -> (Z.to_nat (size - pos) < f2)%nat ->
  ParseFrames f1 raw size pos p out = ParseFrames f2 raw size pos p out.
Proof.
  intros OK F1 F2.
  destruct (ParseFrames_total raw size (S (Z.to_nat (size - pos))) pos p out OK)
    as (r & R); [lia|].
  rewrite (ParseFrames_fuel _ _ _ f1 _ _ _ _ R) by lia.
  rewrite (ParseFrames_fuel _ _ _ f2 _ _ _ _ R) by lia.
  reflexivity.
Qed.

(** The loop on a prefix of a stream of frames stops at a frame boundary,
    and the loop on a longer prefix does the same up to there. *)
Lemma ParseFrames_prefix (B : list uint8) (k k' : Z) :
  k <= k' <= size_of B ->
  forall (f1 : nat) pos (f2 : nat) (p : EsParserAdts H) out,
    framed B pos -> pos <= k -> helper_ok p ->
    (Z.to_nat (k - pos) < f1)%nat -> (Z.to_nat (k' - pos) < f2)%nat ->
    match ParseFrames f1 (firstn (Z.to_nat k) B) k pos p out with
    | Some (FramesDone e p1 o1) =>
        pos <= e <= k /\ framed B e /\ helper_ok p1
        /\ ParseFrames f2 (firstn (Z.to_nat k') B) k' pos p out
           = ParseFrames f2 (firstn (Z.to_nat k') B) k' e p1 o1
        /\ (last_audio_decoder_config_ p1 = None ->
            e = pos /\ p1 = p /\ o1 = out)
    | Some (FramesFailed p1 o1) =>
        ParseFrames f2 (firstn (Z.to_nat k') B) k' pos p out
        = Some (FramesFailed p1 o1)
    | None => False
    end.
Proof.
  intros Hk. induction f1 as [|f1 IH]; intros pos f2 p out F Hpos OK F1 F2;
    [lia|].
  pose proof (framed_bounds B pos F) as Hb.
  cbn [ParseFrames]. rewrite LookForSyncWord_prefix by (auto; lia).
  unfold kAdtsHeaderMinSize.
  destruct (Z.ltb_spec pos (k - 7)) as [Lt|Ge].
  2: { repeat split; auto; lia. }
  destruct (framed_inv B pos F ltac:(lia)) as (Sy & M & E & F').
  unfold kAdtsHeaderMinSize in *.
  set (fs := ExtractAdtsFrameSize B pos) in *.
  destruct (Z.gtb_spec fs (k - pos)) as [Gt|Le].
  { repeat split; auto; lia. }
  destruct f2 as [|f2]; [lia|].
  cbn [ParseFrames]. rewrite LookForSyncWord_prefix by (auto; lia).
  unfold kAdtsHeaderMinSize. fold fs.
  replace (pos <? k' - 7) with true by lia.
  replace (fs >? k' - pos) with false by lia.
  rewrite !ParseFrame_firstn by (unfold kAdtsHeaderMinSize; lia).
  destruct (ParseFrame_total p B pos fs OK) as ([[[] p1] o1] & PF); rewrite PF.
  - destruct (ParseFrame_true _ _ _ _ _ _ OK PF) as (_ & _ & _ & OK1 & Cf & _).
    specialize (IH (pos + fs) f2 p1 (out ++ o1) F' ltac:(lia) OK1
                   ltac:(lia) ltac:(lia)).
    destruct (ParseFrames f1 _ k (pos + fs) p1 (out ++ o1))
      as [[e p2 o2|p2 o2]|]; [| exact IH | exact IH].
    destruct IH as (Be & Fe & OK2 & Eq & N).
    split; [lia|]. split; [exact Fe|]. split; [exact OK2|]. split.
    + rewrite Eq.
      assert (G1 : (Z.to_nat (k' - e) < f2)%nat) by lia.
      assert (G2 : (Z.to_nat (k' - e) < S f2)%nat) by lia.
      exact (ParseFrames_enough _ _ _ _ _ f2 (S f2) OK2 G1 G2).
    + intros N2. destruct (N N2) as (_ & -> & _). congruence.
  - reflexivity.
Qed.

(** ** One call or two *)

Lemma with_pts_list_id (p : EsParserAdts H) : with_pts_list p (pts_list_ p) = p.
Proof. destruct p; reflexivity. Qed.

Lemma rebase_0 (q : ByteQueue.t) (p : EsParserAdts H) :
  rebase 0 q p = with_queue p q.
Proof. unfold rebase. rewrite shift_pts_0, with_pts_list_id. reflexivity. Qed.

Lemma ParseFrames_with_queue (q : ByteQueue.t) raw size (fuel : nat) pos
    (p : EsParserAdts H) out :
  0 <= pos ->
  ParseFrames fuel raw size pos (with_queue p q) out =
  match ParseFrames fuel raw size pos p out with
  | Some r => Some (FramesResult_map (fun x => with_queue x q) (fun x => x) r)
  | None => None
  end.
Proof.
  intros Hpos.
  pose proof (ParseFrames_rebase 0 q raw size fuel (Z.le_refl 0) pos p out Hpos)
    as E.
  rewrite rebase_0, Z.sub_0_r in E. cbn [Z.to_nat skipn Z.add] in E.
  rewrite E. destruct (ParseFrames fuel raw size pos p out) as [[e p1 o|p1 o]|];
    cbn; rewrite ?rebase_0, ?Z.sub_0_r; reflexivity.
Qed.

Lemma Parse_start_DiscardEs (p : EsParserAdts H) (e : Z) (b : list uint8) :
  0 <= e ->
  Parse_start (DiscardEs p e) b kNoTimestamp
  = rebase e (skipn (Z.to_nat e) (es_byte_queue_ p) ++ b) p.
Proof.
  intros He. unfold Parse_start, DiscardEs, pushed_pts, rebase, ByteQueue.Pop.
  rewrite Z.eqb_refl.
  destruct (Z.leb_spec e 0).
  - replace e with 0 by lia. rewrite shift_pts_0, app_nil_r. reflexivity.
  - cbn. rewrite app_nil_r. reflexivity.
Qed.

Lemma DiscardEs_rebase (p : EsParserAdts H) (raw : list uint8) (e e2 : Z) :
  0 <= e <= e2 ->
  DiscardEs (rebase e (skipn (Z.to_nat e) raw) p) (e2 - e)
  = DiscardEs (with_queue p raw) e2.
Proof.
  intros He. unfold DiscardEs, rebase, ByteQueue.Pop.
  destruct (Z.leb_spec (e2 - e) 0), (Z.leb_spec e2 0); try lia.
  - replace e with 0 by lia. rewrite shift_pts_0, with_pts_list_id.
    reflexivity.
  - replace e2 with e by lia. reflexivity.
  - cbn. fold (shift_pts (e2 - e) (shift_pts e (pts_list_ p))).
    fold (shift_pts e2 (pts_list_ p)).
    rewrite shift_pts_shift, skipn_skipn.
    replace (e + (e2 - e)) with e2 by lia.
    replace (Z.to_nat (e2 - e) + Z.to_nat e)%nat with (Z.to_nat e2) by lia.
    reflexivity.
Qed.

Lemma Parse_start_app (s : EsParserAdts H) b1 b2 pts :
  Parse_start s (b1 ++ b2) pts
  = with_queue (Parse_start s b1 pts) ((es_byte_queue_ s ++ b1) ++ b2).
Proof. unfold Parse_start. cbn. rewrite app_assoc. reflexivity. Qed.

Lemma Parse_start_again (s : EsParserAdts H) b1 b2 pts :
  Parse_start (Parse_start s b1 pts) b2 kNoTimestamp
  = Parse_start s (b1 ++ b2) pts.
Proof.
  unfold Parse_start, pushed_pts. rewrite Z.eqb_refl. cbn.
  rewrite !app_nil_r, app_assoc. reflexivity.
Qed.

(** On a stream of frames, [Parse] on two consecutive pieces does what one
    [Parse] does on both. *)
Lemma Parse_merge (B : list uint8) (k' : Z) (s : EsParserAdts H)
    (b1 b2 : list uint8) (pts dts dts' : Z) :
  framed B 0 -> helper_ok s ->
  0 <= k' <= size_of B ->
  es_byte_queue_ s ++ b1 ++ b2 = firstn (Z.to_nat k') B ->
  exists ok s2 o ok1 s1 o1 ok2 o2,
    Parse s (b1 ++ b2) pts dts = Some (ok, s2, o)
    /\ Parse s b1 pts dts = Some (ok1, s1, o1)
    /\ Parse s1 b2 kNoTimestamp dts' = Some (ok2, s2, o2)
    /\ o = o1 ++ o2.
Proof.
  intros F OK Hk' E2.
  set (raw1 := es_byte_queue_ s ++ b1).
  set (raw2 := es_byte_queue_ s ++ b1 ++ b2) in *.
  assert (A2 : raw2 = raw1 ++ b2) by (unfold raw1, raw2; apply app_assoc).
  set (k := size_of raw1).
  assert (S2 : size_of raw2 = k').
  { rewrite E2. apply size_of_firstn. lia. }
  assert (Hk : 0 <= k <= k').
  { unfold k. rewrite <- S2, A2, size_of_app.
    pose proof (size_of_nonneg raw1). pose proof (size_of_nonneg b2). lia. }
  assert (E1 : raw1 = firstn (Z.to_nat k) B).
  { replace (firstn (Z.to_nat k) B)
      with (firstn (Z.to_nat k) (firstn (Z.to_nat k') B))
      by (rewrite firstn_firstn; f_equal; lia).
    rewrite <- E2, A2. unfold k, size_of. rewrite Nat2Z.id.
    rewrite firstn_app, Nat.sub_diag, firstn_all. cbn. rewrite app_nil_r.
    reflexivity. }
  set (P1 := Parse_start s b1 pts).
  assert (OK1 : helper_ok P1) by (apply helper_ok_start, OK).
  rewrite !Parse_unfold. cbv zeta. fold raw1 raw2. fold P1.
  rewrite Parse_start_app. fold raw1 P1. rewrite <- A2.
  rewrite ParseFrames_with_queue by lia.
  pose proof (ParseFrames_prefix B k k' ltac:(lia) (S (length raw1)) 0
                (S (length raw2)) P1 [] F ltac:(lia) OK1) as Pre.
  rewrite <- E1, <- E2 in Pre. fold k in Pre.
  specialize (Pre ltac:(unfold k, size_of; lia)
                  ltac:(rewrite <- S2; unfold size_of; lia)).
  rewrite S2. fold k.
  destruct (ParseFrames (S (length raw1)) raw1 k 0 P1 [])
    as [[e p1 o1|p1 o1]|] eqn:L1; [| |contradiction].
  - destruct Pre as (Be & Fe & OKp1 & -> & N).
    assert (H0k : 0 <= k) by lia. assert (Hek : e <= k') by lia.
    pose proof (ParseFrames_inv _ _ _ _ _ _ _ OK1 H0k L1)
      as (_ & _ & _ & Q1 & _).
    change (es_byte_queue_ P1) with raw1 in Q1.
    rewrite ParseFrames_emitted_after.
    destruct (ParseFrames_total raw2 k' (S (length raw2)) e p1 [] OKp1)
      as (r & R).
    { rewrite <- S2. unfold size_of. lia. }
    rewrite R.
    pose proof (ParseFrames_inv _ _ _ _ _ _ _ OKp1 Hek R) as Inv.
    (* the second call *)
    assert (E3 : skipn (Z.to_nat e) raw1 ++ b2 = skipn (Z.to_nat e) raw2).
    { rewrite A2, skipn_app.
      replace (Z.to_nat e - length raw1)%nat with 0%nat
        by (unfold k, size_of in Be; lia).
      reflexivity. }
    assert (Second :
      forall dts0,
        Parse (DiscardEs p1 e) b2 kNoTimestamp dts0 =
        match FramesResult_map (rebase e (skipn (Z.to_nat e) raw2))
                (fun x => x - e) r with
        | FramesFailed p3 out => Some (false, p3, out)
        | FramesDone es_position p3 out =>
            Some (true, DiscardEs p3 es_position, out)
        end).
    { intros dts0. rewrite Parse_unfold. cbv zeta.
      rewrite Parse_start_DiscardEs by lia. rewrite Q1.
      assert (Qd : es_byte_queue_ (DiscardEs p1 e) = skipn (Z.to_nat e) raw1).
      { unfold DiscardEs, ByteQueue.Pop.
        destruct (Z.leb_spec e 0); cbn; rewrite Q1; [|reflexivity].
        replace e with 0 by lia. reflexivity. }
      rewrite Qd, E3.
      replace (size_of (skipn (Z.to_nat e) raw2)) with (k' - e)
        by (rewrite size_of_skipn; lia).
      rewrite ParseFrames_rebase by lia. rewrite Z.add_0_r.
      rewrite (ParseFrames_enough raw2 k' e p1 [] _ (S (length raw2)) OKp1).
      - rewrite R. reflexivity.
      - rewrite length_skipn. unfold size_of in S2. lia.
      - unfold size_of in S2. lia. }
    destruct r as [e2 p2 o2|p2 o2].
    + destruct Inv as (Be2 & _).
      eexists true, _, (o1 ++ o2), true, (DiscardEs p1 e), o1, true, o2.
      split; [reflexivity|]. split; [reflexivity|]. split; [|reflexivity].
      rewrite (Second dts'). cbn [FramesResult_map].
      rewrite DiscardEs_rebase by lia. reflexivity.
    + destruct Inv as (-> & -> & N1).
      destruct (N N1) as (-> & -> & ->).
      eexists false, _, _, true, (DiscardEs P1 0), [], false, [].
      split; [reflexivity|]. split; [reflexivity|]. split; [|reflexivity].
      rewrite (Second dts'). cbn [FramesResult_map Z.to_nat skipn].
      rewrite rebase_0. reflexivity.
  - rewrite Pre. assert (H0k : 0 <= k) by lia.
    pose proof (ParseFrames_inv _ _ _ _ _ _ _ OK1 H0k L1)
      as (-> & -> & _).
    eexists false, _, [], false, P1, [], false, [].
    split; [reflexivity|]. split; [reflexivity|]. split; [|reflexivity].
    rewrite Parse_unfold. cbv zeta.
    change (es_byte_queue_ P1) with raw1. rewrite <- A2.
    unfold P1 at 1. rewrite Parse_start_again, Parse_start_app.
    fold raw1 P1. rewrite <- A2.
    rewrite ParseFrames_with_queue by lia. rewrite S2, Pre. reflexivity.
Qed.

(** ** Any number of calls *)

Lemma rd_app_r (a b : list uint8) (i : Z) :
  0 <= i -> rd (a ++ b) (size_of a + i) = rd b i.
Proof.
  intros Hi. unfold rd, size_of. rewrite app_nth2 by lia.
  do 2 f_equal. lia.
Qed.

Lemma framed_concat (frames : list (list uint8)) :
  Forall (fun f => is_adts_frame f = true) frames ->
  forall pre, framed (pre ++ concat frames) (size_of pre).
Proof.
  induction 1 as [|f frames Hf _ IH]; intros pre; cbn [concat].
  - rewrite app_nil_r. constructor.
  - unfold is_adts_frame in Hf.
    apply andb_prop in Hf. destruct Hf as (Hf & Hm).
    apply andb_prop in Hf. destruct Hf as (Hs & He).
    apply Z.eqb_eq in He. apply Z.leb_le in Hm. unfold kAdtsHeaderMinSize in *.
    assert (Rd : forall i, 0 <= i < size_of f ->
                 rd (pre ++ f ++ concat frames) (size_of pre + i) = rd f i).
    { intros i Hi. rewrite rd_app_r by lia. apply rd_app_l. lia. }
    assert (Es : ExtractAdtsFrameSize (pre ++ f ++ concat frames) (size_of pre)
                 = size_of f).
    { rewrite <- He. unfold ExtractAdtsFrameSize.
      rewrite !Rd by lia. reflexivity. }
    apply framed_frame.
    + apply size_of_nonneg.
    + rewrite <- Hs. unfold isAdtsSyncWord.
      rewrite (Rd 1) by lia.
      replace (rd (pre ++ f ++ concat frames) (size_of pre))
        with (rd f 0); [reflexivity|].
      rewrite <- (Rd 0) by lia. f_equal. lia.
    + rewrite Es. unfold kAdtsHeaderMinSize. lia.
    + rewrite Es, !size_of_app. pose proof (size_of_nonneg (concat frames)).
      lia.
    + rewrite Es, <- size_of_app, app_assoc. apply IH.
Qed.

Lemma Run_chunks (B : list uint8) (pts dts : Z) :
  framed B 0 ->
  forall (more : list (list uint8)) (first : list uint8) (s : EsParserAdts H),
    helper_ok s ->
    es_byte_queue_ s ++ first ++ concat more = B ->
    exists ok s' out oks,
      Parse s (first ++ concat more) pts dts = Some (ok, s', out)
      /\ Run (ParseChunks first more pts dts) s = Some (s', oks, out).
Proof.
  intros F. unfold ParseChunks.
  induction more as [|c more IH]; intros first s OK E; cbn [concat map Run].
  - rewrite app_nil_r in *.
    pose proof (firstn_all B) as Fa.
    destruct (Parse_merge B (size_of B) s first [] pts dts dts F OK) as
      (ok & s2 & o & _ & _ & _ & _ & _ & P & _).
    { pose proof (size_of_nonneg B). lia. }
    { unfold size_of. rewrite Nat2Z.id, Fa, app_nil_r. exact E. }
    rewrite app_nil_r in P. rewrite P.
    exists ok, s2, o, [ok]. rewrite app_nil_r. auto.
  - cbn [concat] in E. specialize (IH (first ++ c) s OK).
    rewrite <- app_assoc in IH. specialize (IH E).
    destruct IH as (ok & s' & out & oks & P & R).
    cbn [Run] in R.
    assert (Pre : es_byte_queue_ s ++ first ++ c
                  = firstn (Z.to_nat (size_of (es_byte_queue_ s ++ first ++ c))) B).
    { rewrite <- E. unfold size_of. rewrite Nat2Z.id.
      replace (es_byte_queue_ s ++ first ++ c ++ concat more)
        with ((es_byte_queue_ s ++ first ++ c) ++ concat more)
        by (rewrite <- !app_assoc; reflexivity).
      rewrite firstn_app, Nat.sub_diag, firstn_all. cbn. rewrite app_nil_r.
      reflexivity. }
    assert (Hb : 0 <= size_of (es_byte_queue_ s ++ first ++ c) <= size_of B).
    { split; [apply size_of_nonneg|]. rewrite <- E, !size_of_app.
      pose proof (size_of_nonneg (concat more)). lia. }
    destruct (Parse_merge B _ s first c pts dts kNoTimestamp F OK Hb Pre)
      as (ok_a & s_a & o_a & ok1 & s1 & o1 & ok2 & o2 & Pa & P1 & P2 & Eo).
    rewrite Pa in R. rewrite P1, P2.
    destruct (Run _ s_a) as [[[s3 oks3] o3]|]; [|discriminate].
    injection R as <- <- <-.
    exists ok, s3, (o_a ++ o3), (ok1 :: ok2 :: oks3).
    split; [exact P|].
    rewrite Eo, <- app_assoc. reflexivity.
Qed.

(** C1, as the code has it.  A candidate frame that cannot be corroborated
    yet is accepted, so where the calls are split matters in general.  For a
    byte sequence that is a concatenation of complete ADTS frames, feeding a
    new parser with one [Parse] call or with the same bytes split into any
    number of consecutive calls, the timestamp going with the first one, makes
    the same calls on the callbacks, in the same order and with the same
    payloads, pts, dts and durations, and leaves the same parser. *)
Theorem chunk_independence_on_frames (track : Z) (sbr : bool)
    (frames : list (list uint8)) (first : list uint8)
    (more : list (list uint8)) (pts dts : Z) :
  Forall (fun f => is_adts_frame f = true) frames ->
  first ++ concat more = concat frames ->
  exists (p : EsParserAdts H) ok oks out,
    Parse (NewEsParserAdts track sbr) (concat frames) pts dts
      = Some (ok, p, out)
    /\ Run (ParseChunks first more pts dts) (NewEsParserAdts track sbr)
      = Some (p, oks, out).
Proof.
  intros Fr E.
  pose proof (framed_concat frames Fr []) as F. cbn in F.
  destruct (New_ok track sbr) as (OK & _).
  destruct (Run_chunks (concat frames) pts dts F more first
              (NewEsParserAdts track sbr) OK E)
    as (ok & s' & out & oks & P & R).
  rewrite E in P. exists s', ok, oks, out. auto.
Qed.

(** ** The timestamps of the samples of a call *)

Lemma DiscardEs_fields (p : EsParserAdts H) (e : Z) :
  0 <= e ->
  es_byte_queue_ (DiscardEs p e) = skipn (Z.to_nat e) (es_byte_queue_ p)
  /\ pts_list_ (DiscardEs p e) = shift_pts e (pts_list_ p)
  /\ audio_timestamp_helper_ (DiscardEs p e) = audio_timestamp_helper_ p.
Proof.
  intros He. unfold DiscardEs, ByteQueue.Pop.
  destruct (Z.leb_spec e 0).
  - replace e with 0 by lia. rewrite shift_pts_0. auto.
  - auto.
Qed.

(** The loop of [Parse] emits the frames found, timed as [timed_frames]
    says from the pending timestamps and the helper that the configuration
    step of the first frame leaves, and ends with the timestamps and the
    helper that [timed_frames] leaves. *)
Lemma ParseFrames_timed (raw : list uint8) (size : Z) (fuel : nat) :
  forall pos (p : EsParserAdts H) out r,
    helper_ok p ->
    StronglySorted pts_le (pts_list_ p) ->
    ParseFrames fuel raw size pos p out = Some r ->
    match FramesFound fuel raw size pos with
    | [] => exists e, r = FramesDone e p out
    | (start, _) :: _ =>
        match UpdateAudioConfiguration p raw start with
        | (false, _, _) => r = FramesFailed p out
        | (true, p0, cfg) =>
            exists h0 e p',
              audio_timestamp_helper_ p0 = Some h0
              /\ r = FramesDone e p'
                       (out ++ cfg
                        ++ map (timed_sample raw)
                             (fst (fst (timed_frames
                                          (FramesFound fuel raw size pos)
                                          (pts_list_ p) h0))))
              /\ pts_list_ p'
                 = snd (fst (timed_frames (FramesFound fuel raw size pos)
                               (pts_list_ p) h0))
              /\ audio_timestamp_helper_ p'
                 = Some (snd (timed_frames (FramesFound fuel raw size pos)
                                (pts_list_ p) h0))
        end
    end.
Proof.
  induction fuel as [|fuel IH]; intros pos p out r OK So; [discriminate|].
  cbn [ParseFrames FramesFound].
  destruct (LookForSyncWord raw size pos) as [np fs|np].
  2: { intros [= <-]. eauto. }
  destruct (fs >? size - np).
  { intros [= <-]. eauto. }
  rewrite ParseFrame_unfold.
  destruct (UpdateAudioConfiguration p raw np) as [[[] p0] cfg] eqn:U.
  2: { apply UpdateAudioConfiguration_false in U.
       destruct U as (-> & -> & _). rewrite app_nil_r.
       intros [= <-]. reflexivity. }
  destruct (UpdateAudioConfiguration_true _ _ _ _ _ OK U)
    as (_ & _ & _ & L & Cf & _).
  destruct (audio_timestamp_helper_ p0) as [h0|] eqn:Hh; [|discriminate].
  cbv zeta. rewrite L.
  destruct (ApplyPts_sorted (pts_list_ p) np h0 So) as (A1 & A2).
  fold (still_pending np (pts_list_ p)) in A1.
  fold (applicable np (pts_list_ p)) in A2.
  rewrite A1, A2.
  set (h1 := fold_left set_base (applicable np (pts_list_ p)) h0).
  set (p1 := with_helper (with_pts_list p0 (still_pending np (pts_list_ p)))
               (Some (AddFrames kSamplesPerAACFrame h1))).
  intros R.
  assert (OK1 : helper_ok p1) by (intros _; discriminate).
  assert (So1 : StronglySorted pts_le (pts_list_ p1)).
  { cbn. unfold still_pending. clear - So.
    induction So as [|a l _ IHl Fa]; cbn; [constructor|].
    destruct (negb (fst a <=? np)); [|exact IHl].
    constructor; [exact IHl|].
    apply Forall_forall. intros x Hx. apply filter_In in Hx.
    rewrite Forall_forall in Fa. apply Fa, Hx. }
  specialize (IH _ _ _ _ OK1 So1 R).
  exists h0. cbn [timed_frames]. fold h1.
  change (pts_list_ p1) with (still_pending np (pts_list_ p)) in IH.
  destruct (FramesFound fuel raw size (np + fs)) as [|[s1 f1] rest] eqn:FF.
  - destruct IH as (e & ->). cbn [timed_frames fst snd map].
    exists e, p1. split; [reflexivity|]. split; [|split; reflexivity].
    reflexivity.
  - destruct (last_audio_decoder_config_ p1) as [c|] eqn:C1;
      [|exfalso; apply Cf; exact C1].
    rewrite (UpdateAudioConfiguration_set p1 raw s1 c C1) in IH.
    destruct IH as (h0' & e & p' & Hh' & -> & Lp & Hp).
    cbn in Hh'. injection Hh' as <-.
    destruct (timed_frames ((s1, f1) :: rest) (still_pending np (pts_list_ p))
                (AddFrames kSamplesPerAACFrame h1)) as [[timed rest_pending] h'].
    cbn [fst snd map] in *.
    exists e, p'. split; [reflexivity|]. split; [|split; assumption].
    f_equal. rewrite <- !app_assoc. reflexivity.
Qed.

(** C8.  A [Parse] on a reachable parser returns, and its samples are timed
    from the pending timestamps as the specification says.  The timestamps
    pending in the call are those pending before, followed, when a pts is
    supplied, by that pts recorded at the length of the unconsumed region
    before the new bytes are appended.  The frames emitted are the complete
    frames found in the queue, in order.  When there is none, nothing is
    emitted and every pending timestamp stays.  When the configuration step
    refuses the first one, the call returns false, nothing is emitted and
    every pending timestamp stays.  Otherwise the callback calls are those of
    the configuration step followed by one sample for every frame, timed as
    [timed_frames] says: before a frame is emitted every pending timestamp
    recorded at or before its start is removed and set as the base, the last
    one removed being the one that stays, and the pts and dts of the sample
    are read from the helper so based.  After the call the timestamps that
    no frame has removed are pending, their offsets moved by the bytes
    discarded, and the helper is the one that the last frame leaves.  The
    second part says what setting the removed timestamps one after the other
    amounts to. *)
Theorem pending_timestamps_recorded_and_applied :
  (forall (p : EsParserAdts H) (buf : list uint8) (pts dts : Z),
      Reachable p ->
      let raw := es_byte_queue_ p ++ buf in
      let pending :=
        pts_list_ p
        ++ (if pts =? kNoTimestamp then []
            else [(size_of (es_byte_queue_ p), pts)]) in
      let frames := FramesFound (S (length raw)) raw (size_of raw) 0 in
      exists ok p' out dropped,
        Parse p buf pts dts = Some (ok, p', out)
        /\ 0 <= dropped
        /\ es_byte_queue_ p' = skipn (Z.to_nat dropped) raw
        /\ match frames with
           | [] =>
               ok = true /\ out = []
               /\ pts_list_ p' = shift_pts dropped pending
               /\ audio_timestamp_helper_ p' = audio_timestamp_helper_ p
           | (start, _) :: _ =>
               match UpdateAudioConfiguration
                       (Parse_start p buf pts) raw start with
               | (false, _, _) =>
                   ok = false /\ out = [] /\ dropped = 0
                   /\ pts_list_ p' = pending
                   /\ audio_timestamp_helper_ p' = audio_timestamp_helper_ p
               | (true, p0, cfg) =>
                   exists h0,
                     audio_timestamp_helper_ p0 = Some h0
                     /\ match timed_frames frames pending h0 with
                        | (timed, rest_pending, h') =>
                            ok = true
                            /\ out = cfg ++ map (timed_sample raw) timed
                            /\ pts_list_ p' = shift_pts dropped rest_pending
                            /\ audio_timestamp_helper_ p' = Some h'
                        end
               end
           end)
  /\ (forall (removed : list EsPts) (e : EsPts) (h : H),
        fold_left set_base (removed ++ [e]) h
        = SetBaseTimestamp (snd e) (fold_left set_base removed h)).
Proof.
  split; [|intros removed e h; rewrite fold_left_app; reflexivity].
  intros p buf pts dts R raw pending frames.
  destruct (Reachable_ok p R) as (OK & PK).
  pose proof (helper_ok_start p buf pts OK) as OKs.
  destruct (pts_ok_start p buf pts PK) as (So & _).
  rewrite Parse_unfold. cbv zeta. fold raw.
  destruct (ParseFrames_total raw (size_of raw) (S (length raw)) 0
              (Parse_start p buf pts) [] OKs) as (r & E).
  { unfold size_of. lia. }
  rewrite E.
  pose proof (ParseFrames_inv _ _ _ _ _ _ _ OKs (size_of_nonneg raw) E) as Inv.
  pose proof (ParseFrames_timed _ _ _ _ _ _ _ OKs So E) as T.
  fold frames in T.
  change (pts_list_ (Parse_start p buf pts)) with pending in T.
  destruct frames as [|[start fs0] rest].
  - destruct T as (e & ->). destruct Inv as (Be & _).
    destruct (DiscardEs_fields (Parse_start p buf pts) e) as (Q & L & Hh);
      [lia|].
    exists true, (DiscardEs (Parse_start p buf pts) e), [], e.
    split; [reflexivity|]. split; [lia|]. split; [exact Q|].
    split; [reflexivity|]. split; [reflexivity|]. split; [exact L|exact Hh].
  - destruct (UpdateAudioConfiguration (Parse_start p buf pts) raw start)
      as [[[] p0] cfg].
    + destruct T as (h0 & e & p' & Hh0 & -> & Lp & Hp).
      destruct Inv as (Be & _ & _ & Q & _).
      destruct (DiscardEs_fields p' e) as (Q' & L' & Hh'); [lia|].
      exists true, (DiscardEs p' e),
        (cfg ++ map (timed_sample raw)
                  (fst (fst (timed_frames ((start, fs0) :: rest) pending h0)))),
        e.
      split; [reflexivity|]. split; [lia|].
      split; [rewrite Q', Q; reflexivity|].
      exists h0. split; [exact Hh0|].
      destruct (timed_frames ((start, fs0) :: rest) pending h0)
        as [[timed rest_pending] h'].
      cbn [fst snd] in *.
      split; [reflexivity|]. split; [reflexivity|].
      split; [rewrite L', Lp; reflexivity|]. rewrite Hh'. exact Hp.
    + subst r.
      exists false, (Parse_start p buf pts), [], 0.
      split; [reflexivity|]. split; [lia|]. split; [reflexivity|].
      repeat split; reflexivity.
Qed.

End Parser.

(** C3 at the failing input: with the extended-sample-rate flag set and a
    first header of frequency index 4, the configuration built and handed to
    the callback records 44100, the rate of the table, while the extended
    rate that the function computes next to it is 48000. *)
Theorem configuration_ignores_extended_rate :
  ExtractAdtsFrequencyIndex frame8 0 = 4
  /\ extended_rate true (table_at kAdtsFrequencyTable 4) = 48000
  /\ exists p c,
      UpdateAudioConfiguration (example_parser true) frame8 0 =
      (true, p, [ConfigurationReady c])
      /\ last_audio_decoder_config_ p = Some c
      /\ asi_sampling_frequency c = 44100.
Proof.
  split; [reflexivity|]. split; [reflexivity|].
  eexists _, _. split; [reflexivity|]. split; reflexivity.
Qed.

(** ** The claims at concrete inputs *)


(** Two timestamps recorded before the first byte of a frame, a third one
    recorded three bytes into it, and a second frame behind: the first
    sample is timed from the second timestamp, the one recorded last at its
    start, the second sample from the third, and none stays pending. *)
Lemma pending_timestamps_witness :
  exists p,
    Run [CallParse [] 400 400; CallParse (firstn 3 frame8) 500 500]
        (example_parser false) = Some (p, [true; true], [])
    /\ pts_list_ p = [(0, 400); (0, 500)]
    /\ exists p' out,
        Parse p (skipn 3 frame8 ++ frame9) 1000 1000 = Some (true, p', out)
        /\ emitted_pts out = [500; 1000]
        /\ pts_list_ p' = [].
Proof.
  eexists. split; [vm_compute; reflexivity|]. split; [reflexivity|].
  match goal with
  | |- exists p' out, Parse ?p _ _ _ = _ /\ _ =>
      assert (R : Reachable p)
        by (exists 1, false,
              [CallParse [] 400 400; CallParse (firstn 3 frame8) 500 500],
              [true; true], []; vm_compute; reflexivity);
      pose proof (proj1 (@pending_timestamps_recorded_and_applied
                           TickHelper TickHelperOps)
                    p (skipn 3 frame8 ++ frame9) 1000 1000 R) as W
  end.
  cbv zeta in W. destruct W as (ok & p' & out & dropped & E & _ & _ & M).
  vm_compute in M. destruct M as (h0 & _ & -> & -> & L & _).
  exists p'. eexists. split; [exact E|]. split; [reflexivity|exact L].
Defined.

(** One configuration for two frames, the second with a reserved frequency
    index: both calls succeed. *)
Example reserved_index_after_configuration :
  exists p c m1 m2,
    Run [CallParse frame9 1000 1000;
         CallParse frame8_reserved kNoTimestamp kNoTimestamp]
        (example_parser false)
    = Some (p, [true; true],
            [ConfigurationReady c; SampleReady m1; SampleReady m2])
    /\ last_audio_decoder_config_ p = Some c
    /\ asi_sampling_frequency c = 44100
    /\ ms_data m1 = frame9 /\ ms_data m2 = frame8_reserved.
Proof. eexists _, _, _, _. repeat split. Qed.

Lemma one_configuration_witness :
  let calls := [CallParse frame9 1000 1000;
                CallParse frame8_reserved kNoTimestamp kNoTimestamp;
                CallFlush;
                CallParse frame9 kNoTimestamp kNoTimestamp] in
  Reachable (example_parser false)
  /\ forallb (fun c => negb (is_Reset c)) calls = true
  /\ exists p oks out,
      Run calls (example_parser false) = Some (p, oks, out)
      /\ (configurations out <= 1)%nat.
Proof.
  cbv zeta.
  assert (R : Reachable (example_parser false)).
  { exists 1, false, [], [], []. reflexivity. }
  split; [exact R|]. split; [reflexivity|].
  destruct (proj1 (@one_configuration_per_epoch TickHelper TickHelperOps)
              (example_parser false) _ R
              (eq_refl : forallb (fun c => negb (is_Reset c))
                           [CallParse frame9 1000 1000;
                            CallParse frame8_reserved kNoTimestamp kNoTimestamp;
                            CallFlush;
                            CallParse frame9 kNoTimestamp kNoTimestamp] = true))
    as (p & oks & out & E & L & _).
  exists p, oks, out. split; assumption.
Defined.

(** The inputs that do not make [Parse] fail, and the one that does. *)
Example Parse_garbage_succeeds :
  exists p, Parse (example_parser false) (repeat x41 30) kNoTimestamp 0
            = Some (true, p, []).
Proof. eexists. reflexivity. Qed.

Example Parse_short_buffer_succeeds :
  exists p, Parse (example_parser false) [xff; xf1; x50] kNoTimestamp 0
            = Some (true, p, [])
            /\ es_byte_queue_ p = [xff; xf1; x50].
Proof. eexists. split; reflexivity. Qed.

Example Parse_partial_frame_succeeds :
  exists p, Parse (example_parser false) (firstn 8 frame9) kNoTimestamp 0
            = Some (true, p, [])
            /\ es_byte_queue_ p = firstn 8 frame9.
Proof. eexists. split; reflexivity. Qed.

Example Parse_reserved_index_fails :
  Parse (example_parser false) frame8_reserved 1000 1000
  = Some (false, Parse_start (example_parser false) frame8_reserved 1000, []).
Proof. reflexivity. Qed.

Lemma Parse_sole_failure_witness :
  Reachable (example_parser false)
  /\ exists ok p' out,
      Parse (example_parser false) frame8_reserved 1000 1000
      = Some (ok, p', out)
      /\ (ok = false <->
          last_audio_decoder_config_ (example_parser false) = None
          /\ first_frame_invalid
               (es_byte_queue_ (example_parser false) ++ frame8_reserved) = true).
Proof.
  assert (R : Reachable (example_parser false)).
  { exists 1, false, [], [], []. reflexivity. }
  split; [exact R|].
  destruct (@Parse_sole_failure TickHelper TickHelperOps
              (example_parser false) frame8_reserved 1000 1000 R)
    as (ok & p' & out & E & I & _).
  exists ok, p', out. split; assumption.
Defined.

(** C2 as stated fails: a frame fed without pts, then one with pts 9000.
    The first sample has the pts of a helper without base the first time, and
    after [Reset] the pts that continues the timeline of the first run. *)
Lemma refeed_after_Reset_shifts_pts :
  exists p oks out p' out',
    Run [CallParse frame9 kNoTimestamp kNoTimestamp; CallParse frame9 9000 9000]
        (example_parser false) = Some (p, oks, out)
    /\ Run [CallParse frame9 kNoTimestamp kNoTimestamp; CallParse frame9 9000 9000]
           (Reset p) = Some (p', oks, out')
    /\ emitted_pts out = [kNoTimestamp; 9000]
    /\ emitted_pts out' = [11089; 9000].
Proof. eexists _, _, _, _, _. repeat split. Qed.

Lemma Reset_then_refeed_witness :
  let calls := [CallParse (frame9 ++ firstn 4 frame8) 1000 1000;
                CallParse (skipn 4 frame8) kNoTimestamp kNoTimestamp;
                CallFlush;
                CallParse frame9 5000 5000] in
  @base_overrides TickHelper TickHelperOps
  /\ first_has_pts calls = true
  /\ no_Reset calls = true
  /\ exists p oks out p' out',
      Run calls (example_parser false) = Some (p, oks, out)
      /\ Run calls (Reset p) = Some (p', oks, out')
      /\ out' = out.
Proof.
  cbv zeta.
  assert (Law : @base_overrides TickHelper TickHelperOps).
  { intros b b' h. reflexivity. }
  split; [exact Law|]. split; [reflexivity|]. split; [reflexivity|].
  destruct (@Reset_then_refeed TickHelper TickHelperOps 1 false
              [CallParse (frame9 ++ firstn 4 frame8) 1000 1000;
               CallParse (skipn 4 frame8) kNoTimestamp kNoTimestamp;
               CallFlush;
               CallParse frame9 5000 5000])
    as (p & oks & out & p' & out' & R & R' & _ & E).
  exists p, oks, out, p', out'. split; [exact R|]. split; [exact R'|].
  apply E; [exact Law|reflexivity|reflexivity].
Defined.

(** C1 as stated fails: a frame of eight bytes followed by two zero bytes.
    In one call the frame is not corroborated and nothing is emitted; when the
    first call ends with the frame, the frame is accepted and emitted. *)
Lemma chunk_split_changes_emissions :
  exists p out p' oks out',
    Parse (example_parser false) (frame8 ++ [x00; x00]) 1000 1000
      = Some (true, p, out)
    /\ Run (ParseChunks frame8 [[x00; x00]] 1000 1000) (example_parser false)
      = Some (p', oks, out')
    /\ out = []
    /\ length out' = 2%nat
    /\ emitted_pts out' = [1000].
Proof. eexists _, _, _, _, _. repeat split. Qed.

Lemma chunk_independence_witness :
  let frames := [frame9; frame8; frame9] in
  let first := firstn 5 (concat frames) in
  let more := [firstn 10 (skipn 5 (concat frames));
               [];
               skipn 15 (concat frames)] in
  Forall (fun f => is_adts_frame f = true) frames
  /\ first ++ concat more = concat frames
  /\ exists (p : EsParserAdts TickHelper) ok oks out,
      Parse (example_parser true) (concat frames) 1000 1000 = Some (ok, p, out)
      /\ Run (ParseChunks first more 1000 1000) (example_parser true)
         = Some (p, oks, out).
Proof.
  cbv zeta.
  assert (Fr : Forall (fun f => is_adts_frame f = true) [frame9; frame8; frame9]).
  { repeat constructor. }
  split; [exact Fr|]. split; [reflexivity|].
  exact (@chunk_independence_on_frames TickHelper TickHelperOps 1 true
           [frame9; frame8; frame9]
           (firstn 5 (concat [frame9; frame8; frame9]))
           [firstn 10 (skipn 5 (concat [frame9; frame8; frame9]));
            [];
            skipn 15 (concat [frame9; frame8; frame9])]
           1000 1000 Fr eq_refl).
Defined.

End AdtsProps.

(** * Properties of the container walker *)

Module WebMProps.
Import WebM.

Section Walker.

Context {C : Collaborators}.









(** C7, as the code has it.  [Parse] before [Init] is excluded by a DCHECK
    only.  In [kWaitingForInit] it appends the supplied bytes to the byte
    queue, changes nothing else and runs no callback; it returns false when
    the queue is not empty after the append, and true when it is. *)
Theorem Parse_before_Init (fuel : nat) (s : WebMMediaParser) (buf : list uint8) :
  state_ s = kWaitingForInit ->
  Parse (S fuel) s buf =
  Some (size_of (byte_queue_ s ++ buf) <=? 0,
        with_byte_queue s (byte_queue_ s ++ buf),
        []).
Proof.
  intros E. unfold Parse. rewrite E. cbn [State_eqb ByteQueue.Peek snd].
  cbn [ParseLoop byte_queue_ with_byte_queue ByteQueue.Push].
  unfold ByteQueue.Push.
  destruct (size_of (byte_queue_ s ++ buf) >? 0) eqn:G.
  - cbn. rewrite E.
    replace (size_of (byte_queue_ s ++ buf) <=? 0) with false by lia.
    reflexivity.
  - replace (size_of (byte_queue_ s ++ buf) <=? 0) with true by lia.
    reflexivity.
Qed.

End Walker.

(** A cluster element met before any info and tracks, and an element id that
    is not expected at the top level: both move the walker to [kError]. *)
Example cluster_before_tracks :
  Parse 4 started [x1f; x43; xb6; x75; x00] = Some (false, failed, []).
Proof. reflexivity. Qed.

Example unexpected_element_id :
  exists s, Parse 4 started [x12; x34; x56; x78; x00] = Some (false, s, [])
            /\ state_ s = kError.
Proof. eexists. split; reflexivity. Qed.


(** C7 as stated fails: before [Init], [Parse] keeps the bytes it is given in
    the byte queue, and with nothing to parse it returns true. *)
Lemma Parse_before_Init_buffers :
  state_ NewWebMMediaParser = kWaitingForInit
  /\ (exists s, Parse 1 NewWebMMediaParser [x1a] = Some (false, s, [])
                /\ byte_queue_ s = [x1a]
                /\ byte_queue_ s <> byte_queue_ NewWebMMediaParser)
  /\ (exists s, Parse 1 NewWebMMediaParser [] = Some (true, s, [])).
Proof.
  split; [reflexivity|]. split.
  - eexists. split; [reflexivity|]. split; [reflexivity|]. discriminate.
  - eexists. reflexivity.
Qed.

Lemma Parse_before_Init_witness :
  state_ NewWebMMediaParser = kWaitingForInit
  /\ Parse 1 NewWebMMediaParser [x1a] =
     Some (size_of (byte_queue_ NewWebMMediaParser ++ [x1a]) <=? 0,
           with_byte_queue NewWebMMediaParser
             (byte_queue_ NewWebMMediaParser ++ [x1a]),
           []).
Proof.
  split; [reflexivity|].
  apply (Parse_before_Init 0 NewWebMMediaParser [x1a]). reflexivity.
Defined.

End WebMProps.

(** * Further properties of the elementary-stream parser *)

Module AdtsMore.
Import Adts AdtsProps.

(** ** The header fields *)

Lemma u8_range (b : uint8) : 0 <= u8 b <= 255.
Proof. unfold u8. destruct b; cbn; lia. Qed.

Lemma rd_range (buf : list uint8) (i : Z) : 0 <= rd buf i <= 255.
Proof. apply u8_range. Qed.

Lemma testbit_above (a n i : Z) :
  0 <= a < 2 ^ n -> 0 <= n <= i -> Z.testbit a i = false.
Proof.
  intros Ha Hi. destruct (Z.eq_dec a 0) as [->|Nz]; [apply Z.bits_0|].
  apply Z.bits_above_log2; [lia|].
  assert (Z.log2 a < n) by (apply Z.log2_lt_pow2; lia). lia.
Qed.

(** Fields that do not overlap are put together by addition. *)
Lemma lor_shiftl_add (a b n : Z) :
  0 <= a < 2 ^ n -> 0 <= n -> Z.lor a (Z.shiftl b n) = a + b * 2 ^ n.
Proof.
  intros Ha Hn. rewrite Z.shiftl_mul_pow2 by lia.
  rewrite <- Z.lxor_lor, <- Z.add_nocarry_lxor; auto.
  all: apply Z.bits_inj'; intros i Hi; rewrite Z.land_spec, Z.bits_0.
  all: destruct (Z.lt_ge_cases i n).
  all: try (rewrite Z.mul_pow2_bits_low by lia; apply andb_false_r).
  all: rewrite (testbit_above a n i) by lia; reflexivity.
Qed.

Lemma land_low (x n : Z) : 0 <= n -> Z.land x (2 ^ n - 1) = x mod 2 ^ n.
Proof.
  intros. replace (2 ^ n - 1) with (Z.ones n); [apply Z.land_ones; lia|].
  rewrite Z.ones_equiv. lia.
Qed.

Lemma ExtractAdtsFrameSize_value (buf : list uint8) (hdr : Z) :
  Adts.ExtractAdtsFrameSize buf hdr
  = (rd buf (hdr + 3) mod 4) * 2048 + rd buf (hdr + 4) * 8
    + rd buf (hdr + 5) / 32.
Proof.
  unfold ExtractAdtsFrameSize.
  pose proof (rd_range buf (hdr + 3)). pose proof (rd_range buf (hdr + 4)).
  pose proof (rd_range buf (hdr + 5)).
  rewrite (land_low _ 2 ltac:(lia) : Z.land (rd buf (hdr + 3)) 3 = _).
  rewrite Z.shiftr_div_pow2 by lia.
  change (2 ^ 5) with 32. change (2 ^ 2) with 4.
  assert (0 <= rd buf (hdr + 5) / 32 < 8).
  { split; [apply Z.div_pos; lia|apply Z.div_lt_upper_bound; lia]. }
  rewrite (lor_shiftl_add _ _ 3) by (change (2 ^ 3) with 8; lia).
  rewrite (lor_shiftl_add _ _ 11) by (change (2 ^ 3) with 8;
                                      change (2 ^ 11) with 2048; lia).
  change (2 ^ 3) with 8. change (2 ^ 11) with 2048. lia.
Qed.

Lemma ExtractAdtsFrequencyIndex_value (buf : list uint8) (hdr : Z) :
  ExtractAdtsFrequencyIndex buf hdr = (rd buf (hdr + 2) / 4) mod 16.
Proof.
  unfold ExtractAdtsFrequencyIndex.
  rewrite (land_low _ 4 ltac:(lia) : Z.land _ 15 = _).
  rewrite Z.shiftr_div_pow2 by lia. reflexivity.
Qed.

Lemma ExtractAdtsChannelConfig_value (buf : list uint8) (hdr : Z) :
  ExtractAdtsChannelConfig buf hdr
  = (rd buf (hdr + 3) / 64) mod 4 + (rd buf (hdr + 2) mod 2) * 4.
Proof.
  unfold ExtractAdtsChannelConfig.
  rewrite (land_low _ 2 ltac:(lia) : Z.land _ 3 = _).
  rewrite (land_low _ 1 ltac:(lia) : Z.land _ 1 = _).
  rewrite Z.shiftr_div_pow2 by lia.
  change (2 ^ 6) with 64. change (2 ^ 2) with 4. change (2 ^ 1) with 2.
  pose proof (Z.mod_pos_bound (rd buf (hdr + 3) / 64) 4 ltac:(lia)).
  rewrite (lor_shiftl_add _ _ 2) by (change (2 ^ 2) with 4; lia).
  reflexivity.
Qed.

Lemma frame_size_range (buf : list uint8) (hdr : Z) :
  0 <= ExtractAdtsFrameSize buf hdr <= 8191.
Proof.
  rewrite ExtractAdtsFrameSize_value.
  pose proof (rd_range buf (hdr + 4)). pose proof (rd_range buf (hdr + 5)).
  pose proof (Z.mod_pos_bound (rd buf (hdr + 3)) 4 ltac:(lia)).
  assert (0 <= rd buf (hdr + 5) / 32 < 8).
  { split; [apply Z.div_pos; lia|apply Z.div_lt_upper_bound; lia]. }
  lia.
Qed.

Lemma frequency_index_range (buf : list uint8) (hdr : Z) :
  0 <= ExtractAdtsFrequencyIndex buf hdr <= 15.
Proof.
  rewrite ExtractAdtsFrequencyIndex_value.
  pose proof (Z.mod_pos_bound (rd buf (hdr + 2) / 4) 16 ltac:(lia)). lia.
Qed.

Lemma channel_config_range (buf : list uint8) (hdr : Z) :
  0 <= ExtractAdtsChannelConfig buf hdr <= 7.
Proof.
  rewrite ExtractAdtsChannelConfig_value.
  pose proof (Z.mod_pos_bound (rd buf (hdr + 3) / 64) 4 ltac:(lia)).
  pose proof (Z.mod_pos_bound (rd buf (hdr + 2)) 2 ltac:(lia)). lia.
Qed.

(** X1.  The three header fields as numbers: the frame length is the 13-bit
    number made of the low two bits of the fourth byte, the fifth byte and
    the high three bits of the sixth; the frequency index is bits 2..5 of the
    third byte; the channel configuration is the low bit of the third byte
    followed by the high two bits of the fourth.  So a declared frame size
    is at most 8191, a frequency index at most 15 and a channel configuration
    at most 7, whatever the bytes. *)
Theorem header_fields_decoded (buf : list uint8) (hdr : Z) :
  ExtractAdtsFrameSize buf hdr
    = (rd buf (hdr + 3) mod 4) * 2048 + rd buf (hdr + 4) * 8
      + rd buf (hdr + 5) / 32
  /\ 0 <= ExtractAdtsFrameSize buf hdr <= 8191
  /\ ExtractAdtsFrequencyIndex buf hdr = (rd buf (hdr + 2) / 4) mod 16
  /\ 0 <= ExtractAdtsFrequencyIndex buf hdr <= 15
  /\ ExtractAdtsChannelConfig buf hdr
     = (rd buf (hdr + 3) / 64) mod 4 + (rd buf (hdr + 2) mod 2) * 4
  /\ 0 <= ExtractAdtsChannelConfig buf hdr <= 7.
Proof.
  split; [apply ExtractAdtsFrameSize_value|].
  split; [apply frame_size_range|].
  split; [apply ExtractAdtsFrequencyIndex_value|].
  split; [apply frequency_index_range|].
  split; [apply ExtractAdtsChannelConfig_value|apply channel_config_range].
Qed.

Section Parser.

Context {H : Type} {HelperOps : AudioTimestampHelper H}.

(** X2.  [UpdateAudioConfiguration] returns false exactly when no
    configuration is set and the header has a frequency index of 13, 14 or 15
    or the channel configuration 0.  The test of the channel configuration
    against the size of the channel table never decides: the field has three
    bits and the table eight entries. *)
Theorem UpdateAudioConfiguration_refuses_iff (p : EsParserAdts H)
    (raw_es : list uint8) (adts_header : Z) :
  fst (fst (UpdateAudioConfiguration p raw_es adts_header)) = false
  <-> last_audio_decoder_config_ p = None
      /\ (13 <= ExtractAdtsFrequencyIndex raw_es adts_header
          \/ ExtractAdtsChannelConfig raw_es adts_header = 0).
Proof.
  rewrite UpdateAudioConfiguration_eq.
  pose proof (channel_config_range raw_es adts_header) as Hc.
  destruct (last_audio_decoder_config_ p) as [c|].
  { cbn. split; [discriminate|]. intros (N & _). discriminate. }
  unfold invalid_config, kAdtsFrequencyTableSize, kAdtsNumChannelsTableSize.
  destruct (Z.geb_spec (ExtractAdtsFrequencyIndex raw_es adts_header) 13);
    cbn [orb].
  { cbn. split; auto. }
  destruct (Z.eqb_spec (ExtractAdtsChannelConfig raw_es adts_header) 0);
    cbn [orb].
  { cbn. split; auto. }
  destruct (Z.geb_spec (ExtractAdtsChannelConfig raw_es adts_header) 8);
    [lia|].
  cbn. split; [discriminate|]. intros (_ & [?|?]); lia.
Qed.

End Parser.

(** ** The sync word *)

Lemma sync_second_byte (b : uint8) :
  (Z.land (u8 b) 246 =? 240) = true
  <-> u8 b = 240 \/ u8 b = 241 \/ u8 b = 248 \/ u8 b = 249.
Proof.
  destruct b; cbn; split; intros; try discriminate; try lia; auto.
Qed.

(** X3.  A sync word is a byte 0xff followed by 0xf0, 0xf1, 0xf8 or 0xf9:
    the twelve sync bits set and the two layer bits clear, the MPEG version
    bit and the protection bit being free.  A byte pair with a layer bit set
    is never taken for the start of a frame. *)
Theorem isAdtsSyncWord_iff (buf : list uint8) (at_ : Z) :
  isAdtsSyncWord buf at_ = true
  <-> rd buf at_ = 255
      /\ (rd buf (at_ + 1) = 240 \/ rd buf (at_ + 1) = 241
          \/ rd buf (at_ + 1) = 248 \/ rd buf (at_ + 1) = 249).
Proof.
  unfold isAdtsSyncWord. rewrite andb_true_iff, Z.eqb_eq.
  unfold rd at 2 3 4 5 6. rewrite sync_second_byte. reflexivity.
Qed.

(** The bounds on what [LookForSyncWord] returns, as the loop of [Parse]
    uses them. *)
Lemma LookForSyncWord_facts (raw_es : list uint8) (raw_es_size pos : Z) :
  match LookForSyncWord raw_es raw_es_size pos with
  | SyncWordFound new_pos frame_sz =>
      pos <= new_pos
      /\ new_pos + kAdtsHeaderMinSize < raw_es_size
      /\ isAdtsSyncWord raw_es new_pos = true
      /\ frame_sz = ExtractAdtsFrameSize raw_es new_pos
      /\ kAdtsHeaderMinSize <= frame_sz <= 8191
      /\ (frame_sz + 2 <= raw_es_size - new_pos ->
          isAdtsSyncWord raw_es (new_pos + frame_sz) = true)
  | SyncWordNotFound new_pos =>
      new_pos = Z.max pos (raw_es_size - kAdtsHeaderMinSize)
  end.
Proof.
  pose proof (LookForSyncWord_spec raw_es raw_es_size pos) as L.
  destruct (LookForSyncWord raw_es raw_es_size pos) as [np fs|np].
  - destruct L as (B & A & _). apply SyncWordAt_frame_size in A.
    destruct A as (S & E & M & Co).
    pose proof (frame_size_range raw_es np). subst fs.
    repeat split; auto; lia.
  - exact (proj1 L).
Qed.

(** X4.  What [LookForSyncWord] returns.  In every case the position
    returned is at or after [pos].  When a frame is reported, a whole header
    lies in the buffer at the position returned, it starts with a sync word,
    the size returned is the one it declares and is between the size of a
    header and 8191, and when at least that size and two more bytes remain
    there is a second sync word at that distance.  When none is reported the
    position returned is [pos] or [raw_es_size - kAdtsHeaderMinSize]. *)
Theorem LookForSyncWord_result (raw_es : list uint8) (raw_es_size pos : Z) :
  match LookForSyncWord raw_es raw_es_size pos with
  | SyncWordFound new_pos frame_sz =>
      pos <= new_pos
      /\ new_pos + kAdtsHeaderMinSize < raw_es_size
      /\ isAdtsSyncWord raw_es new_pos = true
      /\ frame_sz = ExtractAdtsFrameSize raw_es new_pos
      /\ kAdtsHeaderMinSize <= frame_sz <= 8191
      /\ (frame_sz + 2 <= raw_es_size - new_pos ->
          isAdtsSyncWord raw_es (new_pos + frame_sz) = true)
  | SyncWordNotFound new_pos =>
      new_pos = Z.max pos (raw_es_size - kAdtsHeaderMinSize)
  end.
Proof.
  pose proof (LookForSyncWord_spec raw_es raw_es_size pos) as L.
  destruct (LookForSyncWord raw_es raw_es_size pos) as [np fs|np].
  - destruct L as (B & A & _). apply SyncWordAt_frame_size in A.
    destruct A as (S & E & M & Co).
    pose proof (frame_size_range raw_es np). subst fs.
    repeat split; auto; lia.
  - exact (proj1 L).
Qed.

Lemma SyncWordAt_app (raw extra : list uint8) (o : Z) :
  0 <= o -> o + kAdtsHeaderMinSize < size_of raw ->
  SyncWordAt (raw ++ extra) (size_of raw) o = SyncWordAt raw (size_of raw) o.
Proof.
  unfold kAdtsHeaderMinSize. intros Ho Hs. unfold SyncWordAt.
  assert (S0 : isAdtsSyncWord (raw ++ extra) o = isAdtsSyncWord raw o).
  { unfold isAdtsSyncWord. rewrite !rd_app_l by lia. reflexivity. }
  assert (F0 : ExtractAdtsFrameSize (raw ++ extra) o
               = ExtractAdtsFrameSize raw o).
  { unfold ExtractAdtsFrameSize. rewrite !rd_app_l by lia. reflexivity. }
  rewrite S0, F0.
  destruct (isAdtsSyncWord raw o); cbn [negb]; [|reflexivity].
  destruct (Z.ltb_spec (ExtractAdtsFrameSize raw o) kAdtsHeaderMinSize);
    [reflexivity|]. unfold kAdtsHeaderMinSize in *.
  destruct (Z.geb_spec (size_of raw - o) (ExtractAdtsFrameSize raw o + 2));
    cbn [andb]; [|reflexivity].
  unfold isAdtsSyncWord. rewrite !rd_app_l by lia. reflexivity.
Qed.

Lemma ScanSyncWord_app (raw extra : list uint8) (n : nat) :
  forall o, 0 <= o ->
    o + Z.of_nat n + kAdtsHeaderMinSize <= size_of raw ->
    ScanSyncWord n (raw ++ extra) (size_of raw) o
    = ScanSyncWord n raw (size_of raw) o.
Proof.
  induction n as [|n IH]; intros o Ho Hs; cbn [ScanSyncWord]; [reflexivity|].
  rewrite SyncWordAt_app by lia.
  destruct (SyncWordAt raw (size_of raw) o); [reflexivity|].
  apply IH; lia.
Qed.

(** X5.  [LookForSyncWord] reads no byte at or beyond [raw_es_size]: whatever
    lies in memory behind the buffer, the result is the same. *)
Theorem LookForSyncWord_reads_inside (raw_es extra : list uint8) (pos : Z) :
  0 <= pos ->
  LookForSyncWord (raw_es ++ extra) (size_of raw_es) pos
  = LookForSyncWord raw_es (size_of raw_es) pos.
Proof.
  intros Hpos. unfold LookForSyncWord.
  destruct (Z.geb_spec pos (size_of raw_es - kAdtsHeaderMinSize));
    [reflexivity|].
  rewrite ScanSyncWord_app by lia. reflexivity.
Qed.

Lemma LookForSyncWord_reads_inside_witness :
  0 <= 0
  /\ LookForSyncWord (frame8 ++ [xff; xf1; xff; xf1]) (size_of frame8) 0
     = LookForSyncWord frame8 (size_of frame8) 0.
Proof.
  split; [lia|].
  apply (LookForSyncWord_reads_inside frame8 [xff; xf1; xff; xf1] 0). lia.
Defined.

(** ** What one call leaves and emits *)

Section Calls.

Context {H : Type} {HelperOps : AudioTimestampHelper H}.

Lemma ParseFrames_remaining (raw : list uint8) (size : Z) (fuel : nat) :
  forall pos (p : EsParserAdts H) out e p' out',
    pos <= size ->
    ParseFrames fuel raw size pos p out = Some (FramesDone e p' out') ->
    size - e <= 8190.
Proof.
  induction fuel as [|fuel IH]; intros pos p out e p' out' Hpos;
    [discriminate|].
  cbn [ParseFrames].
  pose proof (LookForSyncWord_facts raw size pos) as L.
  destruct (LookForSyncWord raw size pos) as [np fs|np].
  - destruct L as (B & Hd & _ & _ & M & _). unfold kAdtsHeaderMinSize in *.
    destruct (Z.gtb_spec fs (size - np)).
    + intros [= <- _ _]. lia.
    + destruct (ParseFrame p raw np fs) as [[[[] p1] o1]|]; try discriminate.
      apply IH. lia.
  - intros [= <- _ _]. unfold kAdtsHeaderMinSize in *. lia.
Qed.

Lemma DiscardEs_queue (p : EsParserAdts H) (e : Z) :
  0 <= e ->
  es_byte_queue_ (DiscardEs p e) = skipn (Z.to_nat e) (es_byte_queue_ p).
Proof.
  intros He. unfold DiscardEs, ByteQueue.Pop.
  destruct (Z.leb_spec e 0); [|reflexivity].
  replace e with 0 by lia. reflexivity.
Qed.

(** What a [Parse] that returns true has done, in terms of its loop. *)
Lemma Parse_true_inv (p : EsParserAdts H) buf pts dts p' out :
  helper_ok p ->
  Parse p buf pts dts = Some (true, p', out) ->
  exists e p3,
    ParseFrames (S (length (es_byte_queue_ p ++ buf))) (es_byte_queue_ p ++ buf)
      (size_of (es_byte_queue_ p ++ buf)) 0 (Parse_start p buf pts) []
    = Some (FramesDone e p3 out)
    /\ p' = DiscardEs p3 e
    /\ 0 <= e <= size_of (es_byte_queue_ p ++ buf)
    /\ es_byte_queue_ p3 = es_byte_queue_ p ++ buf
    /\ helper_ok p3.
Proof.
  intros OK. rewrite Parse_unfold. cbv zeta.
  destruct (ParseFrames _ _ _ _ _ _) as [[e p3 o3|p3 o3]|] eqn:R;
    try discriminate.
  intros [= <- <-]. exists e, p3. split; [reflexivity|]. split; [reflexivity|].
  apply ParseFrames_inv in R;
    [|apply helper_ok_start, OK|apply size_of_nonneg].
  destruct R as (Be & _ & _ & Q & OK3 & _). auto.
Qed.

(** X6.  After a [Parse] that returns true, at most 8190 bytes stay in the
    byte queue: what is kept is the last bytes of a buffer without frame,
    fewer than a header, or a frame that is not complete yet, and a frame
    declares at most 8191 bytes. *)
Theorem queue_bounded_after_Parse (p : EsParserAdts H) (buf : list uint8)
    (pts dts : Z) (p' : EsParserAdts H) (out : list Emission) :
  Reachable p ->
  Parse p buf pts dts = Some (true, p', out) ->
  size_of (es_byte_queue_ p') <= 8190.
Proof.
  intros R E. destruct (Reachable_ok p R) as (OK & _).
  destruct (Parse_true_inv _ _ _ _ _ _ OK E) as (e & p3 & L & -> & Be & Q & _).
  rewrite DiscardEs_queue, Q, size_of_skipn by lia.
  apply (ParseFrames_remaining _ _ _ _ _ _ _ _ _ (size_of_nonneg _) L).
Qed.

(** *** The samples *)

Lemma payload_is_frame (raw : list uint8) (pos fs : Z) :
  0 <= pos -> pos + fs <= size_of raw ->
  isAdtsSyncWord raw pos = true ->
  fs = ExtractAdtsFrameSize raw pos ->
  kAdtsHeaderMinSize <= fs ->
  is_adts_frame (firstn (Z.to_nat fs) (skipn (Z.to_nat pos) raw)) = true.
Proof.
  unfold kAdtsHeaderMinSize. intros Hp Hs Sy E M.
  assert (Rd : forall i, 0 <= i < fs ->
               rd (firstn (Z.to_nat fs) (skipn (Z.to_nat pos) raw)) i
               = rd raw (pos + i)).
  { intros i Hi. rewrite rd_firstn, rd_skipn by lia. reflexivity. }
  assert (Sz : size_of (firstn (Z.to_nat fs) (skipn (Z.to_nat pos) raw)) = fs).
  { apply size_of_firstn. rewrite size_of_skipn by lia. lia. }
  unfold is_adts_frame. rewrite Sz.
  unfold isAdtsSyncWord, ExtractAdtsFrameSize, kAdtsHeaderMinSize.
  rewrite !Rd by lia. rewrite Z.add_0_r, !Z.add_0_l.
  unfold isAdtsSyncWord in Sy. rewrite Sy.
  unfold ExtractAdtsFrameSize in E. rewrite <- E.
  rewrite Z.eqb_refl. cbn. apply Z.leb_le. lia.
Qed.

Lemma ParseFrame_emits (p : EsParserAdts H) raw pos fs p1 o :
  ParseFrame p raw pos fs = Some (true, p1, o) ->
  exists cfg h1,
    o = cfg ++ [SampleReady (sample_at raw pos fs h1)]
    /\ (cfg = []
        \/ exists c, cfg = [ConfigurationReady c]
                     /\ last_audio_decoder_config_ p = None)
    /\ (last_audio_decoder_config_ p = None -> cfg <> []).
Proof.
  rewrite ParseFrame_unfold, UpdateAudioConfiguration_eq.
  destruct (last_audio_decoder_config_ p) as [c|].
  - destruct (audio_timestamp_helper_ p); [|discriminate].
    cbv zeta. intros [= <- <-]. eexists [], _. split; [reflexivity|].
    split; [auto|discriminate].
  - destruct (invalid_config raw pos); [discriminate|].
    cbv zeta. cbn [audio_timestamp_helper_ with_helper].
    intros [= <- <-]. eexists [_], _. split; [reflexivity|].
    split; [right; eauto|discriminate].
Qed.

Lemma ParseFrames_sample_ok (raw : list uint8) (fuel : nat) :
  forall pos (p : EsParserAdts H) out r,
    0 <= pos ->
    Forall sample_ok out ->
    ParseFrames fuel raw (size_of raw) pos p out = Some r ->
    Forall sample_ok
      (match r with FramesDone _ _ o => o | FramesFailed _ o => o end).
Proof.
  induction fuel as [|fuel IH]; intros pos p out r Hpos Fo; [discriminate|].
  cbn [ParseFrames].
  pose proof (LookForSyncWord_facts raw (size_of raw) pos) as L.
  destruct (LookForSyncWord raw (size_of raw) pos) as [np fs|np].
  - destruct L as (B & Hd & Sy & E & M & _).
    destruct (Z.gtb_spec fs (size_of raw - np)).
    + intros [= <-]. exact Fo.
    + destruct (ParseFrame p raw np fs) as [[[[] p1] o1]|] eqn:PF;
        [| |discriminate].
      * apply IH; [unfold kAdtsHeaderMinSize in *; lia|].
        apply Forall_app. split; [exact Fo|].
        destruct (ParseFrame_emits _ _ _ _ _ _ PF) as (cfg & h1 & -> & Cf & _).
        apply Forall_app. split.
        -- destruct Cf as [->|(c & -> & _)]; repeat constructor.
        -- repeat constructor. cbn.
           apply payload_is_frame; auto; lia.
      * intros [= <-]. apply ParseFrame_false in PF.
        destruct PF as (_ & -> & _). rewrite app_nil_r. exact Fo.
  - intros [= <-]. exact Fo.
Qed.

Lemma Parse_sample_ok (p : EsParserAdts H) buf pts dts ok p' out :
  Parse p buf pts dts = Some (ok, p', out) -> Forall sample_ok out.
Proof.
  rewrite Parse_unfold. cbv zeta.
  destruct (ParseFrames _ _ _ _ _ _) as [r|] eqn:R; [|discriminate].
  apply ParseFrames_sample_ok in R; [|lia|constructor].
  destruct r; intros [= _ _ <-]; exact R.
Qed.

Lemma Run_sample_ok (calls : list Call) :
  forall (p p' : EsParserAdts H) oks out,
    Run calls p = Some (p', oks, out) -> Forall sample_ok out.
Proof.
  induction calls as [|c calls IH]; intros p p' oks out; cbn [Run].
  - intros [= _ _ <-]. constructor.
  - destruct c as [buf pts dts| |]; try apply IH.
    destruct (Parse p buf pts dts) as [[[ok p1] o1]|] eqn:E; [|discriminate].
    destruct (Run calls p1) as [[[p2 oks2] o2]|] eqn:R; [|discriminate].
    intros [= _ _ <-]. apply Forall_app. split.
    + eapply Parse_sample_ok, E.
    + eapply IH, R.
Qed.

(** X7.  Every sample that the parser emits, in any sequence of calls on a
    new parser, is a key frame with its dts equal to its pts, and its bytes
    are one complete ADTS frame: they start with a sync word and are as many
    as their header declares, at least a header. *)
Theorem samples_are_frames (track : Z) (sbr : bool) (calls : list Call) :
  exists (p : EsParserAdts H) oks out,
    Run calls (NewEsParserAdts track sbr) = Some (p, oks, out)
    /\ Forall sample_ok out.
Proof.
  destruct (New_ok (H := H) track sbr) as (OK & PK).
  destruct (Run_inv calls _ OK PK) as (p & oks & out & R & _).
  exists p, oks, out. split; [exact R|]. eapply Run_sample_ok, R.
Qed.

End Calls.

Lemma queue_bounded_after_Parse_witness :
  Reachable (example_parser false)
  /\ exists p' out,
      Parse (example_parser false) (frame9 ++ firstn 5 frame8) 1000 1000
      = Some (true, p', out)
      /\ size_of (es_byte_queue_ p') <= 8190.
Proof.
  assert (R : Reachable (example_parser false)) by apply Reachable_New.
  split; [exact R|].
  destruct (Parse (example_parser false) (frame9 ++ firstn 5 frame8) 1000 1000)
    as [[[[] p'] out]|] eqn:E; try (vm_compute in E; discriminate).
  exists p', out. split; [reflexivity|].
  exact (queue_bounded_after_Parse _ _ _ _ _ _ R E).
Defined.

(** ** The first callback call, and calls that emit nothing *)

Section FirstFrame.

Context {H : Type} {HelperOps : AudioTimestampHelper H}.

(** The loop of [Parse] either stops before it has parsed a frame, with the
    parser and the calls as they were, or parses a first one. *)
Lemma ParseFrames_first (raw : list uint8) (size : Z) (fuel : nat) pos
    (p : EsParserAdts H) out e p' out' :
  helper_ok p -> pos <= size ->
  ParseFrames fuel raw size pos p out = Some (FramesDone e p' out') ->
  (p' = p /\ out' = out)
  \/ exists np fs p1 o1 o,
       ParseFrame p raw np fs = Some (true, p1, o1)
       /\ out' = out ++ o1 ++ o.
Proof.
  intros OK B. destruct fuel as [|fuel]; [discriminate|].
  cbn [ParseFrames].
  pose proof (LookForSyncWord_facts raw size pos) as L.
  destruct (LookForSyncWord raw size pos) as [np fs|np].
  - destruct L as (B1 & Hd & _ & _ & M & _). unfold kAdtsHeaderMinSize in *.
    destruct (Z.gtb_spec fs (size - np)).
    + intros [= _ <- <-]. auto.
    + destruct (ParseFrame p raw np fs) as [[[[] p1] o1]|] eqn:PF;
        try discriminate.
      intros R. right. exists np, fs, p1, o1.
      destruct (ParseFrame_true _ _ _ _ _ _ OK PF) as (_ & _ & _ & OK1 & _).
      assert (B2 : np + fs <= size) by lia.
      destruct (ParseFrames_inv _ _ _ _ _ _ _ OK1 B2 R)
        as (_ & _ & _ & _ & _ & _ & _ & o & -> & _).
      exists o. rewrite app_assoc. auto.
  - intros [= _ <- <-]. auto.
Qed.

Lemma starts_with_configuration_app (o1 o2 : list Emission) :
  o1 <> [] -> starts_with_configuration o1 ->
  starts_with_configuration (o1 ++ o2).
Proof. destruct o1; [congruence|auto]. Qed.

Lemma Parse_starts (p : EsParserAdts H) buf pts dts ok p' out :
  helper_ok p -> last_audio_decoder_config_ p = None ->
  Parse p buf pts dts = Some (ok, p', out) ->
  starts_with_configuration out.
Proof.
  intros OK C. rewrite Parse_unfold. cbv zeta.
  destruct (ParseFrames _ _ _ _ _ _) as [[e p3 o3|p3 o3]|] eqn:R;
    [| |discriminate].
  - intros [= _ _ <-].
    apply ParseFrames_first in R;
      [|apply helper_ok_start, OK|apply size_of_nonneg].
    destruct R as [(_ & ->)|(np & fs & p1 & o1 & o & PF & ->)]; [exact I|].
    destruct (ParseFrame_emits _ _ _ _ _ _ PF) as (cfg & h1 & -> & Cf & N).
    destruct Cf as [->|(c & -> & _)]; [|reflexivity].
    exfalso. apply N; [exact C|reflexivity].
  - intros [= _ _ <-].
    apply ParseFrames_inv in R;
      [|apply helper_ok_start, OK|apply size_of_nonneg].
    destruct R as (_ & -> & _). exact I.
Qed.

Lemma Run_starts (calls : list Call) :
  forall (p p' : EsParserAdts H) oks out,
    helper_ok p -> pts_ok p -> last_audio_decoder_config_ p = None ->
    Run calls p = Some (p', oks, out) ->
    starts_with_configuration out.
Proof.
  induction calls as [|c calls IH]; intros p p' oks out OK PK C; cbn [Run].
  - intros [= _ _ <-]. exact I.
  - destruct c as [buf pts dts| |].
    + destruct (Parse_inv p buf pts dts OK PK)
        as (ok & p1 & o1 & E & OK1 & PK1 & _ & _ & Bu & _).
      rewrite E.
      destruct (Run calls p1) as [[[p2 oks2] o2]|] eqn:R; [|discriminate].
      intros [= _ _ <-].
      pose proof (Parse_starts _ _ _ _ _ _ _ OK C E) as St.
      destruct o1 as [|e o1].
      * cbn [app]. refine (IH p1 p2 oks2 o2 OK1 PK1 _ R).
        unfold configurations_left in Bu. rewrite C in Bu. cbn in Bu.
        destruct (last_audio_decoder_config_ p1); [discriminate|reflexivity].
      * exact St.
    + apply IH; assumption.
    + destruct (Reset_ok p). apply IH; auto.
Qed.

(** X8.  On a parser that has no configuration (a new one, or one that was
    reset), whatever calls follow, the first callback call made, if any is
    made, announces the configuration: no sample is emitted before its
    stream is described. *)
Theorem configuration_announced_first (p : EsParserAdts H)
    (calls : list Call) :
  Reachable p ->
  last_audio_decoder_config_ p = None ->
  exists p' oks out,
    Run calls p = Some (p', oks, out) /\ starts_with_configuration out.
Proof.
  intros R C. destruct (Reachable_ok p R) as (OK & PK).
  destruct (Run_inv calls _ OK PK) as (p' & oks & out & E & _).
  exists p', oks, out. split; [exact E|].
  eapply Run_starts; eauto.
Qed.

(** X11.  A [Parse] that returns true without a callback call has parsed
    no frame: it has only queued its input, recorded its timestamp and
    dropped the bytes before the place where the next call resumes.  The
    configuration and the timestamp helper are as before, and every pending
    timestamp is still there, its offset moved by the bytes dropped. *)
Theorem Parse_without_emission (p : EsParserAdts H) (buf : list uint8)
    (pts dts : Z) (p' : EsParserAdts H) :
  Reachable p ->
  Parse p buf pts dts = Some (true, p', []) ->
  exists dropped,
    0 <= dropped <= size_of (es_byte_queue_ p ++ buf)
    /\ es_byte_queue_ p' = skipn (Z.to_nat dropped) (es_byte_queue_ p ++ buf)
    /\ pts_list_ p' = shift_pts dropped (pts_list_ p ++ pushed_pts p pts)
    /\ last_audio_decoder_config_ p' = last_audio_decoder_config_ p
    /\ audio_timestamp_helper_ p' = audio_timestamp_helper_ p.
Proof.
  intros R E. destruct (Reachable_ok p R) as (OK & _).
  destruct (Parse_true_inv _ _ _ _ _ _ OK E) as (e & p3 & L & -> & Be & Q & _).
  apply ParseFrames_first in L;
    [|apply helper_ok_start, OK|apply size_of_nonneg].
  destruct L as [(-> & _)|(np & fs & p1 & o1 & o & PF & Eo)].
  - exists e. split; [exact Be|].
    split; [rewrite DiscardEs_queue by lia; reflexivity|].
    unfold DiscardEs. destruct (Z.leb_spec e 0).
    + replace e with 0 by lia. rewrite shift_pts_0. auto.
    + auto.
  - exfalso.
    destruct (ParseFrame_emits _ _ _ _ _ _ PF) as (cfg & h1 & -> & _).
    cbn [app] in Eo. destruct cfg; discriminate.
Qed.

End FirstFrame.

Lemma configuration_announced_first_witness :
  Reachable (Reset (example_parser false))
  /\ last_audio_decoder_config_ (Reset (example_parser false)) = None
  /\ exists p' oks out,
       Run [CallParse (firstn 4 frame9) 1000 1000;
            CallParse (skipn 4 frame9 ++ frame8) 2000 2000;
            CallParse [] kNoTimestamp kNoTimestamp]
           (Reset (example_parser false)) = Some (p', oks, out)
       /\ starts_with_configuration out.
Proof.
  assert (R : Reachable (Reset (example_parser false))).
  { apply Reachable_Reset, Reachable_New. }
  split; [exact R|]. split; [reflexivity|].
  apply (configuration_announced_first _ _ R). reflexivity.
Defined.

Lemma Parse_without_emission_witness :
  Reachable (example_parser false)
  /\ exists p',
      Parse (example_parser false) ([x00; x01] ++ firstn 5 frame9) 1000 1000
      = Some (true, p', [])
      /\ exists dropped,
          0 <= dropped
               <= size_of (es_byte_queue_ (example_parser false)
                           ++ [x00; x01] ++ firstn 5 frame9)
          /\ es_byte_queue_ p'
             = skipn (Z.to_nat dropped)
                 (es_byte_queue_ (example_parser false)
                  ++ [x00; x01] ++ firstn 5 frame9)
          /\ pts_list_ p'
             = shift_pts dropped
                 (pts_list_ (example_parser false)
                  ++ pushed_pts (example_parser false) 1000)
          /\ last_audio_decoder_config_ p'
             = last_audio_decoder_config_ (example_parser false)
          /\ audio_timestamp_helper_ p'
             = audio_timestamp_helper_ (example_parser false).
Proof.
  assert (R : Reachable (example_parser false)) by apply Reachable_New.
  split; [exact R|].
  eexists. split; [vm_compute; reflexivity|].
  apply (Parse_without_emission _ _ 1000 1000 _ R). vm_compute. reflexivity.
Defined.

(** ** Where the loop stops *)

Section Stop.

Context {H : Type} {HelperOps : AudioTimestampHelper H}.

(** Searching again from the position that a search returned gives the same
    answer. *)
Lemma LookForSyncWord_again (raw : list uint8) (size pos : Z) :
  match LookForSyncWord raw size pos with
  | SyncWordFound np fs =>
      LookForSyncWord raw size np = SyncWordFound np fs
  | SyncWordNotFound np =>
      LookForSyncWord raw size np = SyncWordNotFound np
  end.
Proof.
  pose proof (LookForSyncWord_spec raw size pos) as L.
  destruct (LookForSyncWord raw size pos) as [np fs|np].
  - destruct L as (B & A & _).
    pose proof (LookForSyncWord_spec raw size np) as L2.
    destruct (LookForSyncWord raw size np) as [np2 fs2|np2].
    + destruct L2 as (B2 & A2 & N2).
      destruct (Z.eq_dec np2 np) as [->|Ne]; [congruence|].
      rewrite (N2 np) in A by lia. discriminate.
    + destruct L2 as (_ & N2). rewrite (N2 np) in A by lia. discriminate.
  - destruct L as (E & _).
    pose proof (LookForSyncWord_spec raw size np) as L2.
    destruct (LookForSyncWord raw size np) as [np2 fs2|np2].
    + destruct L2 as (B2 & _). lia.
    + destruct L2 as (-> & _). f_equal. lia.
Qed.

(** Restarted where it stopped, the loop stops at once. *)
Lemma ParseFrames_stopped (raw : list uint8) (size : Z) (fuel : nat) :
  forall pos (p : EsParserAdts H) out e p' out',
    ParseFrames fuel raw size pos p out = Some (FramesDone e p' out') ->
    forall fuel2 (q : EsParserAdts H) out2,
      ParseFrames (S fuel2) raw size e q out2 = Some (FramesDone e q out2).
Proof.
  induction fuel as [|fuel IH]; intros pos p out e p' out'; [discriminate|].
  cbn [ParseFrames].
  pose proof (LookForSyncWord_again raw size pos) as A.
  destruct (LookForSyncWord raw size pos) as [np fs|np].
  - destruct (fs >? size - np) eqn:G.
    + intros [= <- _ _] fuel2 q out2. cbn [ParseFrames]. rewrite A, G.
      reflexivity.
    + destruct (ParseFrame p raw np fs) as [[[[] p1] o1]|]; try discriminate.
      apply IH.
  - intros [= <- _ _] fuel2 q out2. cbn [ParseFrames]. rewrite A.
    reflexivity.
Qed.

Lemma Parse_start_nil (p : EsParserAdts H) :
  Parse_start p [] kNoTimestamp = p.
Proof.
  destruct p. unfold Parse_start, pushed_pts, with_queue, with_pts_list.
  cbn. rewrite !app_nil_r. reflexivity.
Qed.

(** X10.  After a [Parse] that returned true, a [Parse] that brings no byte
    and no timestamp returns true, makes no callback call and leaves the
    parser as it is: what the first call left in the queue is what it
    could not use yet. *)
Theorem Parse_nothing_new (p : EsParserAdts H) (buf : list uint8)
    (pts dts dts' : Z) (p1 : EsParserAdts H) (out : list Emission) :
  Reachable p ->
  Parse p buf pts dts = Some (true, p1, out) ->
  Parse p1 [] kNoTimestamp dts' = Some (true, p1, []).
Proof.
  intros R E. destruct (Reachable_ok p R) as (OK & _).
  destruct (Parse_true_inv _ _ _ _ _ _ OK E) as (e & p3 & L & -> & Be & Q & _).
  set (raw := es_byte_queue_ p ++ buf) in *.
  assert (E1 : DiscardEs p3 e = rebase e (skipn (Z.to_nat e) raw) p3).
  { rewrite <- (Parse_start_nil (DiscardEs p3 e)).
    rewrite Parse_start_DiscardEs, Q, app_nil_r by lia. reflexivity. }
  rewrite E1, Parse_unfold. cbv zeta.
  rewrite Parse_start_nil.
  change (es_byte_queue_ (rebase e (skipn (Z.to_nat e) raw) p3))
    with (skipn (Z.to_nat e) raw).
  rewrite app_nil_r, size_of_skipn by lia.
  rewrite ParseFrames_rebase by lia. rewrite Z.add_0_r.
  rewrite (ParseFrames_stopped _ _ _ _ _ _ _ _ _ L).
  cbn [FramesResult_map]. rewrite Z.sub_diag. reflexivity.
Qed.

End Stop.

Lemma Parse_nothing_new_witness :
  Reachable (example_parser true)
  /\ exists p1 out,
      Parse (example_parser true) (frame9 ++ firstn 3 frame8) 1000 1000
      = Some (true, p1, out)
      /\ Parse p1 [] kNoTimestamp 0 = Some (true, p1, []).
Proof.
  assert (R : Reachable (example_parser true)) by apply Reachable_New.
  split; [exact R|].
  destruct (Parse (example_parser true) (frame9 ++ firstn 3 frame8) 1000 1000)
    as [[[[] p1] out]|] eqn:E; try (vm_compute in E; discriminate).
  exists p1, out. split; [reflexivity|].
  exact (Parse_nothing_new _ _ _ _ 0 _ _ R E).
Defined.

(** ** A buffer of whole frames *)

Section WholeFrames.

Context {H : Type} {HelperOps : AudioTimestampHelper H}.

Lemma is_adts_frame_inv (f : list uint8) :
  is_adts_frame f = true ->
  isAdtsSyncWord f 0 = true
  /\ ExtractAdtsFrameSize f 0 = size_of f
  /\ kAdtsHeaderMinSize <= size_of f.
Proof.
  unfold is_adts_frame. intros Hf.
  apply andb_prop in Hf. destruct Hf as (Hf & Hm).
  apply andb_prop in Hf. destruct Hf as (Hs & He).
  apply Z.eqb_eq in He. apply Z.leb_le in Hm. auto.
Qed.

Lemma frame_in_buffer (pre f r : list uint8) :
  is_adts_frame f = true ->
  ExtractAdtsFrameSize (pre ++ f ++ r) (size_of pre) = size_of f
  /\ firstn (Z.to_nat (size_of f))
       (skipn (Z.to_nat (size_of pre)) (pre ++ f ++ r)) = f.
Proof.
  intros Hf. destruct (is_adts_frame_inv f Hf) as (_ & He & Hm).
  unfold kAdtsHeaderMinSize in Hm. split.
  - rewrite <- He. unfold ExtractAdtsFrameSize.
    rewrite !rd_app_r, !rd_app_l by lia. reflexivity.
  - unfold size_of. rewrite !Nat2Z.id.
    rewrite skipn_app, skipn_all, Nat.sub_diag. cbn [skipn app].
    rewrite firstn_app, firstn_all, Nat.sub_diag. cbn [firstn].
    apply app_nil_r.
Qed.

Lemma payloads_app (a b : list Emission) :
  payloads (a ++ b) = payloads a ++ payloads b.
Proof. apply flat_map_app. Qed.

(** One turn of the loop at the start of a frame that is followed by more
    than nothing, or is longer than a header. *)
Lemma ParseFrames_one_frame (pre f r : list uint8) (fuel : nat)
    (p : EsParserAdts H) (out : list Emission) :
  let B := pre ++ f ++ r in
  is_adts_frame f = true ->
  framed B (size_of pre) ->
  kAdtsHeaderMinSize < size_of (f ++ r) ->
  helper_ok p ->
  (last_audio_decoder_config_ p = None -> invalid_config B (size_of pre) = false) ->
  exists p1 o1,
    ParseFrames (S fuel) B (size_of B) (size_of pre) p out
    = ParseFrames fuel B (size_of B) (size_of (pre ++ f)) p1 (out ++ o1)
    /\ payloads o1 = [f]
    /\ helper_ok p1
    /\ last_audio_decoder_config_ p1 <> None.
Proof.
  intros B Hf F Hr OK V.
  destruct (frame_in_buffer pre f r Hf) as (Es & Ed). fold B in Es, Ed.
  destruct (is_adts_frame_inv f Hf) as (_ & _ & Hm).
  unfold kAdtsHeaderMinSize in *.
  assert (Sz : size_of B = size_of pre + size_of (f ++ r)).
  { unfold B. apply size_of_app. }
  pose proof (size_of_nonneg pre) as Hp.
  pose proof (size_of_nonneg r) as Hn.
  pose proof (size_of_app f r) as Sfr.
  pose proof (LookForSyncWord_prefix B (size_of B) (size_of pre) F
                (Z.le_refl _)) as L.
  unfold size_of at 1 in L. rewrite Nat2Z.id, firstn_all in L.
  fold (size_of B) in L. unfold kAdtsHeaderMinSize in L.
  replace (size_of pre <? size_of B - 7) with true in L by lia.
  cbn [ParseFrames]. rewrite L, Es.
  replace (size_of f >? size_of B - size_of pre) with false by lia.
  destruct (ParseFrame_total p B (size_of pre) (size_of f) OK)
    as ([[[] p1] o1] & PF); rewrite PF.
  - destruct (ParseFrame_true _ _ _ _ _ _ OK PF) as (_ & _ & _ & OK1 & Cf & _).
    destruct (ParseFrame_emits _ _ _ _ _ _ PF) as (cfg & h1 & -> & Cc & _).
    exists p1, (cfg ++ [SampleReady (sample_at B (size_of pre) (size_of f) h1)]).
    split; [rewrite size_of_app; reflexivity|].
    split; [|auto].
    rewrite payloads_app. cbn. rewrite Ed.
    destruct Cc as [->|(c & -> & _)]; reflexivity.
  - apply ParseFrame_false in PF. destruct PF as (_ & _ & C & I).
    rewrite (V C) in I. discriminate.
Qed.

Lemma ParseFrames_at_end (B : list uint8) (fuel : nat) (p : EsParserAdts H)
    (out : list Emission) :
  ParseFrames (S fuel) B (size_of B) (size_of B) p out
  = Some (FramesDone (size_of B) p out).
Proof.
  cbn [ParseFrames].
  pose proof (LookForSyncWord_spec B (size_of B) (size_of B)) as L.
  destruct (LookForSyncWord B (size_of B) (size_of B)) as [np fs|np].
  - unfold kAdtsHeaderMinSize in L. lia.
  - destruct L as (-> & _). unfold kAdtsHeaderMinSize.
    do 2 f_equal. lia.
Qed.

Lemma size_of_concat_nonneg (l : list (list uint8)) : 0 <= size_of (concat l).
Proof. apply size_of_nonneg. Qed.

Lemma ParseFrames_whole_frames (final : list uint8) :
  is_adts_frame final = true ->
  kAdtsHeaderMinSize < size_of final ->
  forall (frames : list (list uint8)) (pre : list uint8) (fuel : nat)
         (p : EsParserAdts H) (out : list Emission),
    let B := pre ++ concat (frames ++ [final]) in
    Forall (fun f => is_adts_frame f = true) frames ->
    helper_ok p ->
    (last_audio_decoder_config_ p = None ->
     invalid_config B (size_of pre) = false) ->
    (S (length frames) < fuel)%nat ->
    exists p' o,
      ParseFrames fuel B (size_of B) (size_of pre) p out
      = Some (FramesDone (size_of B) p' (out ++ o))
      /\ payloads o = frames ++ [final].
Proof.
  intros Hfin Hlong.
  induction frames as [|f frames IH]; intros pre fuel p out B Fr OK V Fu.
  - destruct fuel as [|[|fuel]]; try (cbn in Fu; lia).
    unfold B in *. cbn [app concat] in *. rewrite app_nil_r in *.
    assert (F : framed (pre ++ final ++ []) (size_of pre)).
    { apply (framed_concat [final]). repeat constructor. exact Hfin. }
    rewrite app_nil_r in F.
    destruct (ParseFrames_one_frame pre final [] (S fuel) p out) as
      (p1 & o1 & E & Pl & _); rewrite ?app_nil_r; auto.
    rewrite app_nil_r in E. rewrite E.
    exists p1, o1. split; [|exact Pl]. apply ParseFrames_at_end.
  - destruct fuel as [|fuel]; [cbn in Fu; lia|].
    cbn [length] in Fu.
    assert (Fa : Forall (fun f => is_adts_frame f = true)
                   ((f :: frames) ++ [final])).
    { apply Forall_app. split; [exact Fr|]. repeat constructor. exact Hfin. }
    pose proof (framed_concat _ Fa pre) as F. fold B in F.
    inversion Fr as [|? ? Hf Fr']; subst.
    unfold B in *. cbn [app concat] in *.
    pose proof (size_of_nonneg (concat (frames ++ [final]))).
    destruct (is_adts_frame_inv f Hf) as (_ & _ & Hm).
    destruct (ParseFrames_one_frame pre f (concat (frames ++ [final]))
                fuel p out Hf F) as (p1 & o1 & E & Pl & OK1 & C1); auto.
    { rewrite size_of_app. unfold kAdtsHeaderMinSize in *.
      rewrite concat_app, size_of_app. cbn [concat].
      rewrite app_nil_r.
      pose proof (size_of_nonneg (concat frames)). lia. }
    rewrite E.
    destruct (IH (pre ++ f) fuel p1 (out ++ o1) Fr' OK1) as (p' & o & E2 & Pl2).
    { intros C. contradiction. }
    { lia. }
    rewrite <- (app_assoc pre f) in E2. rewrite E2.
    exists p', (o1 ++ o). split; [rewrite (app_assoc out); reflexivity|].
    rewrite payloads_app, Pl, Pl2. reflexivity.
Qed.

Lemma length_concat_frames (frames : list (list uint8)) :
  Forall (fun f => is_adts_frame f = true) frames ->
  (length frames <= length (concat frames))%nat.
Proof.
  induction 1 as [|f frames Hf _ IH]; cbn [concat length]; [lia|].
  destruct (is_adts_frame_inv f Hf) as (_ & _ & Hm).
  unfold kAdtsHeaderMinSize, size_of in Hm. rewrite length_app. lia.
Qed.

(** X9.  A buffer made of whole ADTS frames, the last one longer than a
    header, given in one [Parse] to a parser whose queue is empty and which
    has a configuration or finds a supported one in the first header: the
    call returns true, the samples emitted carry exactly these frames, in
    order, and nothing stays in the queue. *)
Theorem whole_frames_emitted (p : EsParserAdts H)
    (frames : list (list uint8)) (final : list uint8) (pts dts : Z) :
  Reachable p ->
  es_byte_queue_ p = [] ->
  Forall (fun f => is_adts_frame f = true) (frames ++ [final]) ->
  kAdtsHeaderMinSize < size_of final ->
  (last_audio_decoder_config_ p = None ->
   invalid_config (concat (frames ++ [final])) 0 = false) ->
  exists p' out,
    Parse p (concat (frames ++ [final])) pts dts = Some (true, p', out)
    /\ payloads out = frames ++ [final]
    /\ es_byte_queue_ p' = [].
Proof.
  intros R Q Fa Hlong V. destruct (Reachable_ok p R) as (OK & _).
  apply Forall_app in Fa. destruct Fa as (Fr & Ff).
  inversion Ff as [|? ? Hfin _]; subst.
  rewrite Parse_unfold, Q. cbv zeta. cbn [app].
  set (B := concat (frames ++ [final])).
  destruct (ParseFrames_whole_frames final Hfin Hlong frames [] (S (length B))
              (Parse_start p B pts) [] Fr) as (p' & o & E & Pl).
  { apply helper_ok_start, OK. }
  { exact V. }
  { pose proof (length_concat_frames frames Fr).
    destruct (is_adts_frame_inv final Hfin) as (_ & _ & Hm).
    unfold kAdtsHeaderMinSize, size_of in Hm.
    unfold B. rewrite concat_app, length_app. cbn [concat].
    rewrite app_nil_r. lia. }
  change (size_of []) with 0 in E. cbn [app] in E. fold B in E.
  rewrite E. exists (DiscardEs p' (size_of B)), o.
  split; [reflexivity|]. split; [exact Pl|].
  pose proof (size_of_nonneg B) as Hb.
  apply ParseFrames_inv in E;
    [|apply helper_ok_start, OK|lia].
  destruct E as (_ & _ & _ & Q' & _).
  rewrite DiscardEs_queue, Q' by lia.
  unfold Parse_start. cbn [es_byte_queue_ with_queue]. rewrite Q. cbn [app].
  unfold size_of. rewrite Nat2Z.id. apply skipn_all.
Qed.

End WholeFrames.

Lemma whole_frames_emitted_witness :
  Reachable (example_parser false)
  /\ es_byte_queue_ (example_parser false) = []
  /\ Forall (fun f => is_adts_frame f = true) ([frame9; frame7] ++ [frame8])
  /\ kAdtsHeaderMinSize < size_of frame8
  /\ exists p' out,
      Parse (example_parser false) (concat ([frame9; frame7] ++ [frame8]))
        1000 1000 = Some (true, p', out)
      /\ payloads out = [frame9; frame7] ++ [frame8]
      /\ es_byte_queue_ p' = [].
Proof.
  assert (R : Reachable (example_parser false)) by apply Reachable_New.
  assert (Fa : Forall (fun f => is_adts_frame f = true)
                 ([frame9; frame7] ++ [frame8])).
  { repeat constructor. }
  assert (Hl : kAdtsHeaderMinSize < size_of frame8) by reflexivity.
  split; [exact R|]. split; [reflexivity|]. split; [exact Fa|].
  split; [exact Hl|].
  apply (whole_frames_emitted _ _ _ 1000 1000 R eq_refl Fa Hl).
  intros _. reflexivity.
Defined.

End AdtsMore.

(** * Further properties of the container walker *)

Module WebMMore.
Import WebM WebMProps.

Section Walker.

Context {C : Collaborators}.

(** ** What the two steps of the loop keep *)

Lemma ParseInfoAndTracks_keeps (s : WebMMediaParser) data size :
  let '(result, s1, out) := ParseInfoAndTracks s data size in
  byte_queue_ s1 = byte_queue_ s
  /\ ignore_text_tracks_ s1 = ignore_text_tracks_ s
  /\ (unknown_segment_size_ s = true -> unknown_segment_size_ s1 = true)
  /\ (cluster_parser_ s <> None -> cluster_parser_ s1 <> None)
  /\ (state_ s1 = state_ s
      \/ (state_ s1 = kParsingClusters /\ cluster_parser_ s1 <> None
          /\ result = 0))
  /\ ((out = [] /\ cluster_parser_ s1 = cluster_parser_ s)
      \/ exists streams, out = [InitCB streams]).
Proof.
  unfold ParseInfoAndTracks.
  destruct (WebMParseElementHeader data size) as [[result id] element_size].
  destruct (result <=? 0); [repeat split; auto|].
  destruct (is_skipped_id id).
  { destruct (size <? result + element_size); repeat split; auto. }
  destruct (id =? kWebMIdCluster).
  { destruct (cluster_parser_ s) eqn:Ec; cbn; rewrite ?Ec;
      repeat split; auto; right; repeat split; congruence. }
  destruct (id =? kWebMIdSegment).
  { destruct (element_size =? kWebMUnknownSize); cbn; repeat split; auto. }
  destruct (id =? kWebMIdInfo); [|repeat split; auto].
  destruct (InfoParser_Parse data size) as [r1 info].
  destruct (r1 <=? 0); [repeat split; auto|].
  destruct (TracksParser_Parse _ _ _) as [r2 tracks].
  destruct (r2 <=? 0); cbn; repeat split; auto; try discriminate.
  right. eauto.
Qed.

Lemma ParseCluster_keeps (s : WebMMediaParser) data size :
  let '(result, s1, out) := ParseCluster s data size in
  byte_queue_ s1 = byte_queue_ s
  /\ ignore_text_tracks_ s1 = ignore_text_tracks_ s
  /\ unknown_segment_size_ s1 = unknown_segment_size_ s
  /\ (cluster_parser_ s <> None -> cluster_parser_ s1 <> None)
  /\ (state_ s1 = state_ s \/ state_ s1 = kParsingHeaders)
  /\ (cluster_parser_ s = None -> s1 = s /\ out = []).
Proof.
  unfold ParseCluster. destruct (cluster_parser_ s) as [c|] eqn:Ec.
  - destruct (ClusterParser_Parse c data size) as [[n c1] samples].
    destruct (n <? 0); [cbn; repeat split; auto; discriminate|].
    destruct (cluster_ended c1); cbn; repeat split; auto; discriminate.
  - repeat split; auto.
Qed.

Lemma turn_keeps (s : WebMMediaParser) cur cur_size :
  state_ s = kParsingHeaders \/ state_ s = kParsingClusters ->
  let '(result, s1, out) := turn s cur cur_size in
  byte_queue_ s1 = byte_queue_ s
  /\ ignore_text_tracks_ s1 = ignore_text_tracks_ s
  /\ (unknown_segment_size_ s = true -> unknown_segment_size_ s1 = true)
  /\ (cluster_parser_ s <> None -> cluster_parser_ s1 <> None)
  /\ (ready s -> ready s1)
  /\ (cluster_parser_ s = None ->
      starts_with_init out /\ (out = [] -> cluster_parser_ s1 = None)).
Proof.
  unfold turn, ready. intros [Es|Es]; rewrite Es.
  - pose proof (ParseInfoAndTracks_keeps s cur cur_size) as K.
    destruct (ParseInfoAndTracks s cur cur_size) as [[result s1] out].
    destruct K as (Q & It & U & N & St & O).
    repeat split; auto.
    + destruct St as [St|(St & _)]; rewrite St; congruence.
    + destruct St as [St|(_ & Cp & _)]; [congruence|auto].
    + destruct O as [(-> & _)|(st & ->)]; exact I.
    + destruct O as [(_ & Cp)|(st & ->)]; [congruence|discriminate].
  - pose proof (ParseCluster_keeps s cur cur_size) as K.
    destruct (ParseCluster s cur cur_size) as [[result s1] out].
    destruct K as (Q & It & U & N & St & O).
    repeat split; auto.
    + congruence.
    + destruct St as [St|St]; rewrite St; congruence.
    + intros _. apply N. tauto.
    + destruct (O H) as (_ & ->). exact I.
    + destruct (O H) as (-> & _). auto.
Qed.

Lemma ParseLoop_unfold (fuel : nat) (s : WebMMediaParser)
    (cur_size bytes_parsed : Z) (out : list Emission) :
  state_ s = kParsingHeaders \/ state_ s = kParsingClusters ->
  ParseLoop (S fuel) s cur_size bytes_parsed out =
  if cur_size >? 0 then
    let '(result, s1, out1) :=
      turn s (skipn (Z.to_nat bytes_parsed) (byte_queue_ s)) cur_size in
    if result <? 0
    then Some (false, ChangeState s1 kError, out ++ out1)
    else if State_eqb (state_ s1) (state_ s) && (result =? 0)
    then Some (true,
               with_byte_queue s1 (ByteQueue.Pop (byte_queue_ s1) bytes_parsed),
               out ++ out1)
    else ParseLoop fuel s1 (cur_size - result) (bytes_parsed + result)
                   (out ++ out1)
  else
    Some (true,
          with_byte_queue s (ByteQueue.Pop (byte_queue_ s) bytes_parsed),
          out).
Proof.
  unfold turn. intros [Es|Es]; cbn [ParseLoop]; rewrite Es; reflexivity.
Qed.

Lemma starts_with_init_app (o1 o2 : list Emission) :
  starts_with_init o1 -> (o1 = [] -> starts_with_init o2) ->
  starts_with_init (o1 ++ o2).
Proof. destruct o1; cbn; auto. Qed.

Lemma ready_error (s : WebMMediaParser) : ready (ChangeState s kError).
Proof. split; cbn; congruence. Qed.

(** ** What the loop of [Parse] keeps *)

Lemma loop_keeps_done (s : WebMMediaParser) (bytes_parsed : Z)
    (out : list Emission) :
  loop_keeps s bytes_parsed out true
    (with_byte_queue s (ByteQueue.Pop (byte_queue_ s) bytes_parsed)) out.
Proof.
  split; [exists bytes_parsed; split; [lia|reflexivity]|].
  split; [reflexivity|]. split; [auto|]. split; [auto|].
  exists []. rewrite app_nil_r. cbn. auto.
Qed.

Lemma loop_keeps_refused (s : WebMMediaParser) (bytes_parsed : Z)
    (out : list Emission) :
  loop_keeps s bytes_parsed out false s out.
Proof.
  split; [reflexivity|].
  split; [reflexivity|]. split; [auto|]. split; [auto|].
  exists []. rewrite app_nil_r. cbn. auto.
Qed.

Lemma ParseLoop_keeps (fuel : nat) :
  forall s cur_size bytes_parsed out ok s' out',
    0 <= bytes_parsed ->
    ParseLoop fuel s cur_size bytes_parsed out = Some (ok, s', out') ->
    loop_keeps s bytes_parsed out ok s' out'.
Proof.
  induction fuel as [|fuel IH]; intros s cur_size bytes_parsed out ok s' out' Hb.
  { cbn [ParseLoop]. destruct (cur_size >? 0); [discriminate|].
    intros [= <- <- <-]. apply loop_keeps_done. }
  assert (Other : state_ s = kWaitingForInit \/ state_ s = kError ->
                  ParseLoop (S fuel) s cur_size bytes_parsed out
                  = Some (ok, s', out') ->
                  loop_keeps s bytes_parsed out ok s' out').
  { intros Es. cbn [ParseLoop].
    destruct (cur_size >? 0);
      [|intros [= <- <- <-]; apply loop_keeps_done].
    destruct Es as [Es|Es]; rewrite Es; intros [= <- <- <-];
      apply loop_keeps_refused. }
  assert (Es : (state_ s = kWaitingForInit \/ state_ s = kError)
               \/ (state_ s = kParsingHeaders \/ state_ s = kParsingClusters)).
  { destruct (state_ s); auto. }
  destruct Es as [Es|Es]; [exact (Other Es)|]. clear Other.
  rewrite ParseLoop_unfold by exact Es.
  destruct (cur_size >? 0);
    [|intros [= <- <- <-]; apply loop_keeps_done].
  pose proof (turn_keeps s (skipn (Z.to_nat bytes_parsed) (byte_queue_ s))
                cur_size Es) as K.
  destruct (turn s _ cur_size) as [[result s1] out1].
  destruct K as (Q & It & U & N & Rd & O).
  destruct (Z.ltb_spec result 0) as [Neg|Pos].
  { intros [= <- <- <-].
    split; [exact Q|]. split; [exact It|]. split; [exact U|].
    split; [intros _; apply ready_error|].
    exists out1. split; [reflexivity|]. exact O. }
  destruct (State_eqb (state_ s1) (state_ s) && (result =? 0)).
  { intros [= <- <- <-].
    split; [exists bytes_parsed; split; [lia|]; cbn; rewrite Q; reflexivity|].
    split; [exact It|]. split; [exact U|]. split; [exact Rd|].
    exists out1. split; [reflexivity|]. exact O. }
  intros R. apply IH in R; [|lia].
  destruct R as (Rq & Ri & Ru & Rr & o & -> & Ro).
  split.
  { destruct ok; [|congruence].
    destruct Rq as (n & Hn & ->). exists n. split; [lia|].
    rewrite Q. reflexivity. }
  split; [congruence|]. split; [auto|]. split; [auto|].
  exists (out1 ++ o). split; [symmetry; apply app_assoc|].
  intros Cp. destruct (O Cp) as (S1 & E1). split.
  - apply starts_with_init_app; [exact S1|].
    intros E. apply Ro, E1, E.
  - intros E. apply app_eq_nil in E. destruct E as (E & E').
    apply Ro; auto.
Qed.

Lemma Parse_keeps (fuel : nat) (s : WebMMediaParser) (buf : list uint8)
    ok s' out :
  Parse fuel s buf = Some (ok, s', out) ->
  (state_ s <> kError ->
   if ok
   then exists n, 0 <= n
                  /\ byte_queue_ s' = skipn (Z.to_nat n) (byte_queue_ s ++ buf)
   else byte_queue_ s' = byte_queue_ s ++ buf)
  /\ ignore_text_tracks_ s' = ignore_text_tracks_ s
  /\ (unknown_segment_size_ s = true -> unknown_segment_size_ s' = true)
  /\ (ready s -> ready s')
  /\ (cluster_parser_ s = None ->
      starts_with_init out /\ (out = [] -> cluster_parser_ s' = None)).
Proof.
  unfold Parse. destruct (State_eqb (state_ s) kError) eqn:E.
  - intros [= <- <- <-].
    split; [destruct (state_ s); try discriminate; congruence|].
    split; [reflexivity|]. split; [auto|]. split; [auto|].
    cbn. auto.
  - cbn [ByteQueue.Peek]. intros R.
    apply ParseLoop_keeps in R; [|lia].
    destruct R as (Rq & Ri & Ru & Rr & o & Eo & Ro).
    cbn [app] in Eo. subst o.
    split; [intros _; exact Rq|]. split; [exact Ri|]. split; [exact Ru|].
    split; [|exact Ro]. intros Rd. apply Rr. exact Rd.
Qed.

Lemma Flush_keeps (s : WebMMediaParser) :
  byte_queue_ (Flush s) = []
  /\ ignore_text_tracks_ (Flush s) = ignore_text_tracks_ s
  /\ unknown_segment_size_ (Flush s) = unknown_segment_size_ s
  /\ (ready s -> ready (Flush s))
  /\ (cluster_parser_ s = None -> cluster_parser_ (Flush s) = None).
Proof.
  unfold Flush, ready.
  destruct (cluster_parser_ (with_byte_queue s _)) eqn:Ec; cbn in Ec;
    destruct (state_ s) eqn:Es; cbn; rewrite ?Es; cbn;
    (split; [reflexivity|]); (split; [reflexivity|]);
    (split; [reflexivity|]);
    (split; [intros (A & B); split; congruence|congruence]).
Qed.

Lemma Run_keeps (fuel : nat) (calls : list Call) :
  forall s s' oks out,
    Run fuel calls s = Some (s', oks, out) ->
    ignore_text_tracks_ s' = ignore_text_tracks_ s
    /\ (unknown_segment_size_ s = true -> unknown_segment_size_ s' = true)
    /\ (ready s -> ready s')
    /\ (cluster_parser_ s = None -> starts_with_init out).
Proof.
  induction calls as [|c calls IH]; intros s s' oks out; cbn [Run].
  - intros [= <- <- <-]. cbn. auto.
  - destruct c as [buf|].
    + destruct (Parse fuel s buf) as [[[ok s1] o1]|] eqn:E; [|discriminate].
      destruct (Run fuel calls s1) as [[[s2 oks2] o2]|] eqn:R; [|discriminate].
      intros [= <- <- <-].
      apply Parse_keeps in E. destruct E as (_ & Pi & Pu & Pr & Po).
      apply IH in R. destruct R as (Ri & Ru & Rr & Ro).
      split; [congruence|]. split; [auto|]. split; [auto|].
      intros Cp. destruct (Po Cp) as (S1 & E1).
      apply starts_with_init_app; auto.
    + intros R. apply IH in R. destruct R as (Ri & Ru & Rr & Ro).
      destruct (Flush_keeps s) as (_ & Fi & Fu & Fr & Fc).
      split; [congruence|]. split; [intros; apply Ru; congruence|].
      split; auto.
Qed.

Lemma ready_Init (s : WebMMediaParser) :
  cluster_parser_ s = None -> ready (Init s).
Proof. intros Cp. split; cbn; congruence. Qed.

(** X12.  From [Init] on the walker is never waiting for [Init] again, and
    whenever it is in [kParsingClusters] it has a cluster parser: the state
    is entered only on a cluster element met after the info and tracks have
    been read, and the parser is never taken away.  So [ParseCluster] is
    never run on a missing cluster parser. *)
Theorem ready_after_Init (fuel : nat) (calls : list Call)
    (s : WebMMediaParser) (oks : list bool) (out : list Emission) :
  Run fuel calls (Init NewWebMMediaParser) = Some (s, oks, out) ->
  state_ s <> kWaitingForInit
  /\ (state_ s = kParsingClusters -> cluster_parser_ s <> None).
Proof.
  intros R. apply Run_keeps in R. destruct R as (_ & _ & Rr & _).
  apply Rr, ready_Init. reflexivity.
Qed.

(** X13.  What a [Parse] does to the byte queue, the walker not being in
    [kError]: when it returns false, the queue is the old one followed by
    the input, nothing having been removed, not even what the turns before
    the failure had parsed; when it returns true, the queue is that with a
    number of bytes removed at its front. *)
Theorem Parse_queue (fuel : nat) (s : WebMMediaParser) (buf : list uint8)
    (ok : bool) (s' : WebMMediaParser) (out : list Emission) :
  state_ s <> kError ->
  Parse fuel s buf = Some (ok, s', out) ->
  if ok
  then exists n, 0 <= n
                 /\ byte_queue_ s' = skipn (Z.to_nat n) (byte_queue_ s ++ buf)
  else byte_queue_ s' = byte_queue_ s ++ buf.
Proof.
  intros NE E. apply Parse_keeps in E. destruct E as (Q & _).
  exact (Q NE).
Qed.

(** X14.  No sequence of [Parse] and [Flush] calls changes
    [ignore_text_tracks_], and none clears [unknown_segment_size_] once a
    segment of unknown size has set it: [Flush] does not start a new
    segment. *)
Theorem flags_kept (fuel : nat) (calls : list Call)
    (s s' : WebMMediaParser) (oks : list bool) (out : list Emission) :
  Run fuel calls s = Some (s', oks, out) ->
  ignore_text_tracks_ s' = ignore_text_tracks_ s
  /\ (unknown_segment_size_ s = true -> unknown_segment_size_ s' = true).
Proof.
  intros R. apply Run_keeps in R. destruct R as (Ri & Ru & _). auto.
Qed.

(** X15.  A walker without cluster parser, as it is after [Init], gives no
    sample to [new_sample_cb_] before it has called [init_cb_]: the callback
    calls of any sequence of [Parse] and [Flush] do not start with a
    sample. *)
Theorem init_before_samples (fuel : nat) (calls : list Call)
    (s s' : WebMMediaParser) (oks : list bool) (out : list Emission) :
  cluster_parser_ s = None ->
  Run fuel calls s = Some (s', oks, out) ->
  starts_with_init out.
Proof.
  intros Cp R. apply Run_keeps in R. destruct R as (_ & _ & _ & Ro). auto.
Qed.

(** ** The loop of [Parse] ends *)

Lemma State_eqb_eq (a b : State) : State_eqb a b = true <-> a = b.
Proof. destruct a, b; cbn; split; congruence. Qed.

Lemma ParseCluster_no_progress (s : WebMMediaParser) data size :
  cluster_parser_consumes ->
  let '(result, s1, _) := ParseCluster s data size in
  result = 0 -> state_ s1 = state_ s.
Proof.
  intros Hc. unfold ParseCluster.
  destruct (cluster_parser_ s) as [c|]; [|reflexivity].
  specialize (Hc c data size).
  destruct (ClusterParser_Parse c data size) as [[n c1] samples].
  destruct (n <? 0); [reflexivity|].
  destruct (cluster_ended c1); [|reflexivity].
  intros E. specialize (Hc E). discriminate.
Qed.

(** Two turns of the loop consume a byte: a turn that consumes nothing
    either ends the loop or goes from the headers to the clusters. *)
Lemma ParseLoop_terminates (Hc : cluster_parser_consumes) (fuel : nat) :
  forall s cur_size bytes_parsed out,
    (2 * Z.to_nat cur_size
     + match state_ s with kParsingHeaders => 1 | _ => 0 end < fuel)%nat ->
    exists r, ParseLoop fuel s cur_size bytes_parsed out = Some r.
Proof.
  induction fuel as [|fuel IH]; intros s cur_size bytes_parsed out M; [lia|].
  assert (Es : (state_ s = kWaitingForInit \/ state_ s = kError)
               \/ (state_ s = kParsingHeaders \/ state_ s = kParsingClusters)).
  { destruct (state_ s); auto. }
  destruct Es as [Es|Es].
  { cbn [ParseLoop]. destruct (cur_size >? 0); [|eauto].
    destruct Es as [Es|Es]; rewrite Es; eauto. }
  rewrite ParseLoop_unfold by exact Es.
  destruct (Z.gtb_spec cur_size 0) as [Gt|Le]; [|eauto].
  unfold turn.
  destruct Es as [Es|Es]; rewrite Es in *.
  - pose proof (ParseInfoAndTracks_keeps s
                  (skipn (Z.to_nat bytes_parsed) (byte_queue_ s)) cur_size) as K.
    destruct (ParseInfoAndTracks s _ cur_size) as [[result s1] out1].
    destruct K as (_ & _ & _ & _ & St & _).
    destruct (Z.ltb_spec result 0) as [Neg|Pos]; [eauto|].
    destruct (State_eqb (state_ s1) kParsingHeaders && (result =? 0)) eqn:B;
      [eauto|].
    apply IH. destruct St as [St|(St & _ & Z0)]; rewrite St.
    + rewrite Es. rewrite St, Es in B. cbn in B.
      apply Z.eqb_neq in B. lia.
    + lia.
  - pose proof (ParseCluster_keeps s
                  (skipn (Z.to_nat bytes_parsed) (byte_queue_ s)) cur_size) as K.
    pose proof (ParseCluster_no_progress s
                  (skipn (Z.to_nat bytes_parsed) (byte_queue_ s)) cur_size Hc)
      as P.
    destruct (ParseCluster s _ cur_size) as [[result s1] out1].
    destruct K as (_ & _ & _ & _ & St & _).
    destruct (Z.ltb_spec result 0) as [Neg|Pos]; [eauto|].
    destruct (State_eqb (state_ s1) kParsingClusters && (result =? 0)) eqn:B;
      [eauto|].
    apply IH.
    assert (R0 : result <> 0).
    { intros Z0. rewrite (P Z0), Es, Z0 in B. discriminate. }
    destruct (state_ s1); lia.
Qed.

(** X16.  [Parse] returns, whatever the walker and the input, when the
    cluster parser never ends a cluster in a call that consumes nothing: the
    loop makes at most two turns for every byte of the queue, and one more
    to leave. *)
Theorem Parse_returns (s : WebMMediaParser) (buf : list uint8) (fuel : nat) :
  cluster_parser_consumes ->
  (2 * length (byte_queue_ s ++ buf) + 1 < fuel)%nat ->
  exists ok s' out, Parse fuel s buf = Some (ok, s', out).
Proof.
  intros Hc Fu. unfold Parse.
  destruct (State_eqb (state_ s) kError); [eauto|].
  cbn [ByteQueue.Peek].
  destruct (ParseLoop_terminates Hc fuel
              (with_byte_queue s (ByteQueue.Push (byte_queue_ s) buf))
              (size_of (ByteQueue.Push (byte_queue_ s) buf)) 0 [])
    as ([[ok s'] out] & E).
  { unfold size_of, ByteQueue.Push. rewrite Nat2Z.id.
    destruct (state_ _); lia. }
  exists ok, s', out. exact E.
Qed.

End Walker.

(** The walker of the examples reads a segment header, then the info and the
    tracks, then a cluster. *)
Lemma ready_after_Init_witness :
  Run 20 [CallParse [x18; x53; x80; x67; x00];
          CallParse [x15; x49; xa9; x66; x00; x00; x00; x00; x00; x00];
          CallParse [x1f; x43; xb6; x75; x00; x01]]
      (Init NewWebMMediaParser)
  = Some (ChangeState
            (with_cluster_parser (Init NewWebMMediaParser) (Some tt))
            kParsingClusters,
          [true; true; true], [InitCB [tt]])
  /\ state_ (ChangeState
               (with_cluster_parser (Init NewWebMMediaParser) (Some tt))
               kParsingClusters) <> kWaitingForInit
  /\ (state_ (ChangeState
                (with_cluster_parser (Init NewWebMMediaParser) (Some tt))
                kParsingClusters) = kParsingClusters ->
      cluster_parser_
        (ChangeState
           (with_cluster_parser (Init NewWebMMediaParser) (Some tt))
           kParsingClusters) <> None).
Proof.
  assert (R : Run 20 [CallParse [x18; x53; x80; x67; x00];
          CallParse [x15; x49; xa9; x66; x00; x00; x00; x00; x00; x00];
          CallParse [x1f; x43; xb6; x75; x00; x01]]
      (Init NewWebMMediaParser)
  = Some (ChangeState
            (with_cluster_parser (Init NewWebMMediaParser) (Some tt))
            kParsingClusters,
          [true; true; true], [InitCB [tt]])) by reflexivity.
  split; [exact R|]. exact (ready_after_Init _ _ _ _ _ R).
Defined.

Lemma Parse_queue_witness :
  state_ started <> kError
  /\ Parse 20 started [x18; x53; x80; x67; x00; x12; x34; x56; x78; x00]
     = Some (false,
             ChangeState
               (with_byte_queue started
                  [x18; x53; x80; x67; x00; x12; x34; x56; x78; x00])
               kError,
             [])
  /\ byte_queue_
       (ChangeState
          (with_byte_queue started
             [x18; x53; x80; x67; x00; x12; x34; x56; x78; x00])
          kError)
     = byte_queue_ started
       ++ [x18; x53; x80; x67; x00; x12; x34; x56; x78; x00].
Proof.
  assert (NE : state_ started <> kError) by discriminate.
  assert (E : Parse 20 started
                [x18; x53; x80; x67; x00; x12; x34; x56; x78; x00]
     = Some (false,
             ChangeState
               (with_byte_queue started
                  [x18; x53; x80; x67; x00; x12; x34; x56; x78; x00])
               kError,
             [])) by reflexivity.
  split; [exact NE|]. split; [exact E|].
  exact (Parse_queue _ _ _ _ _ _ NE E).
Defined.

Lemma flags_kept_witness :
  Run 20 [CallParse [x18; x53; x80; x67; x00];
          CallFlush;
          CallParse [x15; x49; xa9; x66; x00; x00; x00; x00; x00; x00]]
      (with_unknown_segment_size started true)
  = Some (with_cluster_parser
            (with_byte_queue (with_unknown_segment_size started true) [])
            (Some tt),
          [true; true], [InitCB [tt]])
  /\ ignore_text_tracks_
       (with_cluster_parser
          (with_byte_queue (with_unknown_segment_size started true) [])
          (Some tt))
     = ignore_text_tracks_ (with_unknown_segment_size started true)
  /\ (unknown_segment_size_ (with_unknown_segment_size started true) = true ->
      unknown_segment_size_
        (with_cluster_parser
           (with_byte_queue (with_unknown_segment_size started true) [])
           (Some tt)) = true).
Proof.
  assert (R : Run 20 [CallParse [x18; x53; x80; x67; x00];
          CallFlush;
          CallParse [x15; x49; xa9; x66; x00; x00; x00; x00; x00; x00]]
      (with_unknown_segment_size started true)
  = Some (with_cluster_parser
            (with_byte_queue (with_unknown_segment_size started true) [])
            (Some tt),
          [true; true], [InitCB [tt]])) by reflexivity.
  split; [exact R|]. exact (flags_kept _ _ _ _ _ _ R).
Defined.

Lemma init_before_samples_witness :
  cluster_parser_ started = None
  /\ Run 20 [CallParse [x18; x53; x80; x67; x00];
             CallParse [x15; x49; xa9; x66; x00; x00; x00; x00; x00; x00];
             CallParse [x1f; x43; xb6; x75; x00; x01]]
         started
     = Some (ChangeState (with_cluster_parser started (Some tt))
               kParsingClusters,
             [true; true; true], [InitCB [tt]])
  /\ starts_with_init [InitCB [tt]].
Proof.
  assert (R : Run 20 [CallParse [x18; x53; x80; x67; x00];
             CallParse [x15; x49; xa9; x66; x00; x00; x00; x00; x00; x00];
             CallParse [x1f; x43; xb6; x75; x00; x01]]
         started
     = Some (ChangeState (with_cluster_parser started (Some tt))
               kParsingClusters,
             [true; true; true], [InitCB [tt]])) by reflexivity.
  split; [reflexivity|]. split; [exact R|].
  exact (init_before_samples 20 _ started _ _ _ eq_refl R).
Defined.

Lemma Parse_returns_witness :
  cluster_parser_consumes
  /\ (2 * length (byte_queue_ started ++ [x1f; x43; xb6; x75; x00]) + 1
      < 12)%nat
  /\ exists ok s' out,
      Parse 12 started [x1f; x43; xb6; x75; x00] = Some (ok, s', out).
Proof.
  assert (Hc : cluster_parser_consumes).
  { intros c data size. cbn. reflexivity. }
  assert (Fu : (2 * length (byte_queue_ started ++ [x1f; x43; xb6; x75; x00])
                + 1 < 12)%nat) by (cbn; lia).
  split; [exact Hc|]. split; [exact Fu|].
  exact (Parse_returns started _ 12 Hc Fu).
Defined.

End WebMMore.
